(** * LoanPriority: the loan payoff strategy analyzer of [loanpayoff.py]

    A shallow embedding of [analyze_loan_payoff_strategy] and of the pandas
    and numpy operations it calls, followed by the properties of the
    specification, stated and proved over that embedding.

    Numbers are IEEE 754 binary64 values, as the columns of the data frame
    are ([float64]); they are represented by the Standard Library's
    [spec_float], whose operations are ordinary, computable functions.  A
    column whose cells are all Python integers is [int64] in pandas; its
    values below 2^53 and the results computed from them are the same
    binary64 numbers.

    The library routines are written after their documented behaviour and
    their reference implementations: [pd.DataFrame] on a list of dicts,
    column lookup, element-wise arithmetic, [Series.round], [Series.sum],
    [idxmax] and [idxmin], [sort_values] through pandas' [nargsort], and
    numpy's [argsort], which the analyzer takes as a parameter.

    The script under the function is modelled too: its calls of [print] in
    order, each with its text or the exception its f-string raises, with
    Python's [,.2f] and [.2f] formats written out and [str] of a float as
    a parameter. *)

From Stdlib Require Import ZArith List Bool String Ascii DecimalString.
From Stdlib Require Import Permutation Sorted Lia Arith.
From Stdlib Require Import Floats.SpecFloat.
Import ListNotations.

(** ** binary64 *)

Module F64.

Definition t := spec_float.

Definition prec : Z := 53.
Definition emax : Z := 1024.

Definition nan : t := S754_nan.
Definition inf : t := S754_infinity false.
Definition neg_inf : t := S754_infinity true.
Definition zero : t := S754_zero false.

Definition mul : t -> t -> t := SFmul prec emax.
Definition div : t -> t -> t := SFdiv prec emax.
Definition add : t -> t -> t := SFadd prec emax.
Definition neg : t -> t := SFopp.

Definition eqb : t -> t -> bool := SFeqb.
Definition ltb : t -> t -> bool := SFltb.
Definition leb : t -> t -> bool := SFleb.

(** An integer, rounded to nearest even when it has more than 53 bits. *)
Definition of_Z (z : Z) : t := binary_normalize prec emax z 0 false.

(** The decimal literal [n / 10^k] of the Python source, written as the
    fraction [n / d]: numerator and denominator are exact and the
    division rounds once, as the parser of a literal does. *)
Definition dec (n d : Z) : t := div (of_Z n) (of_Z d).

Definition isnan (x : t) : bool :=
  match x with S754_nan => true | _ => false end.

Definition isfinite (x : t) : bool :=
  match x with S754_zero _ | S754_finite _ _ _ => true | _ => false end.

Definition is_zero (x : t) : bool :=
  match x with S754_zero _ => true | _ => false end.

(** [m / 2^k] rounded to the nearest integer, ties to the even one. *)
Definition round_half_even (m : Z) (k : Z) : Z :=
  let q := Z.shiftr m k in
  let r := (m - Z.shiftl q k)%Z in
  let half := Z.shiftl 1 (k - 1) in
  match (r ?= half)%Z with
  | Lt => q
  | Gt => (q + 1)%Z
  | Eq => if Z.even q then q else (q + 1)%Z
  end.

(** C's [rint] in the default rounding mode, which [numpy.rint] calls:
    the nearest integer, ties to even, the sign kept on a zero result. *)
Definition rint (x : t) : t :=
  match x with
  | S754_finite s m e =>
      if (0 <=? e)%Z then x
      else
        let n := round_half_even (Zpos m) (- e) in
        if (n =? 0)%Z then S754_zero s
        else binary_normalize prec emax (if s then (- n)%Z else n) 0 s
  | _ => x
  end.

(** Two scores are identical when they compare equal, or are both NaN
    (the missing value). *)
Definition same (x y : t) : bool :=
  eqb x y || (isnan x && isnan y).

(** [np.log] on the special values is fixed by IEEE 754 and C99 Annex F;
    on a positive finite argument it is the platform's [log], [log_pos]. *)
Definition log (log_pos : t -> t) (x : t) : t :=
  match x with
  | S754_nan => S754_nan
  | S754_zero _ => S754_infinity true
  | S754_infinity false => S754_infinity false
  | S754_infinity true => S754_nan
  | S754_finite true _ _ => S754_nan
  | S754_finite false _ _ => log_pos x
  end.

(** The integer part of the binary logarithm of a positive finite number:
    a total, computable logarithm, used where an example has to run. *)
Definition floor_log2 (x : t) : t :=
  match x with
  | S754_finite _ m e => of_Z (Zpos (digits2_pos m) + e - 1)
  | _ => zero
  end.

End F64.

Abbreviation f64 := F64.t.

(** ** Exceptions and results *)

Inductive exn : Type :=
| KeyError (key : string)
    (** [df[key]] or [df.loc[_, key]] on a frame without that column *)
| NoValidIndex (column : string)
    (** [idxmax] / [idxmin] of a column whose cells are all NaN, and the
        [.loc] lookup that follows: the analysis does not return *).

Inductive result (A : Type) : Type :=
| Ok (a : A)
| Raise (e : exn).

Arguments Ok {A} a.
Arguments Raise {A} e.

Definition bind {A B : Type} (r : result A) (k : A -> result B) : result B :=
  match r with
  | Ok a => k a
  | Raise e => Raise e
  end.

Notation "x <- r ;; k" := (bind r (fun x => k))
  (at level 61, r at next level, right associativity).

Definition raises {A : Type} (r : result A) : bool :=
  match r with Ok _ => false | Raise _ => true end.

(** ** Loans and data frames *)

(** A loan is a Python [dict]; each of the four keys the program reads may
    be absent. *)
Module Loan.
Record t : Type := make {
  name : option string;
  principal : option f64;
  rate : option f64;
  min_payment : option f64
}.
End Loan.

(** A dict with all four keys. *)
Definition loan (name : string) (principal rate min_payment : f64) : Loan.t :=
  Loan.make (Some name) (Some principal) (Some rate) (Some min_payment).

Definition Series := list f64.

(** The frame of the program: the row labels ([index]), the columns built
    from the dicts and the derived columns the program adds.  A column the
    frame does not have is [None]; a cell of the object column [name] that
    holds NaN is [None]. *)
Record DataFrame : Type := {
  index : list nat;
  name : option (list (option string));
  principal : option Series;
  rate : option Series;
  min_payment : option Series;
  monthly_interest : option Series;
  interest_principal_ratio : option Series;
  avalanche_score : option Series;
  snowball_score : option Series;
  balanced_score : option Series
}.

Definition is_some {A : Type} (o : option A) : bool :=
  match o with Some _ => true | None => false end.

(** [pd.DataFrame(loans)]: a key is a column when some dict has it; a dict
    without the key gets NaN in that column. *)
Definition column {A B : Type} (get : Loan.t -> option A) (cell : option A -> B)
    (loans : list Loan.t) : option (list B) :=
  if existsb (fun l => is_some (get l)) loans
  then Some (map (fun l => cell (get l)) loans)
  else None.

Definition num_cell (o : option f64) : f64 :=
  match o with Some x => x | None => F64.nan end.

Definition pd_DataFrame (loans : list Loan.t) : DataFrame := {|
  index := seq 0 (List.length loans);
  name := column Loan.name (fun c => c) loans;
  principal := column Loan.principal num_cell loans;
  rate := column Loan.rate num_cell loans;
  min_payment := column Loan.min_payment num_cell loans;
  monthly_interest := None;
  interest_principal_ratio := None;
  avalanche_score := None;
  snowball_score := None;
  balanced_score := None
|}.

(** [df[key]] *)
Definition getitem {A : Type} (key : string) (col : option A) : result A :=
  match col with
  | Some c => Ok c
  | None => Raise (KeyError key)
  end.

(** ** Series arithmetic (element by element) *)

Definition series_mul (a b : Series) : Series :=
  map (fun p => F64.mul (fst p) (snd p)) (combine a b).

Definition series_div (a b : Series) : Series :=
  map (fun p => F64.div (fst p) (snd p)) (combine a b).

Definition series_div_scalar (a : Series) (c : f64) : Series :=
  map (fun x => F64.div x c) a.

Definition series_neg (a : Series) : Series := map F64.neg a.

Definition np_log (log_pos : f64 -> f64) (a : Series) : Series :=
  map (F64.log log_pos) a.

(** [numpy.round(x, 2)]: scale by [10**2], [rint], scale back. *)
Definition round2 (x : f64) : f64 :=
  F64.div (F64.rint (F64.mul x (F64.of_Z 100))) (F64.of_Z 100).

Definition series_round2 (a : Series) : Series := map round2 a.

(** ** Reductions *)

(** numpy's pairwise summation, the inner loop of [add.reduce] on float64:
    fewer than 8 numbers are added one after the other, up to 128 go through
    8 accumulators, more are split in two. *)
Definition sum_from (acc : f64) (a : Series) : f64 := fold_left F64.add a acc.

Fixpoint zip_add (r a : list f64) : list f64 :=
  match r, a with
  | x :: r', y :: a' => F64.add x y :: zip_add r' a'
  | _, _ => r
  end.

(** [for (i = 8; i < n - (n % 8); i += 8) r[j] += a[i + j]] *)
Fixpoint add_blocks (fuel : nat) (r : list f64) (a : Series) : list f64 * Series :=
  match fuel with
  | O => (r, a)
  | S fuel' =>
      if 8 <=? List.length a
      then add_blocks fuel' (zip_add r (firstn 8 a)) (skipn 8 a)
      else (r, a)
  end.

Definition sum_accumulators (r : list f64) : f64 :=
  match r with
  | [r0; r1; r2; r3; r4; r5; r6; r7] =>
      F64.add (F64.add (F64.add r0 r1) (F64.add r2 r3))
              (F64.add (F64.add r4 r5) (F64.add r6 r7))
  | _ => F64.nan
  end.

Fixpoint pairwise_sum (fuel : nat) (a : Series) : f64 :=
  let n := List.length a in
  if n <? 8 then sum_from (S754_zero true) a
  else if n <=? 128 then
    let '(r, rest) := add_blocks n (firstn 8 a) (skipn 8 a) in
    sum_from (sum_accumulators r) rest
  else
    match fuel with
    | O => F64.nan
    | S fuel' =>
        let n2 := n / 2 in
        let n2 := n2 - n2 mod 8 in
        F64.add (pairwise_sum fuel' (firstn n2 a)) (pairwise_sum fuel' (skipn n2 a))
    end.

(** [Series.sum()], with the default [skipna=True]: NaN cells count as 0
    and the rest is added to the identity of the sum. *)
Definition fillna0 (x : f64) : f64 := if F64.isnan x then F64.zero else x.

Definition series_sum (a : Series) : f64 :=
  let values := map fillna0 a in
  F64.add F64.zero (pairwise_sum (List.length values) values).

(** numpy's [argmax] and [argmin] on float64: the first position of the
    extremum; a NaN, once met, is kept. *)
Fixpoint argmax_loop (mp : f64) (best i : nat) (a : Series) : nat :=
  if F64.isnan mp then best
  else
    match a with
    | [] => best
    | x :: a' =>
        if negb (F64.leb x mp) then argmax_loop x i (S i) a'
        else argmax_loop mp best (S i) a'
    end.

Definition np_argmax (a : Series) : nat :=
  match a with
  | [] => 0
  | x :: a' => argmax_loop x 0 1 a'
  end.

Fixpoint argmin_loop (mp : f64) (best i : nat) (a : Series) : nat :=
  if F64.isnan mp then best
  else
    match a with
    | [] => best
    | x :: a' =>
        if negb (F64.leb mp x) then argmin_loop x i (S i) a'
        else argmin_loop mp best (S i) a'
    end.

Definition np_argmin (a : Series) : nat :=
  match a with
  | [] => 0
  | x :: a' => argmin_loop x 0 1 a'
  end.

(** [Series.idxmax()] and [Series.idxmin()]: NaN cells are skipped (they
    are replaced by the infinity that cannot win); the label returned is
    the position, the index being [0, 1, ...]. *)
Definition idxmax (key : string) (a : Series) : result nat :=
  if forallb F64.isnan a then Raise (NoValidIndex key)
  else Ok (np_argmax (map (fun x => if F64.isnan x then F64.neg_inf else x) a)).

Definition idxmin (key : string) (a : Series) : result nat :=
  if forallb F64.isnan a then Raise (NoValidIndex key)
  else Ok (np_argmin (map (fun x => if F64.isnan x then F64.inf else x) a)).

(** [df.loc[i, 'name']] *)
Definition loc_name (df : DataFrame) (i : nat) : result (option string) :=
  col <- getitem "name" (name df);;
  Ok (nth i col None).

(** ** Assigning a column: [df[key] = values] *)

Definition set_monthly_interest (df : DataFrame) (v : Series) : DataFrame :=
  {| index := index df; name := name df; principal := principal df;
     rate := rate df; min_payment := min_payment df;
     monthly_interest := Some v;
     interest_principal_ratio := interest_principal_ratio df;
     avalanche_score := avalanche_score df;
     snowball_score := snowball_score df;
     balanced_score := balanced_score df |}.

Definition set_interest_principal_ratio (df : DataFrame) (v : Series) : DataFrame :=
  {| index := index df; name := name df; principal := principal df;
     rate := rate df; min_payment := min_payment df;
     monthly_interest := monthly_interest df;
     interest_principal_ratio := Some v;
     avalanche_score := avalanche_score df;
     snowball_score := snowball_score df;
     balanced_score := balanced_score df |}.

Definition set_avalanche_score (df : DataFrame) (v : Series) : DataFrame :=
  {| index := index df; name := name df; principal := principal df;
     rate := rate df; min_payment := min_payment df;
     monthly_interest := monthly_interest df;
     interest_principal_ratio := interest_principal_ratio df;
     avalanche_score := Some v;
     snowball_score := snowball_score df;
     balanced_score := balanced_score df |}.

Definition set_snowball_score (df : DataFrame) (v : Series) : DataFrame :=
  {| index := index df; name := name df; principal := principal df;
     rate := rate df; min_payment := min_payment df;
     monthly_interest := monthly_interest df;
     interest_principal_ratio := interest_principal_ratio df;
     avalanche_score := avalanche_score df;
     snowball_score := Some v;
     balanced_score := balanced_score df |}.

Definition set_balanced_score (df : DataFrame) (v : Series) : DataFrame :=
  {| index := index df; name := name df; principal := principal df;
     rate := rate df; min_payment := min_payment df;
     monthly_interest := monthly_interest df;
     interest_principal_ratio := interest_principal_ratio df;
     avalanche_score := avalanche_score df;
     snowball_score := snowball_score df;
     balanced_score := Some v |}.

(** ** Reordering rows *)

(** [col.take(indexer)] *)
Definition take {A : Type} (d : A) (indexer : list nat) (col : list A) : list A :=
  map (fun i => nth i col d) indexer.

Definition take_num (indexer : list nat) (col : option Series) : option Series :=
  option_map (take F64.nan indexer) col.

Definition df_take (indexer : list nat) (df : DataFrame) : DataFrame :=
  {| index := take 0 indexer (index df);
     name := option_map (take None indexer) (name df);
     principal := take_num indexer (principal df);
     rate := take_num indexer (rate df);
     min_payment := take_num indexer (min_payment df);
     monthly_interest := take_num indexer (monthly_interest df);
     interest_principal_ratio := take_num indexer (interest_principal_ratio df);
     avalanche_score := take_num indexer (avalanche_score df);
     snowball_score := take_num indexer (snowball_score df);
     balanced_score := take_num indexer (balanced_score df) |}.

(** ** The report *)

Record Strategies : Type := {
  avalanche_method : DataFrame;
  snowball_method : DataFrame;
  balanced_method : DataFrame
}.

Record Summary : Type := {
  total_debt : f64;
  total_monthly_interest : f64;
  highest_interest_loan : option string;
  smallest_balance_loan : option string;
  most_expensive_loan : option string
}.

Record Analysis : Type := {
  strategies : Strategies;
  summary : Summary
}.

(** ** The analyzer

    Two library routines are parameters: the platform's logarithm on
    positive finite numbers, and [numpy.argsort] with the default
    [kind='quicksort'], which [sort_values] is called with. *)

Section Analyzer.

Variable log_pos : f64 -> f64.
Variable argsort : Series -> list nat.

(** pandas' [nargsort], with [na_position='last']: the NaN keys are set
    aside, the others are sorted in ascending order (reversed before and
    after for a descending sort), and the NaN rows are put at the end. *)
Definition nargsort (items : Series) (ascending : bool) : list nat :=
  let keyed := combine (seq 0 (List.length items)) items in
  let non_nan := filter (fun p => negb (F64.isnan (snd p))) keyed in
  let nan_idx := map fst (filter (fun p => F64.isnan (snd p)) keyed) in
  let non_nan := if ascending then non_nan else rev non_nan in
  let indexer := take 0 (argsort (map snd non_nan)) (map fst non_nan) in
  let indexer := if ascending then indexer else rev indexer in
  indexer ++ nan_idx.

(** [df.sort_values(key, ascending=...)] *)
Definition sort_values (key : string) (col : DataFrame -> option Series)
    (ascending : bool) (df : DataFrame) : result DataFrame :=
  k <- getitem key (col df);;
  Ok (df_take (nargsort k ascending) df).

Definition analyze_loan_payoff_strategy (loans : list Loan.t) : result Analysis :=
  let df := pd_DataFrame loans in
  (* monthly interest accrual *)
  p <- getitem "principal" (principal df);;
  r <- getitem "rate" (rate df);;
  let df := set_monthly_interest df
    (series_round2
       (series_div_scalar
          (series_mul p (series_div_scalar r (F64.of_Z 100)))
          (F64.of_Z 12))) in
  (* interest-to-principal ratio *)
  r <- getitem "rate" (rate df);;
  p <- getitem "principal" (principal df);;
  let df := set_interest_principal_ratio df
    (series_div (series_div_scalar r (F64.of_Z 100)) p) in
  (* prioritization scores *)
  r <- getitem "rate" (rate df);;
  let df := set_avalanche_score df r in
  p <- getitem "principal" (principal df);;
  let df := set_snowball_score df (series_neg p) in
  r <- getitem "rate" (rate df);;
  p <- getitem "principal" (principal df);;
  let df := set_balanced_score df (series_mul r (np_log log_pos p)) in
  (* recommendations *)
  avalanche <- sort_values "avalanche_score" avalanche_score false df;;
  snowball <- sort_values "snowball_score" snowball_score false df;;
  balanced <- sort_values "balanced_score" balanced_score false df;;
  let strategies := {|
    avalanche_method := avalanche;
    snowball_method := snowball;
    balanced_method := balanced |} in
  (* totals *)
  p <- getitem "principal" (principal df);;
  let total_debt := series_sum p in
  m <- getitem "monthly_interest" (monthly_interest df);;
  let total_monthly_interest := series_sum m in
  (* extremal loans *)
  r <- getitem "rate" (rate df);;
  i <- idxmax "rate" r;;
  highest <- loc_name df i;;
  p <- getitem "principal" (principal df);;
  i <- idxmin "principal" p;;
  smallest <- loc_name df i;;
  m <- getitem "monthly_interest" (monthly_interest df);;
  i <- idxmax "monthly_interest" m;;
  most_expensive <- loc_name df i;;
  Ok {| strategies := strategies;
        summary := {|
          total_debt := total_debt;
          total_monthly_interest := total_monthly_interest;
          highest_interest_loan := highest;
          smallest_balance_loan := smallest;
          most_expensive_loan := most_expensive |} |}.

End Analyzer.

(** ** Implementations of [argsort] *)

(** An insertion argsort: the keys are taken in input order and each index
    is put before the first one already placed whose key is greater. *)
Fixpoint insert_index (ks : Series) (i : nat) (sorted : list nat) : list nat :=
  match sorted with
  | [] => [i]
  | j :: rest =>
      if F64.ltb (nth i ks F64.nan) (nth j ks F64.nan)
      then i :: j :: rest
      else j :: insert_index ks i rest
  end.

Definition argsort_insertion (ks : Series) : list nat :=
  fold_left (fun sorted i => insert_index ks i sorted) (seq 0 (List.length ks)) [].

(** numpy's reference (non-vectorised) [aquicksort] for float64, the
    routine behind [argsort(kind='quicksort')]: an introsort on the array of
    indices.  Ranges of more than 17 indices are partitioned around the
    median of three, shorter ones are sorted by insertion, and a range that
    is reached after too many partitions is sorted by heapsort.  The explicit
    stack of the C code is the recursion here: the ranges are disjoint, so the
    order in which they are processed does not matter. *)
Module Npysort.

Definition LT (a b : f64) : bool :=
  F64.ltb a b || (F64.isnan b && negb (F64.isnan a)).

Definition get (a : list nat) (p : nat) : nat := nth p a 0.

Fixpoint set (a : list nat) (p x : nat) : list nat :=
  match a, p with
  | [], _ => []
  | _ :: t, O => x :: t
  | h :: t, S p' => h :: set t p' x
  end.

Definition swap (a : list nat) (p q : nat) : list nat :=
  let x := get a p in
  let y := get a q in
  set (set a p y) q x.

Section Keys.

Variable v : Series.

Definition key (i : nat) : f64 := nth i v F64.nan.

(** [LT(v[*p], v[*q])] *)
Definition lt_at (a : list nat) (p q : nat) : bool :=
  LT (key (get a p)) (key (get a q)).

(** [while (pj > pl && LT(vp, v[*pk])) { *pj-- = *pk--; } *pj = vi;] *)
Fixpoint shift (fuel : nat) (a : list nat) (pl pj vi : nat) : list nat :=
  match fuel with
  | O => set a pj vi
  | S fuel' =>
      if (pl <? pj) && LT (key vi) (key (get a (pj - 1)))
      then shift fuel' (set a pj (get a (pj - 1))) pl (pj - 1) vi
      else set a pj vi
  end.

Fixpoint insertion_loop (count : nat) (a : list nat) (pl pi : nat) : list nat :=
  match count with
  | O => a
  | S count' => insertion_loop count' (shift pi a pl pi (get a pi)) pl (S pi)
  end.

Definition insertion (a : list nat) (pl pr : nat) : list nat :=
  insertion_loop (pr - pl) a pl (S pl).

(** The sift loop of [aheapsort_]; positions are counted from 1 within
    the range that starts at [pl]. *)
Fixpoint sift (fuel : nat) (a : list nat) (pl n tmp i j : nat) : list nat :=
  match fuel with
  | O => set a (pl + i - 1) tmp
  | S fuel' =>
      if j <=? n then
        let j := if (j <? n) && lt_at a (pl + j - 1) (pl + j) then S j else j in
        if LT (key tmp) (key (get a (pl + j - 1)))
        then sift fuel' (set a (pl + i - 1) (get a (pl + j - 1))) pl n tmp j (j + j)
        else set a (pl + i - 1) tmp
      else set a (pl + i - 1) tmp
  end.

Fixpoint heapify (l : nat) (a : list nat) (pl n : nat) : list nat :=
  match l with
  | O => a
  | S l' => heapify l' (sift n a pl n (get a (pl + l - 1)) l (l + l)) pl n
  end.

Fixpoint extract (n : nat) (a : list nat) (pl : nat) : list nat :=
  match n with
  | S (S _ as n') =>
      let tmp := get a (pl + n - 1) in
      let a := set a (pl + n - 1) (get a pl) in
      extract n' (sift n' a pl n' tmp 1 2) pl
  | _ => a
  end.

Definition aheapsort (a : list nat) (pl n : nat) : list nat :=
  extract n (heapify (n / 2) a pl n) pl.

Definition median3 (a : list nat) (pl pm pr : nat) : list nat :=
  let a := if lt_at a pm pl then swap a pm pl else a in
  let a := if lt_at a pr pm then swap a pr pm else a in
  if lt_at a pm pl then swap a pm pl else a.

(** [do { ++pi; } while (LT(v[*pi], vp));] *)
Fixpoint scan_up (fuel : nat) (a : list nat) (vp : f64) (pi : nat) : nat :=
  match fuel with
  | O => pi
  | S fuel' =>
      let pi := S pi in
      if LT (key (get a pi)) vp then scan_up fuel' a vp pi else pi
  end.

(** [do { --pj; } while (LT(vp, v[*pj]));] *)
Fixpoint scan_down (fuel : nat) (a : list nat) (vp : f64) (pj : nat) : nat :=
  match fuel with
  | O => pj
  | S fuel' =>
      let pj := pj - 1 in
      if LT vp (key (get a pj)) then scan_down fuel' a vp pj else pj
  end.

Fixpoint exchange (fuel : nat) (a : list nat) (vp : f64) (pi pj : nat)
    : list nat * nat :=
  match fuel with
  | O => (a, pi)
  | S fuel' =>
      let pi := scan_up (List.length a) a vp pi in
      let pj := scan_down (List.length a) a vp pj in
      if pj <=? pi then (a, pi)
      else exchange fuel' (swap a pi pj) vp pi pj
  end.

Definition partition (a : list nat) (pl pr : nat) : list nat * nat :=
  let pm := pl + (pr - pl) / 2 in
  let a := median3 a pl pm pr in
  let vp := key (get a pm) in
  let a := swap a pm (pr - 1) in
  let '(a, pi) := exchange (List.length a) a vp pl (pr - 1) in
  (swap a pi (pr - 1), pi).

Fixpoint sort_range (fuel : nat) (a : list nat) (pl pr : nat) (cdepth : Z)
    {struct fuel} : list nat :=
  match fuel with
  | O => a
  | S fuel' =>
      if (cdepth <? 0)%Z then aheapsort a pl (pr - pl + 1)
      else partition_loop fuel' a pl pr cdepth
  end
with partition_loop (fuel : nat) (a : list nat) (pl pr : nat) (cdepth : Z)
    {struct fuel} : list nat :=
  match fuel with
  | O => a
  | S fuel' =>
      if 16 <? pr - pl then
        let '(a, pi) := partition a pl pr in
        let cdepth := (cdepth - 1)%Z in
        if pi - pl <? pr - pi then
          let a := partition_loop fuel' a pl (pi - 1) cdepth in
          sort_range fuel' a (pi + 1) pr cdepth
        else
          let a := partition_loop fuel' a (pi + 1) pr cdepth in
          sort_range fuel' a pl (pi - 1) cdepth
      else insertion a pl pr
  end.

End Keys.

Definition aquicksort (v : Series) : list nat :=
  let num := List.length v in
  sort_range v (2 * num + 2) (seq 0 num) 0 (num - 1)
    (2 * Z.of_nat (Nat.log2 num)).

End Npysort.

(** ** The loans of the script *)

Definition current_loans : list Loan.t := [
  loan "AE" (F64.of_Z 0) (F64.dec 680 100) (F64.of_Z 0);
  loan "AA" (F64.dec 79058 100) (F64.dec 560 100) (F64.dec 862 100);
  loan "AB" (F64.dec 79054 100) (F64.dec 560 100) (F64.dec 862 100);
  loan "AI" (F64.of_Z 4500) (F64.dec 505 100) (F64.dec 4784 100);
  loan "AJ" (F64.dec 639697 100) (F64.dec 505 100) (F64.dec 6961 100);
  loan "AK" (F64.of_Z 5500) (F64.dec 453 100) (F64.dec 5708 100);
  loan "AL" (F64.dec 712142 100) (F64.dec 453 100) (F64.dec 7555 100);
  loan "AC" (F64.of_Z 960) (F64.dec 450 100) (F64.dec 995 100);
  loan "AF" (F64.of_Z 3500) (F64.dec 445 100) (F64.dec 3619 100);
  loan "AG" (F64.dec 662073 100) (F64.dec 445 100) (F64.dec 6983 100);
  loan "AH" (F64.of_Z 1000) (F64.dec 445 100) (F64.dec 1034 100);
  loan "AM" (F64.of_Z 5500) (F64.dec 275 100) (F64.dec 5248 100);
  loan "AN" (F64.of_Z 7000) (F64.dec 275 100) (F64.dec 6770 100);
  loan "State-1" (F64.of_Z 4420) (F64.dec 799 100) (F64.dec 7807 100);
  loan "State-2" (F64.of_Z 3601) (F64.dec 630 100) (F64.dec 3821 100)
].

(** ** What is assumed of the library routines *)

Definition no_nan (ks : Series) : Prop :=
  Forall (fun k => F64.isnan k = false) ks.

(** [numpy.argsort]: the indices that sort the keys in ascending order.
    pandas calls it on keys without NaN. *)
Definition argsort_sorts (argsort : Series -> list nat) : Prop :=
  forall ks, no_nan ks ->
    Permutation (argsort ks) (seq 0 (List.length ks)) /\
    forall p q, p < q < List.length ks ->
      F64.leb (nth (nth p (argsort ks) 0) ks F64.nan)
              (nth (nth q (argsort ks) 0) ks F64.nan) = true.

(** A stable [argsort] keeps equal keys in their order; the default
    [kind='quicksort'] does not promise it. *)
Definition argsort_stable (argsort : Series -> list nat) : Prop :=
  forall ks, no_nan ks ->
    forall p q, p < q < List.length ks ->
      F64.eqb (nth (nth p (argsort ks) 0) ks F64.nan)
              (nth (nth q (argsort ks) 0) ks F64.nan) = true ->
      nth p (argsort ks) 0 < nth q (argsort ks) 0.

(** ** Well-formed loans *)

(** A finite binary64 number. *)
Definition number (x : f64) : bool :=
  valid_binary F64.prec F64.emax x && F64.isfinite x.

(** The logarithm of a positive number is finite. *)
Definition log_finite (log_pos : f64 -> f64) : Prop :=
  forall x, number x = true -> F64.ltb F64.zero x = true ->
    F64.isfinite (log_pos x) = true.

Definition is_number (o : option f64) : bool :=
  match o with Some x => number x | None => false end.

(** The loan has a name and its principal and rate are numbers. *)
Definition well_formed (l : Loan.t) : bool :=
  is_some (Loan.name l) && is_number (Loan.principal l) && is_number (Loan.rate l).

(** The cells of a loan, as the frame holds them. *)
Definition principal_of (l : Loan.t) : f64 := num_cell (Loan.principal l).
Definition rate_of (l : Loan.t) : f64 := num_cell (Loan.rate l).

(** The interest of a month, before it is rounded. *)
Definition accrual_of (l : Loan.t) : f64 :=
  F64.div (F64.mul (principal_of l) (F64.div (rate_of l) (F64.of_Z 100)))
          (F64.of_Z 12).

(** The derived fields of one loan, from its own cells. *)
Definition monthly_interest_of (l : Loan.t) : f64 := round2 (accrual_of l).

Definition interest_principal_ratio_of (l : Loan.t) : f64 :=
  F64.div (F64.div (rate_of l) (F64.of_Z 100)) (principal_of l).

Definition avalanche_score_of (l : Loan.t) : f64 := rate_of l.

Definition snowball_score_of (l : Loan.t) : f64 := F64.neg (principal_of l).

Definition balanced_score_of (log_pos : f64 -> f64) (l : Loan.t) : f64 :=
  F64.mul (rate_of l) (F64.log log_pos (principal_of l)).

(** ** Properties of a ranking *)

(** The cells of a column of a frame ([[]] when the frame has no such column). *)
Definition cells {A : Type} (col : option (list A)) : list A :=
  match col with Some c => c | None => [] end.

Definition non_increasing (s : Series) : Prop :=
  forall i j, i < j < List.length s ->
    F64.leb (nth j s F64.nan) (nth i s F64.nan) = true.

Definition non_decreasing (s : Series) : Prop :=
  forall i j, i < j < List.length s ->
    F64.leb (nth i s F64.nan) (nth j s F64.nan) = true.

(** Rows with identical score are in the order of their labels, that is in
    input order. *)
Definition stable_ranking (labels : list nat) (scores : Series) : Prop :=
  forall i j, i < j < List.length labels ->
    F64.same (nth i scores F64.nan) (nth j scores F64.nan) = true ->
    nth i labels 0 < nth j labels 0.

(** The frame of [loans] with its derived columns, each cell computed from
    the loan of its row. *)
Definition frame_of (log_pos : f64 -> f64) (loans : list Loan.t) : DataFrame := {|
  index := seq 0 (List.length loans);
  name := column Loan.name (fun c => c) loans;
  principal := Some (map principal_of loans);
  rate := Some (map rate_of loans);
  min_payment := column Loan.min_payment num_cell loans;
  monthly_interest := Some (map monthly_interest_of loans);
  interest_principal_ratio := Some (map interest_principal_ratio_of loans);
  avalanche_score := Some (map avalanche_score_of loans);
  snowball_score := Some (map snowball_score_of loans);
  balanced_score := Some (map (balanced_score_of log_pos) loans)
|}.

(** An exception that is the failure of a lookup in the frame. *)
Definition lookup_failure (e : exn) : bool :=
  match e with
  | KeyError _ => true
  | NoValidIndex _ => true
  end.

(** Some loan has the key. *)
Definition has {A : Type} (get : Loan.t -> option A) (loans : list Loan.t) : bool :=
  existsb (fun l => is_some (get l)) loans.

(** The dict without any key: its cells are all NaN. *)
Definition no_loan : Loan.t := Loan.make None None None None.

(** The loan in row [j] of a ranking whose labels are [idx]. *)
Definition row_loan (loans : list Loan.t) (idx : list nat) (j : nat) : Loan.t :=
  nth (nth j idx 0) loans no_loan.

Definition rankings (a : Analysis) : list DataFrame :=
  [ avalanche_method (strategies a);
    snowball_method (strategies a);
    balanced_method (strategies a) ].

Fixpoint descending (s : Series) : bool :=
  match s with
  | [] => true
  | x :: rest => forallb (fun y => F64.leb y x) rest && descending rest
  end.

(** The derived fields of row [j] of a frame, and those of a loan. *)
Definition derived_row (df : DataFrame) (j : nat) : f64 * f64 * f64 * f64 * f64 :=
  (nth j (cells (monthly_interest df)) F64.nan,
   nth j (cells (interest_principal_ratio df)) F64.nan,
   nth j (cells (avalanche_score df)) F64.nan,
   nth j (cells (snowball_score df)) F64.nan,
   nth j (cells (balanced_score df)) F64.nan).

Definition derived_of (log_pos : f64 -> f64) (l : Loan.t) : f64 * f64 * f64 * f64 * f64 :=
  (monthly_interest_of l, interest_principal_ratio_of l, avalanche_score_of l,
   snowball_score_of l, balanced_score_of log_pos l).

(** Row [i] is the first one where [f] is greatest (smallest). *)
Definition first_max (f : Loan.t -> f64) (loans : list Loan.t) (i : nat) : Prop :=
  i < List.length loans /\
  (forall j, j < List.length loans ->
     F64.leb (f (nth j loans no_loan)) (f (nth i loans no_loan)) = true) /\
  (forall j, j < i ->
     F64.ltb (f (nth j loans no_loan)) (f (nth i loans no_loan)) = true).

Definition first_min (f : Loan.t -> f64) (loans : list Loan.t) (i : nat) : Prop :=
  i < List.length loans /\
  (forall j, j < List.length loans ->
     F64.leb (f (nth i loans no_loan)) (f (nth j loans no_loan)) = true) /\
  (forall j, j < i ->
     F64.ltb (f (nth i loans no_loan)) (f (nth j loans no_loan)) = true).

(** [n] is the integer nearest to [m / 2^k], the even one of the two when
    [m / 2^k] is half way between them. *)
Definition nearest_even (n m k : Z) : Prop :=
  (2 * Z.abs (n * 2 ^ k - m) <= 2 ^ k)%Z /\
  ((2 * Z.abs (n * 2 ^ k - m) = 2 ^ k)%Z -> Z.even n = true).

(** ** The rows of a ranking, as pairs of label and score *)

Definition keyed (items : Series) : list (nat * f64) :=
  combine (seq 0 (List.length items)) items.

Definition ranked (argsort : Series -> list nat) (items : Series) : list (nat * f64) :=
  let non_nan := rev (filter (fun p => negb (F64.isnan (snd p))) (keyed items)) in
  rev (take (0, F64.nan) (argsort (map snd non_nan)) non_nan)
  ++ filter (fun p => F64.isnan (snd p)) (keyed items).

(** ** Inputs of the examples *)

(** Eighteen loans with the same rate and the same balance. *)
Definition same_rate (name : string) : Loan.t :=
  loan name (F64.of_Z 1000) (F64.of_Z 5) (F64.of_Z 10).

Definition tie_loans : list Loan.t :=
  map same_rate
    [ "L01"; "L02"; "L03"; "L04"; "L05"; "L06"; "L07"; "L08"; "L09";
      "L10"; "L11"; "L12"; "L13"; "L14"; "L15"; "L16"; "L17"; "L18" ]%string.

(** The three loans of the scenario that the specification gives. *)
Definition scenario : list Loan.t :=
  [ loan "A" (F64.of_Z 1000) (F64.of_Z 10) (F64.of_Z 20);
    loan "B" (F64.of_Z 500) (F64.of_Z 5) (F64.of_Z 10);
    loan "C" (F64.of_Z 2000) (F64.of_Z 10) (F64.of_Z 40) ].

(** Two loans whose interest is 0.004 a month each. *)
Definition small_loans : list Loan.t :=
  [ loan "X" (F64.dec 48 100) (F64.of_Z 10) (F64.of_Z 0);
    loan "Y" (F64.dec 48 100) (F64.of_Z 10) (F64.of_Z 0) ].

(** A complete dict and one without the keys [rate] and [min_payment]. *)
Definition partial_loans : list Loan.t :=
  [ loan "A" (F64.of_Z 1000) (F64.of_Z 10) (F64.of_Z 20);
    Loan.make (Some "B"%string) (Some (F64.of_Z 500)) None None ].

(** ** The properties of the report *)

(** In each ranking, rows of identical score are in input order. *)
Definition stable_rankings (a : Analysis) : Prop :=
  stable_ranking (index (avalanche_method (strategies a)))
                 (cells (avalanche_score (avalanche_method (strategies a)))) /\
  stable_ranking (index (snowball_method (strategies a)))
                 (cells (snowball_score (snowball_method (strategies a)))) /\
  stable_ranking (index (balanced_method (strategies a)))
                 (cells (balanced_score (balanced_method (strategies a)))).

(** The avalanche ranking does not increase in rate, the snowball ranking
    does not decrease in principal (does not increase in its opposite), and
    the balanced ranking does not increase in [rate * log(principal)] over
    the rows of positive principal. *)
Definition sorted_rankings (log_pos : f64 -> f64) (a : Analysis) : Prop :=
  non_increasing (cells (rate (avalanche_method (strategies a)))) /\
  non_decreasing (cells (principal (snowball_method (strategies a)))) /\
  non_increasing (map F64.neg (cells (principal (snowball_method (strategies a))))) /\
  let P := cells (principal (balanced_method (strategies a))) in
  let R := cells (rate (balanced_method (strategies a))) in
  forall i j, i < j < List.length P ->
    F64.ltb F64.zero (nth i P F64.nan) = true ->
    F64.ltb F64.zero (nth j P F64.nan) = true ->
    F64.leb (F64.mul (nth j R F64.nan) (F64.log log_pos (nth j P F64.nan)))
            (F64.mul (nth i R F64.nan) (F64.log log_pos (nth i P F64.nan))) = true.

(** Each ranking holds the rows of the frame of the loans, each once: its
    labels are a permutation of the input positions, its rows are the rows
    of those labels, and its names are the names of the input. *)
Definition permuted_rankings (log_pos : f64 -> f64) (loans : list Loan.t)
    (a : Analysis) : Prop :=
  Forall (fun s =>
            Permutation (index s) (seq 0 (List.length loans)) /\
            s = df_take (index s) (frame_of log_pos loans) /\
            Permutation (cells (name s)) (map Loan.name loans))
         (rankings a).

(** The loan [z] at position [k] has a ratio that is not finite and, when
    its rate is not zero, a balanced score that is not finite; it is in
    every ranking; and the derived fields of every row are those of the
    loan of that row alone. *)
Definition zero_principal_row (log_pos : f64 -> f64) (loans : list Loan.t)
    (k : nat) (z : Loan.t) (a : Analysis) : Prop :=
  F64.isfinite (interest_principal_ratio_of z) = false /\
  (F64.is_zero (rate_of z) = false ->
   F64.isfinite (balanced_score_of log_pos z) = false) /\
  Forall (fun s => In k (index s) /\
                   s = df_take (index s) (frame_of log_pos loans))
         (rankings a) /\
  forall j x, nth_error loans j = Some x ->
    derived_row (frame_of log_pos loans) j = derived_of log_pos x.

(** The totals are the sums of the principal column and of the column of
    rounded monthly interests. *)
Definition column_sums (loans : list Loan.t) (a : Analysis) : Prop :=
  total_debt (summary a) = series_sum (map principal_of loans) /\
  total_monthly_interest (summary a) =
    series_sum (map (fun l => round2 (accrual_of l)) loans).

(** Summing rounded interests is not rounding their sum. *)
Definition rounding_before_summing_matters : Prop :=
  F64.eqb (series_sum (map (fun l => round2 (accrual_of l)) small_loans))
          (round2 (series_sum (map accrual_of small_loans))) = false.

(** The three names of the summary are those of the first loan of greatest
    rate, of smallest principal and of greatest monthly interest. *)
Definition extremal_names (loans : list Loan.t) (a : Analysis) : Prop :=
  exists i_rate i_principal i_interest,
    first_max rate_of loans i_rate /\
    highest_interest_loan (summary a) = Loan.name (nth i_rate loans no_loan) /\
    first_min principal_of loans i_principal /\
    smallest_balance_loan (summary a) = Loan.name (nth i_principal loans no_loan) /\
    first_max monthly_interest_of loans i_interest /\
    most_expensive_loan (summary a) = Loan.name (nth i_interest loans no_loan).

(** In every row of every ranking the monthly interest is
    [principal * (rate / 100) / 12] rounded by [round2]. *)
Definition rounded_interest (a : Analysis) : Prop :=
  Forall (fun s => forall j, j < List.length (index s) ->
            nth j (cells (monthly_interest s)) F64.nan =
            round2 (F64.div
                      (F64.mul (nth j (cells (principal s)) F64.nan)
                               (F64.div (nth j (cells (rate s)) F64.nan) (F64.of_Z 100)))
                      (F64.of_Z 12)))
         (rankings a).

(** [round2] scales by 100, rounds with [rint] and scales back, and [rint]
    rounds to the nearest integer, to the even one on a tie. *)
Definition rounds_half_even : Prop :=
  (forall x, round2 x = F64.div (F64.rint (F64.mul x (F64.of_Z 100))) (F64.of_Z 100)) /\
  (forall s m e, (e < 0)%Z ->
     let n := F64.round_half_even (Zpos m) (- e) in
     nearest_even n (Zpos m) (- e) /\
     F64.rint (S754_finite s m e) =
       if (n =? 0)%Z then S754_zero s
       else binary_normalize F64.prec F64.emax (if s then (- n)%Z else n) 0 s).

(** In the balanced ranking a row of principal zero and rate at least zero
    has the score minus infinity (rate above zero) or NaN (rate zero), and
    comes after every row of positive principal and finite score. *)
Definition zero_principal_last (a : Analysis) : Prop :=
  let P := cells (principal (balanced_method (strategies a))) in
  let R := cells (rate (balanced_method (strategies a))) in
  let S := cells (balanced_score (balanced_method (strategies a))) in
  forall z, z < List.length P ->
    F64.is_zero (nth z P F64.nan) = true ->
    F64.leb F64.zero (nth z R F64.nan) = true ->
    (F64.ltb F64.zero (nth z R F64.nan) = true -> nth z S F64.nan = F64.neg_inf) /\
    (F64.is_zero (nth z R F64.nan) = true -> F64.isnan (nth z S F64.nan) = true) /\
    forall j, j < List.length P ->
      F64.ltb F64.zero (nth j P F64.nan) = true ->
      F64.isfinite (nth j S F64.nan) = true ->
      j < z.

(** In every ranking, the cell of a key that the loan of the row does not
    have is NaN, for [min_payment] as for the others. *)
Definition missing_cells_are_nan (loans : list Loan.t) (a : Analysis) : Prop :=
  Forall (fun s => forall j, j < List.length loans ->
            let l := row_loan loans (index s) j in
            nth j (cells (name s)) None = Loan.name l /\
            (Loan.principal l = None ->
             F64.isnan (nth j (cells (principal s)) F64.nan) = true) /\
            (Loan.rate l = None ->
             F64.isnan (nth j (cells (rate s)) F64.nan) = true) /\
            (Loan.min_payment l = None ->
             F64.isnan (nth j (cells (min_payment s)) F64.nan) = true))
         (rankings a).

(** ** When the analysis returns, and what the summary depends on *)

(** The conditions under which the analysis returns: the three columns it
    looks up are there, and each column it takes an extremum of has a cell
    that is not NaN. *)
Definition analyzable (loans : list Loan.t) : bool :=
  has Loan.principal loans && has Loan.rate loans && has Loan.name loans &&
  negb (forallb F64.isnan (map rate_of loans)) &&
  negb (forallb F64.isnan (map principal_of loans)) &&
  negb (forallb F64.isnan (map monthly_interest_of loans)).

(** The summary of a report, or the exception raised instead. *)
Definition summary_of (r : result Analysis) : result Summary :=
  match r with
  | Ok a => Ok (summary a)
  | Raise e => Raise e
  end.

(** The loan without its [min_payment] key. *)
Definition without_min_payment (l : Loan.t) : Loan.t :=
  Loan.make (Loan.name l) (Loan.principal l) (Loan.rate l) None.

(** Loans without any name: the analysis raises [KeyError('name')]. *)
Definition nameless_loans : list Loan.t :=
  [ Loan.make None (Some (F64.of_Z 1000)) (Some (F64.of_Z 10)) (Some (F64.of_Z 20)) ].

(** ** Further properties of the rankings *)

(** Rows whose score is NaN are at the end of a ranking, in input order. *)
Definition nan_last_in_input_order (labels : list nat) (scores : Series) : Prop :=
  forall i j, i < j < List.length labels ->
    F64.isnan (nth i scores F64.nan) = true ->
    F64.isnan (nth j scores F64.nan) = true /\ nth i labels 0 < nth j labels 0.

Definition nan_rows_last (a : Analysis) : Prop :=
  nan_last_in_input_order (index (avalanche_method (strategies a)))
                          (cells (avalanche_score (avalanche_method (strategies a)))) /\
  nan_last_in_input_order (index (snowball_method (strategies a)))
                          (cells (snowball_score (snowball_method (strategies a)))) /\
  nan_last_in_input_order (index (balanced_method (strategies a)))
                          (cells (balanced_score (balanced_method (strategies a)))).

(** In the balanced ranking a row of negative principal has the score NaN
    and comes after every row whose score is not NaN. *)
Definition negative_principal_last (a : Analysis) : Prop :=
  let P := cells (principal (balanced_method (strategies a))) in
  let S := cells (balanced_score (balanced_method (strategies a))) in
  forall z, z < List.length P ->
    F64.ltb (nth z P F64.nan) F64.zero = true ->
    F64.isnan (nth z S F64.nan) = true /\
    forall j, j < List.length P -> F64.isnan (nth j S F64.nan) = false -> j < z.

(** In every ranking a row of principal zero whose rate is a number has
    the monthly interest zero. *)
Definition zero_principal_no_interest (a : Analysis) : Prop :=
  Forall (fun s => forall j, j < List.length (index s) ->
            F64.is_zero (nth j (cells (principal s)) F64.nan) = true ->
            number (nth j (cells (rate s)) F64.nan) = true ->
            F64.is_zero (nth j (cells (monthly_interest s)) F64.nan) = true)
         (rankings a).

(** The first row of the avalanche ranking is the loan that the summary
    names as that of highest interest, and the first row of the snowball
    ranking the one it names as that of smallest balance. *)
Definition first_rows_are_extremal (a : Analysis) : Prop :=
  nth 0 (cells (name (avalanche_method (strategies a)))) None
    = highest_interest_loan (summary a) /\
  nth 0 (cells (name (snowball_method (strategies a)))) None
    = smallest_balance_loan (summary a).

(** A loan of negative balance between two ordinary ones. *)
Definition overpaid_loans : list Loan.t :=
  [ loan "A" (F64.of_Z 1000) (F64.of_Z 10) (F64.of_Z 20);
    loan "B" (F64.of_Z (-50)) (F64.of_Z 5) (F64.of_Z 10);
    loan "C" (F64.of_Z 2000) (F64.of_Z 10) (F64.of_Z 40) ].

(** ** Extremal lookups over columns with missing cells *)

(** A cell that is a finite number or NaN (the missing value). *)
Definition finite_or_missing (x : f64) : bool := F64.isfinite x || F64.isnan x.

(** Row [i] is the first one where [f] is greatest (smallest) among the
    rows where [f] is not NaN. *)
Definition first_max_present (f : Loan.t -> f64) (loans : list Loan.t) (i : nat) : Prop :=
  i < List.length loans /\
  F64.isnan (f (nth i loans no_loan)) = false /\
  (forall j, j < List.length loans ->
     F64.isnan (f (nth j loans no_loan)) = false ->
     F64.leb (f (nth j loans no_loan)) (f (nth i loans no_loan)) = true) /\
  (forall j, j < i ->
     F64.isnan (f (nth j loans no_loan)) = true \/
     F64.ltb (f (nth j loans no_loan)) (f (nth i loans no_loan)) = true).

Definition first_min_present (f : Loan.t -> f64) (loans : list Loan.t) (i : nat) : Prop :=
  i < List.length loans /\
  F64.isnan (f (nth i loans no_loan)) = false /\
  (forall j, j < List.length loans ->
     F64.isnan (f (nth j loans no_loan)) = false ->
     F64.leb (f (nth i loans no_loan)) (f (nth j loans no_loan)) = true) /\
  (forall j, j < i ->
     F64.isnan (f (nth j loans no_loan)) = true \/
     F64.ltb (f (nth i loans no_loan)) (f (nth j loans no_loan)) = true).

(** The three names of the summary are those of the first loan of greatest
    rate, of smallest principal and of greatest monthly interest among the
    loans that have such a cell. *)
Definition extremal_names_among_present (loans : list Loan.t) (a : Analysis) : Prop :=
  exists i_rate i_principal i_interest,
    first_max_present rate_of loans i_rate /\
    highest_interest_loan (summary a) = Loan.name (nth i_rate loans no_loan) /\
    first_min_present principal_of loans i_principal /\
    smallest_balance_loan (summary a) = Loan.name (nth i_principal loans no_loan) /\
    first_max_present monthly_interest_of loans i_interest /\
    most_expensive_loan (summary a) = Loan.name (nth i_interest loans no_loan).

(** No cell of the three columns the summary looks at is an infinity. *)
Definition no_infinite_cell (l : Loan.t) : bool :=
  finite_or_missing (rate_of l) && finite_or_missing (principal_of l) &&
  finite_or_missing (monthly_interest_of l).

(** Dicts with and without [rate] and [principal]. *)
Definition gappy_loans : list Loan.t :=
  [ Loan.make (Some "A"%string) None (Some (F64.of_Z 12)) None;
    Loan.make (Some "B"%string) (Some (F64.of_Z 500)) None None;
    loan "C" (F64.of_Z 2000) (F64.of_Z 10) (F64.of_Z 40);
    loan "D" (F64.of_Z 300) (F64.of_Z 12) (F64.of_Z 40) ].

(** ** The printed report

    Python's formatting of a float with the format specifications [,.2f]
    and [.2f]: the exact value of the float rounded to two decimals, ties
    to even, with a comma between groups of three digits of the integer
    part for [,.2f]. *)
Module Format.

Definition nl : string := String "010"%char EmptyString.

(** [str.upper], on ASCII letters. *)
Definition upper_ascii (c : ascii) : ascii :=
  let n := nat_of_ascii c in
  if (97 <=? n) && (n <=? 122) then ascii_of_nat (n - 32) else c.

Fixpoint upper (s : string) : string :=
  match s with
  | EmptyString => EmptyString
  | String c s' => String (upper_ascii c) (upper s')
  end.

(** The decimal digits of a natural number. *)
Definition digits (n : Z) : string := NilZero.string_of_uint (N.to_uint (Z.to_N n)).

(** A comma after every third digit, on the reversed digits. *)
Fixpoint group_rev (ds : list ascii) : list ascii :=
  match ds with
  | a :: b :: c :: rest =>
      match rest with
      | [] => ds
      | _ :: _ => a :: b :: c :: ","%char :: group_rev rest
      end
  | _ => ds
  end.

Definition group (s : string) : string :=
  string_of_list_ascii (rev (group_rev (rev (list_ascii_of_string s)))).

Definition sign (s : bool) : string := if s then "-"%string else EmptyString.

(** The number of cents nearest to [m * 2^e], ties to even. *)
Definition cents (m : positive) (e : Z) : Z :=
  if (0 <=? e)%Z then (Zpos m * 2 ^ e * 100)%Z
  else F64.round_half_even (Zpos m * 100) (- e).

Definition two_digits (n : Z) : string :=
  if (n <? 10)%Z then String.append "0" (digits n) else digits n.

(** [format(x, ',.2f')] when [comma], [format(x, '.2f')] otherwise. *)
Definition f2 (comma : bool) (x : f64) : string :=
  match x with
  | S754_nan => "nan"%string
  | S754_infinity s => String.append (sign s) "inf"
  | S754_zero s => String.append (sign s) "0.00"
  | S754_finite s m e =>
      let n := cents m e in
      let units := digits (n / 100) in
      String.concat EmptyString
        [ sign s; if comma then group units else units; "."%string;
          two_digits (n mod 100) ]
  end.

(** [str(x)] of a name cell: the name, or [nan] for a missing one. *)
Definition name_str (o : option string) : string :=
  match o with Some s => s | None => "nan"%string end.

End Format.

(** The calls of [print] of the script, in order, each with the text it is
    given or the exception that the evaluation of its f-string raises. *)
Section Printer.

(** [str(x)] of a Python float, its shortest representation. *)
Variable float_str : f64 -> string.

Definition summary_prints (s : Summary) : list (result string) :=
  [ Ok (String.append Format.nl "LOAN SUMMARY:");
    Ok (String.append "Total Debt: $" (Format.f2 true (total_debt s)));
    Ok (String.append "Total Monthly Interest: $"
          (Format.f2 true (total_monthly_interest s)));
    Ok (String.append "Highest Interest Loan: "
          (Format.name_str (highest_interest_loan s)));
    Ok (String.append "Smallest Balance Loan: "
          (Format.name_str (smallest_balance_loan s)));
    Ok (String.append "Most Expensive Loan: "
          (Format.name_str (most_expensive_loan s))) ].

(** The line of row [j]: [row['name']], [row['principal']], [row['rate']]
    and [row['min_payment']] are looked up in this order. *)
Definition row_print (df : DataFrame) (j : nat) : result string :=
  n <- getitem "name" (name df);;
  p <- getitem "principal" (principal df);;
  r <- getitem "rate" (rate df);;
  m <- getitem "min_payment" (min_payment df);;
  Ok (String.concat EmptyString
        [ Format.name_str (nth j n None); ": $"%string;
          Format.f2 true (nth j p F64.nan); " at "%string;
          float_str (nth j r F64.nan); "% (Monthly Payment: $"%string;
          Format.f2 false (nth j m F64.nan); ")"%string ]).

(** [df.iterrows()]: the rows by position. *)
Definition iterrows (df : DataFrame) : list nat := seq 0 (List.length (index df)).

(** [result['strategies'].items()], in the order of the dict. *)
Definition items (s : Strategies) : list (string * DataFrame) :=
  [ ("avalanche_method"%string, avalanche_method s);
    ("snowball_method"%string, snowball_method s);
    ("balanced_method"%string, balanced_method s) ].

Definition strategy_prints (item : string * DataFrame) : list (result string) :=
  Ok (String.concat EmptyString
        [ Format.nl; Format.upper (fst item); " Priority Order:"%string ])
  :: map (row_print (snd item)) (iterrows (snd item)).

Definition report_prints (a : Analysis) : list (result string) :=
  summary_prints (summary a) ++ flat_map strategy_prints (items (strategies a)).

(** The lines printed, and the exception that ends the run, if any. *)
Fixpoint run_prints (prints : list (result string)) : list string * option exn :=
  match prints with
  | [] => ([], None)
  | Ok line :: rest =>
      let '(out, e) := run_prints rest in (line :: out, e)
  | Raise e :: _ => ([], Some e)
  end.

Definition print_report (a : Analysis) : list string * option exn :=
  run_prints (report_prints a).

End Printer.

(** The script: the analysis of its loans, then the report. *)
Definition script (log_pos : f64 -> f64) (argsort : Series -> list nat)
    (float_str : f64 -> string) : list string * option exn :=
  match analyze_loan_payoff_strategy log_pos argsort current_loans with
  | Ok result => print_report float_str result
  | Raise e => ([], Some e)
  end.

(** The report is complete: nothing is raised, there is a header and one
    line per loan for each strategy after the six lines of the summary,
    and line [j] of a strategy starts with the name in row [j] of its
    ranking. *)
Definition complete_report (n : nat) (a : Analysis) (out : list string * option exn)
    : Prop :=
  snd out = None /\
  List.length (fst out) = 6 + 3 * (1 + n) /\
  forall k s, nth_error (rankings a) k = Some s ->
    forall j, j < n ->
      String.prefix
        (String.append (Format.name_str (nth j (cells (name s)) None)) ": $")
        (nth (6 + k * (1 + n) + 1 + j) (fst out) EmptyString) = true.

(** The report stops in the first row of the first strategy. *)
Definition report_stops_at_first_row (out : list string * option exn) : Prop :=
  snd out = Some (KeyError "min_payment") /\
  List.length (fst out) = 7 /\
  nth 6 (fst out) EmptyString
    = String.append Format.nl "AVALANCHE_METHOD Priority Order:".

(** The loans of the script without their [min_payment]. *)
Definition unpayable_loans : list Loan.t := map without_min_payment current_loans.

(** ** Rankings without ties *)

(** An argsort that puts equal keys in the reverse of their order: the
    insertion argsort of the reversed keys, with the positions mapped
    back. *)
Definition argsort_reversed (ks : Series) : list nat :=
  map (fun i => List.length ks - 1 - i) (argsort_insertion (rev ks)).

(** No two scores of the column are equal (NaN apart). *)
Definition no_ties (s : Series) : Prop :=
  forall i j, i < j < List.length s ->
    F64.isnan (nth i s F64.nan) = false ->
    F64.isnan (nth j s F64.nan) = false ->
    F64.eqb (nth i s F64.nan) (nth j s F64.nan) = false.

(** The rankings whose scores have no ties are the same in two reports. *)
Definition same_rankings_without_ties (log_pos : f64 -> f64) (loans : list Loan.t)
    (a a' : Analysis) : Prop :=
  (no_ties (map avalanche_score_of loans) ->
   avalanche_method (strategies a) = avalanche_method (strategies a')) /\
  (no_ties (map snowball_score_of loans) ->
   snowball_method (strategies a) = snowball_method (strategies a')) /\
  (no_ties (map (balanced_score_of log_pos) loans) ->
   balanced_method (strategies a) = balanced_method (strategies a')).

(** ** The signs of the totals *)

(** A cell that is at least zero, or NaN (the missing value). *)
Definition nonneg_or_missing (x : f64) : bool := F64.isnan x || F64.leb F64.zero x.

(** The balance and the rate of the loan are not negative. *)
Definition no_negative_cell (l : Loan.t) : bool :=
  nonneg_or_missing (principal_of l) && nonneg_or_missing (rate_of l).

(** The two totals are at least zero (and so are not NaN). *)
Definition nonneg_totals (a : Analysis) : Prop :=
  F64.leb F64.zero (total_debt (summary a)) = true /\
  F64.leb F64.zero (total_monthly_interest (summary a)) = true.

(** Every number of the column is at least zero. *)
Definition all_nonneg (a : Series) : Prop :=
  Forall (fun x => F64.leb F64.zero x = true) a.

(** ** A loan that is paid off *)

(** The loan at [i] is the first one of principal zero; the summary names
    it as the loan of smallest balance, and it is the first row of the
    snowball ranking. *)
Definition paid_off_loan_first (loans : list Loan.t) (a : Analysis) : Prop :=
  exists i,
    i < List.length loans /\
    F64.is_zero (principal_of (nth i loans no_loan)) = true /\
    (forall j, j < i -> F64.is_zero (principal_of (nth j loans no_loan)) = false) /\
    smallest_balance_loan (summary a) = Loan.name (nth i loans no_loan) /\
    nth 0 (index (snowball_method (strategies a))) 0 = i.

(** * Facts about binary64 *)

Module F64Facts.

Ltac cmp_cases :=
  repeat match goal with
  | |- context [Z.compare ?a ?b] => destruct (Z.compare_spec a b)
  | H : context [Z.compare ?a ?b] |- _ => destruct (Z.compare_spec a b)
  | |- context [Pos.compare_cont Eq ?a ?b] =>
      change (Pos.compare_cont Eq a b) with (Pos.compare a b);
      destruct (Pos.compare_spec a b)
  | H : context [Pos.compare_cont Eq ?a ?b] |- _ =>
      change (Pos.compare_cont Eq a b) with (Pos.compare a b) in H;
      destruct (Pos.compare_spec a b)
  end.

Ltac order_cases :=
  unfold F64.same, F64.leb, F64.ltb, F64.eqb, SFleb, SFltb, SFeqb, SFcompare in *;
  simpl in *; try congruence;
  cmp_cases; simpl in *; try congruence; try lia.

Ltac by_cases2 x y :=
  destruct x as [[]|[]| |[] ? ?], y as [[]|[]| |[] ? ?]; intros; order_cases; auto.

Lemma leb_total (x y : f64) :
  F64.isnan x = false -> F64.isnan y = false ->
  F64.leb x y = true \/ F64.leb y x = true.
Proof. by_cases2 x y. Qed.

Lemma leb_refl (x : f64) : F64.isnan x = false -> F64.leb x x = true.
Proof.
  destruct x as [[]|[]| |[] m e]; intros; order_cases.
Qed.

Lemma leb_trans (x y z : f64) :
  F64.leb x y = true -> F64.leb y z = true -> F64.leb x z = true.
Proof.
  destruct x as [[]|[]| |[] mx ex], y as [[]|[]| |[] my ey],
           z as [[]|[]| |[] mz ez];
    intros; order_cases.
Qed.

Lemma leb_not_nan (x y : f64) :
  F64.leb x y = true -> F64.isnan x = false /\ F64.isnan y = false.
Proof. by_cases2 x y. Qed.

Lemma ltb_leb (x y : f64) : F64.ltb x y = true -> F64.leb x y = true.
Proof. by_cases2 x y. Qed.

Lemma ltb_not_leb (x y : f64) : F64.ltb x y = true -> F64.leb y x = false.
Proof. by_cases2 x y. Qed.

Lemma not_leb_ltb (x y : f64) :
  F64.isnan x = false -> F64.isnan y = false ->
  F64.leb x y = false -> F64.ltb y x = true.
Proof. by_cases2 x y. Qed.

Lemma not_ltb_leb (x y : f64) :
  F64.isnan x = false -> F64.isnan y = false ->
  F64.ltb x y = false -> F64.leb y x = true.
Proof. by_cases2 x y. Qed.

Lemma leb_antisym (x y : f64) :
  F64.leb x y = true -> F64.leb y x = true -> F64.eqb x y = true.
Proof. by_cases2 x y. Qed.

Lemma eqb_leb (x y : f64) : F64.eqb x y = true -> F64.leb x y = true.
Proof. by_cases2 x y. Qed.

Lemma eqb_sym (x y : f64) : F64.eqb x y = F64.eqb y x.
Proof. by_cases2 x y. Qed.

Lemma eqb_not_ltb (x y : f64) : F64.eqb x y = true -> F64.ltb x y = false.
Proof. by_cases2 x y. Qed.

Lemma ltb_leb_trans (x y z : f64) :
  F64.ltb x y = true -> F64.leb y z = true -> F64.ltb x z = true.
Proof.
  destruct x as [[]|[]| |[] mx ex], y as [[]|[]| |[] my ey],
           z as [[]|[]| |[] mz ez];
    intros; order_cases.
Qed.

Lemma leb_ltb_trans (x y z : f64) :
  F64.leb x y = true -> F64.ltb y z = true -> F64.ltb x z = true.
Proof.
  destruct x as [[]|[]| |[] mx ex], y as [[]|[]| |[] my ey],
           z as [[]|[]| |[] mz ez];
    intros; order_cases.
Qed.

Lemma leb_neg (x y : f64) : F64.leb (F64.neg x) (F64.neg y) = F64.leb y x.
Proof. by_cases2 x y. Qed.

Lemma eqb_neg (x y : f64) : F64.eqb (F64.neg x) (F64.neg y) = F64.eqb x y.
Proof. by_cases2 x y. Qed.

Lemma isnan_neg (x : f64) : F64.isnan (F64.neg x) = F64.isnan x.
Proof. now destruct x. Qed.

Lemma same_neg (x y : f64) : F64.same (F64.neg x) (F64.neg y) = F64.same x y.
Proof. unfold F64.same. now rewrite eqb_neg, !isnan_neg. Qed.

Lemma finite_not_nan (x : f64) : F64.isfinite x = true -> F64.isnan x = false.
Proof. now destruct x. Qed.

(** Rounding a non-negative mantissa never yields NaN. *)

Lemma shr_1_nonneg (r : shr_record) : (0 <= shr_m r)%Z -> (0 <= shr_m (shr_1 r))%Z.
Proof.
  destruct r as [m b s]; simpl.
  destruct m as [|[p|p|]|p]; simpl; lia.
Qed.

Lemma iter_pos_invariant {A : Type} (P : A -> Prop) (f : A -> A) :
  (forall a, P a -> P (f a)) -> forall n a, P a -> P (iter_pos f n a).
Proof.
  intros Hf n; induction n as [n IH|n IH|]; intros a Ha; simpl; auto.
Qed.

Lemma shr_nonneg (r : shr_record) (e n : Z) :
  (0 <= shr_m r)%Z -> (0 <= shr_m (fst (shr r e n)))%Z.
Proof.
  intros H. destruct n; simpl; auto.
  apply (iter_pos_invariant (fun r => (0 <= shr_m r)%Z)); auto using shr_1_nonneg.
Qed.

Lemma shr_m_of_loc (m : Z) (l : location) : shr_m (shr_record_of_loc m l) = m.
Proof. destruct l as [|[]]; reflexivity. Qed.

Lemma shr_fexp_nonneg (m e : Z) (l : location) :
  (0 <= m)%Z -> (0 <= shr_m (fst (shr_fexp F64.prec F64.emax m e l)))%Z.
Proof.
  intros H. unfold shr_fexp. apply shr_nonneg. now rewrite shr_m_of_loc.
Qed.

Lemma round_nearest_even_nonneg (m : Z) (l : location) :
  (0 <= m)%Z -> (0 <= round_nearest_even m l)%Z.
Proof.
  intros H. destruct l as [|[]]; simpl; try lia. destruct (Z.even m); lia.
Qed.

Lemma binary_round_aux_not_nan (s : bool) (m e : Z) (l : location) :
  (0 <= m)%Z -> F64.isnan (binary_round_aux F64.prec F64.emax s m e l) = false.
Proof.
  intros H. unfold binary_round_aux.
  pose proof (shr_fexp_nonneg m e l H) as H1.
  destruct (shr_fexp F64.prec F64.emax m e l) as [r1 e1]; simpl in H1.
  pose proof (shr_fexp_nonneg _ e1 loc_Exact
                (round_nearest_even_nonneg _ (loc_of_shr_record r1) H1)) as H2.
  destruct (shr_fexp F64.prec F64.emax _ e1 loc_Exact) as [r2 e2]; simpl in H2.
  destruct (shr_m r2); try lia; try reflexivity.
  now destruct (Z.leb e2 _).
Qed.

Lemma binary_round_not_nan (s : bool) (m : positive) (e : Z) :
  F64.isnan (binary_round F64.prec F64.emax s m e) = false.
Proof.
  unfold binary_round. destruct (shl_align _ _ _) as [mz ez].
  apply binary_round_aux_not_nan. lia.
Qed.

Lemma mul_finite_not_nan (x y : f64) :
  F64.isfinite x = true -> F64.isfinite y = true ->
  F64.isnan (F64.mul x y) = false.
Proof.
  destruct x as [sx|sx| |sx mx ex], y as [sy|sy| |sy my ey];
    try discriminate; intros _ _; try reflexivity.
  apply binary_round_aux_not_nan. lia.
Qed.

(** The constants of the program. *)
Lemma hundred : F64.of_Z 100 = S754_finite false 7036874417766400 (-46).
Proof. reflexivity. Qed.

Lemma twelve : F64.of_Z 12 = S754_finite false 6755399441055744 (-49).
Proof. reflexivity. Qed.

Lemma div_finite_not_nan (x : f64) (s : bool) (m : positive) (e : Z) :
  F64.isnan x = false -> F64.isnan (F64.div x (S754_finite s m e)) = false.
Proof.
  destruct x as [sx|sx| |sx mx ex]; try discriminate; intros _; try reflexivity.
  unfold F64.div, SFdiv.
  destruct (SFdiv_core_binary _ _ _ _ _ _) as [[mz ez] lz] eqn:E.
  apply binary_round_aux_not_nan.
  unfold SFdiv_core_binary in E.
  set (m' := match _ with Z0 => _ | Zpos _ => _ | Zneg _ => _ end) in E.
  assert (0 <= m')%Z as Hm'.
  { subst m'. destruct (_ - _ - _)%Z; try lia. apply Z.shiftl_nonneg. lia. }
  pose proof (Z_div_mod m' (Zpos m) eq_refl) as Hd.
  destruct (Z.div_eucl m' (Zpos m)) as [q r]. injection E as <- _ _.
  destruct Hd as [Hd Hr]. nia.
Qed.

Lemma mul_finite_nonzero_not_nan (x : f64) (s : bool) (m : positive) (e : Z) :
  F64.isnan x = false -> F64.isnan (F64.mul x (S754_finite s m e)) = false.
Proof.
  destruct x as [sx|sx| |sx mx ex]; try discriminate; intros _; try reflexivity.
  apply binary_round_aux_not_nan. lia.
Qed.

Lemma rint_not_nan (x : f64) : F64.isnan x = false -> F64.isnan (F64.rint x) = false.
Proof.
  destruct x as [sx|sx| |sx mx ex]; try discriminate; intros _; try reflexivity.
  unfold F64.rint. destruct (0 <=? ex)%Z; [reflexivity|].
  destruct (_ =? 0)%Z; [reflexivity|].
  unfold binary_normalize.
  destruct (if sx then _ else _); try reflexivity; apply binary_round_not_nan.
Qed.

Lemma round2_not_nan (x : f64) : F64.isnan x = false -> F64.isnan (round2 x) = false.
Proof.
  intros H. unfold round2. rewrite hundred.
  apply div_finite_not_nan, rint_not_nan, mul_finite_nonzero_not_nan, H.
Qed.

End F64Facts.

Module F64Range.
Import F64Facts.
Local Open Scope Z_scope.

Lemma digits2_pos_size (p : positive) : digits2_pos p = Pos.size p.
Proof. induction p; simpl; congruence. Qed.

Lemma digits2_nonneg (m : Z) : 0 <= Zdigits2 m.
Proof. destruct m; simpl; lia. Qed.

Lemma digits2_gt (m : Z) : 0 <= m -> m < 2 ^ Zdigits2 m.
Proof.
  destruct m as [|p|p]; intros H; simpl Zdigits2; try lia.
  rewrite digits2_pos_size.
  pose proof (Pos.size_gt p) as G.
  apply Pos2Z.pos_lt_pos in G. now rewrite Pos2Z.inj_pow in G.
Qed.

Lemma digits2_le (m k : Z) : 0 <= m -> 0 <= k -> m < 2 ^ k -> Zdigits2 m <= k.
Proof.
  destruct m as [|p|p]; intros H Hk Hm; simpl Zdigits2; try lia.
  rewrite digits2_pos_size.
  pose proof (Pos.size_le p) as G.
  apply Pos2Z.pos_le_pos in G. rewrite Pos2Z.inj_pow in G.
  destruct (Z_le_gt_dec (Zpos (Pos.size p)) k) as [|Hgt]; [assumption|exfalso].
  assert (2 ^ (k + 1) <= 2 ^ Zpos (Pos.size p)) as Hp
    by (apply Z.pow_le_mono_r; lia).
  rewrite Z.pow_add_r in Hp by lia.
  change (Zpos p~0) with (2 * Zpos p) in G. lia.
Qed.

Lemma digits2_succ (m : Z) : 0 <= m -> Zdigits2 (m + 1) <= Zdigits2 m + 1.
Proof.
  intros H. apply digits2_le; try lia.
  - pose proof (digits2_nonneg m). lia.
  - pose proof (digits2_gt m H) as G.
    rewrite Z.pow_add_r by (pose proof (digits2_nonneg m); lia). lia.
Qed.

Lemma shr_1_digits (r : shr_record) :
  0 <= shr_m r ->
  0 <= shr_m (shr_1 r) /\
  Zdigits2 (shr_m (shr_1 r)) = Z.max (Zdigits2 (shr_m r) - 1) 0.
Proof.
  destruct r as [m b s]; unfold shr_1.
  destruct m as [|[p|p|]|p]; cbn [shr_m Zdigits2 digits2_pos];
    rewrite ?Pos2Z.inj_succ; lia.
Qed.

Lemma iter_shr_1_digits (n : positive) : forall r : shr_record,
  0 <= shr_m r ->
  0 <= shr_m (iter_pos shr_1 n r) /\
  Zdigits2 (shr_m (iter_pos shr_1 n r)) = Z.max (Zdigits2 (shr_m r) - Zpos n) 0.
Proof.
  induction n as [n IH|n IH|]; intros r H; simpl iter_pos.
  - destruct (shr_1_digits r H) as [H1 E1].
    destruct (IH _ H1) as [H2 E2]. destruct (IH _ H2) as [H3 E3].
    split; [assumption|]. rewrite E3, E2, E1. lia.
  - destruct (IH _ H) as [H2 E2]. destruct (IH _ H2) as [H3 E3].
    split; [assumption|]. rewrite E3, E2. lia.
  - apply shr_1_digits, H.
Qed.

(** After the shift of [shr_fexp], mantissa and exponent stay below the
    bounds they had, and the exponent is the canonical one at least. *)
Lemma shr_fexp_bounds (m e : Z) (l : location) (B : Z) :
  0 <= B -> 0 <= m -> e <= B - 53 -> Zdigits2 m + e <= B ->
  let '(r, e') := shr_fexp F64.prec F64.emax m e l in
  0 <= shr_m r /\ e' <= B - 53 /\ Zdigits2 (shr_m r) + e' <= B.
Proof.
  intros HB Hm He Hd. unfold shr_fexp, shr.
  pose proof (digits2_nonneg m) as Hn.
  destruct (fexp F64.prec F64.emax (Zdigits2 m + e) - e) as [|n|n] eqn:En;
    rewrite ?shr_m_of_loc; try lia.
  destruct (iter_shr_1_digits n (shr_record_of_loc m l)) as [H1 E1];
    rewrite ?shr_m_of_loc in *; try assumption.
  split; [assumption|]. rewrite E1.
  unfold fexp, emin, F64.prec, F64.emax in En. lia.
Qed.

Lemma round_nearest_even_digits (m : Z) (l : location) :
  0 <= m -> Zdigits2 (round_nearest_even m l) <= Zdigits2 m + 1.
Proof.
  intros H. pose proof (digits2_succ m H).
  destruct l as [|[]]; simpl; try lia. destruct (Z.even m); lia.
Qed.

Lemma binary_round_aux_finite (s : bool) (m e : Z) (l : location) :
  0 <= m -> e <= 970 -> Zdigits2 m + e <= 1023 ->
  F64.isfinite (binary_round_aux F64.prec F64.emax s m e l) = true.
Proof.
  intros Hm He Hd. unfold binary_round_aux.
  pose proof (shr_fexp_bounds m e l 1023 ltac:(lia) Hm ltac:(lia) Hd) as H1.
  destruct (shr_fexp F64.prec F64.emax m e l) as [r1 e1].
  destruct H1 as (H1 & He1 & Hd1).
  pose proof (round_nearest_even_nonneg _ (loc_of_shr_record r1) H1) as Hr.
  pose proof (round_nearest_even_digits _ (loc_of_shr_record r1) H1) as Hrd.
  pose proof (shr_fexp_bounds _ e1 loc_Exact 1024 ltac:(lia) Hr ltac:(lia) ltac:(lia)) as H2.
  destruct (shr_fexp F64.prec F64.emax _ e1 loc_Exact) as [r2 e2].
  destruct H2 as (H2 & He2 & Hd2).
  destruct (shr_m r2); try lia; try reflexivity.
  unfold F64.emax, F64.prec.
  destruct (Z.leb_spec e2 (1024 - 53)); [reflexivity | lia].
Qed.

Lemma number_bounds (s : bool) (m : positive) (e : Z) :
  number (S754_finite s m e) = true ->
  Zpos (digits2_pos m) <= 53 /\ e <= 971.
Proof.
  unfold number, valid_binary, bounded, canonical_mantissa, fexp, emin,
    F64.prec, F64.emax.
  rewrite !andb_true_iff, Z.eqb_eq, Z.leb_le. lia.
Qed.

(** A number divided by 100 is finite: the quotient cannot overflow. *)
Lemma div_100_finite (x : f64) :
  number x = true -> F64.isfinite (F64.div x (F64.of_Z 100)) = true.
Proof.
  rewrite hundred.
  destruct x as [sx|sx| |sx mx ex]; try discriminate; try reflexivity.
  intros Hx. apply number_bounds in Hx. destruct Hx as [Hdig Hex].
  unfold F64.div, SFdiv.
  destruct (SFdiv_core_binary _ _ _ _ _ _) as [[mz ez] lz] eqn:E.
  unfold SFdiv_core_binary in E.
  set (d1 := Zdigits2 (Zpos mx)) in *.
  change (Zdigits2 7036874417766400) with 53 in E.
  set (e' := Z.min _ _) in E.
  set (sh := ex - -46 - e') in E.
  set (m' := match sh with Z0 => _ | Zpos _ => _ | Zneg _ => _ end) in E.
  assert (0 <= sh) as Hsh by (subst sh e'; lia).
  assert (m' = Zpos mx * 2 ^ sh) as Hm'.
  { subst m'. destruct sh eqn:Es; try lia.
    apply Z.shiftl_mul_pow2. lia. }
  assert (e' <= 964) as He'.
  { subst e'. unfold fexp, emin, F64.prec, F64.emax.
    change d1 with (Zpos (digits2_pos mx)). lia. }
  pose proof (Z_div_mod m' 7036874417766400 eq_refl) as Hd.
  destruct (Z.div_eucl m' 7036874417766400) as [q r].
  injection E as <- <- _. destruct Hd as [Hd Hr].
  assert (0 <= q) as Hq by nia.
  apply binary_round_aux_finite; try lia.
  assert (Zpos mx < 2 ^ d1) as Hmx by (apply digits2_gt; lia).
  assert (0 < d1 <= 53) as Hd1 by (subst d1; simpl; lia).
  assert (Zdigits2 q <= Z.max (d1 + sh - 52) 0) as Hdq.
  { apply digits2_le; try lia.
    destruct (Z_le_gt_dec 52 (d1 + sh)) as [Hge|Hlt].
    - rewrite Z.max_l by lia.
      assert (2 ^ (d1 + sh) = 2 ^ 52 * 2 ^ (d1 + sh - 52)) as Hp
        by (rewrite <- Z.pow_add_r by lia; f_equal; lia).
      assert (m' < 2 ^ (d1 + sh)) as Hlt'.
      { rewrite Hm', Z.pow_add_r by lia.
        apply Z.mul_lt_mono_pos_r; [apply Z.pow_pos_nonneg; lia | assumption]. }
      assert (0 < 2 ^ (d1 + sh - 52)) by (apply Z.pow_pos_nonneg; lia).
      change (2 ^ 52) with 4503599627370496 in Hp. nia.
    - rewrite Z.max_r by lia. simpl.
      assert (m' < 2 ^ 52) as Hlt'.
      { rewrite Hm'.
        apply Z.lt_le_trans with (2 ^ d1 * 2 ^ sh).
        - apply Z.mul_lt_mono_pos_r; [apply Z.pow_pos_nonneg; lia | assumption].
        - rewrite <- Z.pow_add_r by lia. apply Z.pow_le_mono_r; lia. }
      change (2 ^ 52) with 4503599627370496 in Hlt'. nia. }
  subst sh. lia.
Qed.

End F64Range.

Import F64Facts F64Range.

(** * Lists, [take] and [nargsort] *)

Section Take.

Context {A : Type}.

Lemma take_length (d : A) (a : list nat) (l : list A) :
  List.length (take d a l) = List.length a.
Proof. apply length_map. Qed.

Lemma nth_take (d : A) (a : list nat) (l : list A) (i : nat) :
  i < List.length a -> nth i (take d a l) d = nth (nth i a 0) l d.
Proof.
  intros H. unfold take.
  rewrite (nth_indep _ d (nth (nth 0 a 0) l d)) by (now rewrite length_map).
  rewrite (nth_indep _ _ (nth 0 l d)) by (now rewrite length_map).
  change (nth 0 l d) with ((fun i => nth i l d) 0).
  now rewrite map_nth.
Qed.

Lemma take_seq (d : A) (l : list A) : take d (seq 0 (List.length l)) l = l.
Proof.
  apply (nth_ext _ _ d d).
  - now rewrite take_length, length_seq.
  - intros i Hi. rewrite take_length, length_seq in Hi.
    rewrite nth_take by (now rewrite length_seq). now rewrite seq_nth.
Qed.

Lemma take_Permutation (d : A) (a : list nat) (l : list A) :
  Permutation a (seq 0 (List.length l)) -> Permutation (take d a l) l.
Proof.
  intros H. rewrite <- (take_seq d l) at 2. now apply Permutation_map.
Qed.

Lemma take_map {B : Type} (f : A -> B) (d : A) (a : list nat) (l : list A) :
  take (f d) a (map f l) = map f (take d a l).
Proof.
  unfold take. rewrite map_map. apply map_ext. intros i. apply map_nth.
Qed.

Lemma take_take (d : A) (a b : list nat) (l : list A) :
  Forall (fun i => i < List.length a) b ->
  take d b (take d a l) = take d (take 0 b a) l.
Proof.
  intros H.
  change (take d b (take d a l)) with (map (fun i => nth i (take d a l) d) b).
  change (take d (take 0 b a) l)
    with (map (fun j => nth j l d) (map (fun i => nth i a 0) b)).
  rewrite map_map. apply map_ext_in.
  intros i Hi. rewrite Forall_forall in H. now rewrite nth_take by auto.
Qed.

End Take.

Lemma take_index (a : list nat) (n : nat) :
  Forall (fun i => i < n) a -> take 0 a (seq 0 n) = a.
Proof.
  intros H. unfold take. rewrite <- (map_id a) at 2. apply map_ext_in.
  intros i Hi. rewrite Forall_forall in H. now rewrite seq_nth by auto.
Qed.

Lemma Permutation_seq_bound (a : list nat) (n : nat) :
  Permutation a (seq 0 n) -> Forall (fun i => i < n) a.
Proof.
  intros H. apply Forall_forall. intros i Hi.
  apply (Permutation_in _ H), in_seq in Hi. lia.
Qed.

Lemma filter_split_Permutation {A : Type} (f : A -> bool) (l : list A) :
  Permutation (filter f l ++ filter (fun x => negb (f x)) l) l.
Proof.
  induction l as [|x l IH]; simpl; [constructor|].
  destruct (f x); simpl.
  - now constructor.
  - apply Permutation_sym, Permutation_cons_app, Permutation_sym, IH.
Qed.

Lemma map_fst_combine {A B : Type} (l : list A) (l' : list B) :
  List.length l = List.length l' -> map fst (combine l l') = l.
Proof.
  revert l'. induction l as [|x l IH]; intros [|y l'] H; simpl in *;
    try discriminate; [reflexivity|].
  f_equal. apply IH. now injection H.
Qed.

Lemma map_snd_combine {A B : Type} (l : list A) (l' : list B) :
  List.length l = List.length l' -> map snd (combine l l') = l'.
Proof.
  revert l'. induction l as [|x l IH]; intros [|y l'] H; simpl in *;
    try discriminate; [reflexivity|].
  f_equal. apply IH. now injection H.
Qed.

Lemma keyed_length (items : Series) : List.length (keyed items) = List.length items.
Proof. unfold keyed. rewrite length_combine, length_seq. lia. Qed.

Lemma keyed_nth (items : Series) (i : nat) :
  i < List.length items -> nth i (keyed items) (0, F64.nan) = (i, nth i items F64.nan).
Proof.
  intros H. unfold keyed. rewrite combine_nth by (now rewrite length_seq).
  now rewrite seq_nth.
Qed.

Lemma keyed_in (items : Series) (i : nat) (k : f64) :
  In (i, k) (keyed items) -> i < List.length items /\ nth i items F64.nan = k.
Proof.
  intros H. apply (In_nth _ _ (0, F64.nan)) in H. destruct H as (j & Hj & E).
  rewrite keyed_length in Hj. rewrite keyed_nth in E by assumption.
  injection E as <- <-. auto.
Qed.

Lemma map_fst_keyed (items : Series) : map fst (keyed items) = seq 0 (List.length items).
Proof. unfold keyed. apply map_fst_combine. now rewrite length_seq. Qed.

Lemma map_snd_keyed (items : Series) : map snd (keyed items) = items.
Proof. unfold keyed. apply map_snd_combine. now rewrite length_seq. Qed.

Section Nargsort.

Variable argsort : Series -> list nat.
Hypothesis Hsorts : argsort_sorts argsort.
Variable items : Series.

Let non_nan := rev (filter (fun p => negb (F64.isnan (snd p))) (keyed items)).
Let nans := filter (fun p => F64.isnan (snd p)) (keyed items).
Let a := argsort (map snd non_nan).

Lemma non_nan_keys : no_nan (map snd non_nan).
Proof.
  apply Forall_map, Forall_forall. intros p Hp.
  apply in_rev, filter_In in Hp. now apply negb_true_iff.
Qed.

Lemma a_Permutation : Permutation a (seq 0 (List.length non_nan)).
Proof.
  destruct (Hsorts _ non_nan_keys) as [H _]. now rewrite length_map in H.
Qed.

Lemma ranked_eq : ranked argsort items = rev (take (0, F64.nan) a non_nan) ++ nans.
Proof. reflexivity. Qed.

Lemma nargsort_ranked : nargsort argsort items false = map fst (ranked argsort items).
Proof.
  change (nargsort argsort items false)
    with (rev (take 0 a (map fst non_nan)) ++ map fst nans).
  rewrite ranked_eq, map_app, (map_rev fst (take (0, F64.nan) a non_nan)).
  now rewrite <- (take_map fst (0, F64.nan) a non_nan).
Qed.

Lemma ranked_Permutation : Permutation (ranked argsort items) (keyed items).
Proof.
  rewrite ranked_eq.
  rewrite <- (filter_split_Permutation (fun p => F64.isnan (snd p)) (keyed items)).
  rewrite Permutation_app_comm. apply Permutation_app_head.
  rewrite <- Permutation_rev.
  rewrite (take_Permutation (0, F64.nan) a non_nan a_Permutation).
  unfold non_nan. now rewrite <- Permutation_rev.
Qed.

Lemma ranked_labels_Permutation :
  Permutation (nargsort argsort items false) (seq 0 (List.length items)).
Proof.
  rewrite nargsort_ranked, <- map_fst_keyed.
  apply Permutation_map, ranked_Permutation.
Qed.

Lemma ranked_in (i : nat) (k : f64) :
  In (i, k) (ranked argsort items) -> i < List.length items /\ nth i items F64.nan = k.
Proof.
  intros H. apply keyed_in. now apply (Permutation_in _ ranked_Permutation).
Qed.

(** The scores in ranking order. *)
Lemma ranked_scores :
  take F64.nan (nargsort argsort items false) items = map snd (ranked argsort items).
Proof.
  rewrite nargsort_ranked. unfold take. rewrite map_map. apply map_ext_in.
  intros [i k] H. now apply ranked_in.
Qed.

Lemma ranked_scores_split :
  map snd (ranked argsort items) =
  rev (take F64.nan a (map snd non_nan)) ++ map snd nans.
Proof.
  rewrite ranked_eq, map_app, (map_rev snd (take (0, F64.nan) a non_nan)).
  now rewrite <- (take_map snd (0, F64.nan) a non_nan).
Qed.

Lemma nans_all_nan : Forall (fun k => F64.isnan k = true) (map snd nans).
Proof.
  apply Forall_map, Forall_forall. intros p Hp. now apply filter_In in Hp.
Qed.

Lemma sorted_keys_no_nan : no_nan (rev (take F64.nan a (map snd non_nan))).
Proof.
  apply Forall_rev.
  change (take F64.nan a (map snd non_nan))
    with (take (snd (0, F64.nan)) a (map snd non_nan)).
  rewrite take_map. apply Forall_map.
  apply (Permutation_Forall (Permutation_sym (take_Permutation (0, F64.nan) a non_nan a_Permutation))).
  apply Forall_forall. intros p Hp.
  apply in_rev, filter_In in Hp. now apply negb_true_iff.
Qed.

Lemma sorted_keys_non_increasing :
  non_increasing (rev (take F64.nan a (map snd non_nan))).
Proof.
  intros i j Hij. rewrite length_rev, take_length in Hij.
  pose proof (Permutation_length a_Permutation) as La. rewrite length_seq in La.
  destruct (Hsorts _ non_nan_keys) as [_ Hs]. rewrite length_map in Hs.
  fold a in Hs.
  rewrite !rev_nth by (rewrite take_length; lia).
  rewrite take_length, !nth_take by lia.
  apply Hs. lia.
Qed.

End Nargsort.

Lemma StronglySorted_nth (l : list nat) :
  StronglySorted lt l ->
  forall i j, i < j < List.length l -> nth i l 0 < nth j l 0.
Proof.
  induction 1 as [|x l Hl IH Hx]; intros i j Hij; simpl in *; [lia|].
  destruct i as [|i], j as [|j]; try lia.
  - rewrite Forall_forall in Hx. apply Hx, nth_In. lia.
  - apply IH. lia.
Qed.

Lemma filter_combine_seq_sorted (f : nat * f64 -> bool) (items : Series) :
  forall start,
    StronglySorted lt (map fst (filter f (combine (seq start (List.length items)) items))).
Proof.
  induction items as [|x items IH]; intros start; simpl; [constructor|].
  destruct (f (start, x)); simpl; [|apply IH].
  constructor; [apply IH|].
  apply Forall_map, Forall_forall. intros [i k] Hi.
  apply filter_In in Hi. destruct Hi as [Hi _].
  apply in_combine_l, in_seq in Hi. simpl. lia.
Qed.

Lemma filter_keyed_increasing (f : nat * f64 -> bool) (items : Series) (i j : nat) :
  i < j < List.length (filter f (keyed items)) ->
  fst (nth i (filter f (keyed items)) (0, F64.nan))
  < fst (nth j (filter f (keyed items)) (0, F64.nan)).
Proof.
  intros H.
  pose proof (StronglySorted_nth _ (filter_combine_seq_sorted f items 0)) as S.
  fold (keyed items) in S. specialize (S i j). rewrite length_map in S.
  specialize (S H).
  change 0 with (fst (0, F64.nan)) in S at 1 2. now rewrite !map_nth in S.
Qed.

Section Stability.

Variable argsort : Series -> list nat.
Hypothesis Hsorts : argsort_sorts argsort.
Hypothesis Hstable : argsort_stable argsort.
Variable items : Series.

Lemma ranked_stable :
  stable_ranking (map fst (ranked argsort items)) (map snd (ranked argsort items)).
Proof.
  set (F := filter (fun p => negb (F64.isnan (snd p))) (keyed items)).
  set (nans := filter (fun p => F64.isnan (snd p)) (keyed items)).
  set (non_nan := rev F).
  set (a := argsort (map snd non_nan)).
  set (T := take (0, F64.nan) a non_nan).
  assert (ranked argsort items = rev T ++ nans) as ER by reflexivity.
  pose proof (a_Permutation argsort Hsorts items) as Pa. fold F non_nan a in Pa.
  pose proof (Permutation_length Pa) as La. rewrite length_seq in La.
  pose proof (Permutation_seq_bound _ _ Pa) as Ba. rewrite Forall_forall in Ba.
  assert (List.length T = List.length non_nan) as LT
    by (unfold T; now rewrite take_length).
  assert (List.length non_nan = List.length F) as LF
    by (unfold non_nan; now rewrite length_rev).
  pose proof (non_nan_keys items) as NN. fold F non_nan in NN.
  assert (forall k, k < List.length T ->
            F64.isnan (snd (nth k (rev T) (0, F64.nan))) = false) as NT.
  { intros k Hk. rewrite rev_nth by lia. rewrite LT. unfold T.
    rewrite nth_take by lia.
    unfold no_nan in NN. rewrite Forall_forall in NN.
    apply NN, in_map, nth_In, Ba, nth_In. lia. }
  assert (forall k, k < List.length nans ->
            F64.isnan (snd (nth k nans (0, F64.nan))) = true) as NaN.
  { intros k Hk.
    assert (In (nth k nans (0, F64.nan)) nans) as I by (now apply nth_In).
    now apply filter_In in I. }
  intros i j Hij Hsame. rewrite length_map, ER, length_app, length_rev in Hij.
  set (d := (0, F64.nan)) in *.
  change 0 with (fst d). change F64.nan with (snd d) in Hsame.
  rewrite !map_nth in *. rewrite ER in *.
  destruct (Nat.lt_ge_cases j (List.length T)) as [Hj|Hj].
  - (* both among the sorted rows *)
    rewrite !app_nth1 in * by (rewrite length_rev; lia).
    rewrite !rev_nth in * by lia.
    unfold T in *. rewrite take_length in *.
    rewrite !nth_take in * by lia.
    set (p := List.length a - S j) in *. set (q := List.length a - S i) in *.
    assert (p < q < List.length a) as Hpq by (unfold p, q; lia).
    assert (In (nth p a 0) a /\ In (nth q a 0) a) as [Ip Iq]
      by (split; apply nth_In; lia).
    apply Ba in Ip, Iq.
    assert (nth p a 0 < nth q a 0) as Hlt.
    { apply (Hstable _ NN); [rewrite length_map; lia|].
      change F64.nan with (snd d). rewrite !map_nth.
      unfold F64.same in Hsame. apply orb_true_iff in Hsame.
      destruct Hsame as [Hs|Hs].
      - now rewrite eqb_sym.
      - exfalso. apply andb_true_iff in Hs. destruct Hs as [Hs _].
        unfold no_nan in NN. rewrite Forall_forall in NN.
        assert (F64.isnan (snd (nth (nth q a 0) non_nan d)) = false) as C
          by (apply NN, in_map, nth_In; lia).
        congruence. }
    unfold non_nan. rewrite !rev_nth by lia.
    apply filter_keyed_increasing. fold F. lia.
  - destruct (Nat.lt_ge_cases i (List.length T)) as [Hi|Hi].
    + (* a sorted row and a NaN row are never the same *)
      exfalso.
      rewrite (app_nth1 (rev T) nans d (n:=i)) in Hsame by (rewrite length_rev; lia).
      rewrite (app_nth2 (rev T) nans d (n:=j)) in Hsame by (rewrite length_rev; lia).
      rewrite length_rev in Hsame.
      specialize (NT i Hi). specialize (NaN (j - List.length T) ltac:(lia)).
      unfold F64.same in Hsame. rewrite NT, NaN, andb_false_l, orb_false_r in Hsame.
      apply eqb_leb, leb_not_nan in Hsame. destruct Hsame. congruence.
    + (* both among the NaN rows, which are in input order *)
      rewrite !app_nth2 by (rewrite length_rev; lia). rewrite length_rev.
      apply filter_keyed_increasing. fold nans. lia.
Qed.

End Stability.

(** * Scores in ranking order *)

Lemma split_order (D N : Series) :
  no_nan D -> Forall (fun k => F64.isnan k = true) N -> non_increasing D ->
  forall i j, i < j < List.length (D ++ N) ->
    F64.isnan (nth j (D ++ N) F64.nan) = false ->
    F64.leb (nth j (D ++ N) F64.nan) (nth i (D ++ N) F64.nan) = true.
Proof.
  intros HD HN Hs i j Hij Hj. rewrite length_app in Hij.
  destruct (Nat.lt_ge_cases j (List.length D)) as [Hlt|Hge].
  - rewrite !app_nth1 by lia. apply Hs. lia.
  - exfalso. rewrite app_nth2 in Hj by lia.
    rewrite Forall_forall in HN.
    rewrite HN in Hj; [discriminate|]. apply nth_In. lia.
Qed.

Lemma split_nan_last (D N : Series) :
  no_nan D -> Forall (fun k => F64.isnan k = true) N ->
  forall i j, i < j < List.length (D ++ N) ->
    F64.isnan (nth i (D ++ N) F64.nan) = true ->
    F64.isnan (nth j (D ++ N) F64.nan) = true.
Proof.
  intros HD HN i j Hij Hi. rewrite length_app in Hij.
  unfold no_nan in HD. rewrite Forall_forall in HD, HN.
  destruct (Nat.lt_ge_cases i (List.length D)) as [Hlt|Hge].
  - rewrite app_nth1 in Hi by lia.
    rewrite HD in Hi; [discriminate|]. apply nth_In. lia.
  - rewrite app_nth2 by lia. apply HN, nth_In. lia.
Qed.

Section Ranked.

Variable argsort : Series -> list nat.
Hypothesis Hsorts : argsort_sorts argsort.
Variable items : Series.

Let S := map snd (ranked argsort items).

Lemma ranked_length : List.length (ranked argsort items) = List.length items.
Proof.
  rewrite (Permutation_length (ranked_Permutation argsort Hsorts items)).
  apply keyed_length.
Qed.

Lemma ranked_order (i j : nat) :
  i < j < List.length items ->
  F64.isnan (nth j S F64.nan) = false ->
  F64.leb (nth j S F64.nan) (nth i S F64.nan) = true.
Proof.
  intros Hij. unfold S. rewrite ranked_scores_split.
  apply split_order.
  - apply sorted_keys_no_nan, Hsorts.
  - apply nans_all_nan.
  - apply sorted_keys_non_increasing, Hsorts.
  - rewrite <- ranked_scores_split, length_map, ranked_length. exact Hij.
Qed.

Lemma ranked_nan_last (i j : nat) :
  i < j < List.length items ->
  F64.isnan (nth i S F64.nan) = true ->
  F64.isnan (nth j S F64.nan) = true.
Proof.
  intros Hij. unfold S. rewrite ranked_scores_split.
  apply split_nan_last.
  - apply sorted_keys_no_nan, Hsorts.
  - apply nans_all_nan.
  - rewrite <- ranked_scores_split, length_map, ranked_length. exact Hij.
Qed.

End Ranked.

(** * The insertion argsort meets the contract, and is stable *)

Section Insertion.

Variable ks : Series.
Hypothesis Hks : no_nan ks.

Let key (i : nat) : f64 := nth i ks F64.nan.

(** Ordered by key, and by index among equal keys. *)
Let before (i j : nat) : Prop :=
  F64.leb (key i) (key j) = true /\ (F64.eqb (key i) (key j) = true -> i < j).

Lemma key_not_nan (i : nat) : i < List.length ks -> F64.isnan (key i) = false.
Proof.
  intros H. unfold no_nan in Hks. rewrite Forall_forall in Hks.
  apply Hks, nth_In, H.
Qed.

Lemma insert_index_Permutation (i : nat) (l : list nat) :
  Permutation (insert_index ks i l) (i :: l).
Proof.
  induction l as [|j l IH]; simpl; [reflexivity|].
  destruct (F64.ltb _ _); [reflexivity|].
  rewrite IH. apply perm_swap.
Qed.

Lemma insert_index_sorted (i : nat) (l : list nat) :
  i < List.length ks ->
  Forall (fun j => j < i) l ->
  StronglySorted before l ->
  StronglySorted before (insert_index ks i l).
Proof.
  intros Hi Hl Hs. induction Hs as [|j l Hs IH Hj]; simpl.
  - repeat constructor.
  - apply Forall_cons_iff in Hl. destruct Hl as [Hji Hl].
    fold (key i) (key j).
    destruct (F64.ltb (key i) (key j)) eqn:E.
    + constructor; [now constructor|].
      assert (before i j) as Bij.
      { split; [now apply ltb_leb|]. intros Q.
        apply eqb_not_ltb in Q. congruence. }
      constructor; [exact Bij|].
      rewrite Forall_forall in *. intros k Hk. destruct (Hj k Hk) as [Ljk Ejk].
      pose proof (ltb_leb_trans _ _ _ E Ljk) as Lik.
      split; [now apply ltb_leb|]. intros Q.
      apply eqb_not_ltb in Q. congruence.
    + constructor; [now apply IH|].
      rewrite (insert_index_Permutation i l).
      constructor; [|exact Hj].
      split; [|intros _; exact Hji].
      apply not_ltb_leb; auto; apply key_not_nan; lia.
Qed.

Lemma fold_insert (k : nat) :
  k <= List.length ks ->
  let l := fold_left (fun sorted i => insert_index ks i sorted) (seq 0 k) [] in
  Permutation l (seq 0 k) /\ StronglySorted before l.
Proof.
  induction k as [|k IH]; intros Hk; cbv zeta.
  - split; constructor.
  - destruct IH as [P Hs]; [lia|].
    rewrite seq_S, fold_left_app. cbn [fold_left Nat.add]. split.
    + rewrite insert_index_Permutation, P.
      apply Permutation_cons_append.
    + apply insert_index_sorted; [lia| |exact Hs].
      apply (Permutation_Forall (Permutation_sym P)).
      apply Forall_forall. intros j Hj. apply in_seq in Hj. lia.
Qed.

Lemma StronglySorted_nth_rel (R : nat -> nat -> Prop) (l : list nat) :
  StronglySorted R l ->
  forall p q, p < q < List.length l -> R (nth p l 0) (nth q l 0).
Proof.
  induction 1 as [|x l Hl IH Hx]; intros p q Hpq; simpl in *; [lia|].
  destruct p as [|p], q as [|q]; try lia.
  - rewrite Forall_forall in Hx. apply Hx, nth_In. lia.
  - apply IH. lia.
Qed.

Lemma argsort_insertion_before (p q : nat) :
  p < q < List.length ks ->
  before (nth p (argsort_insertion ks) 0) (nth q (argsort_insertion ks) 0).
Proof.
  intros H. destruct (fold_insert (List.length ks) (le_n _)) as [P Hs].
  apply (StronglySorted_nth_rel _ _ Hs).
  rewrite (Permutation_length P), length_seq. exact H.
Qed.

End Insertion.

Lemma argsort_insertion_sorts : argsort_sorts argsort_insertion.
Proof.
  intros ks Hks. split.
  - apply (fold_insert ks Hks (List.length ks) (le_n _)).
  - intros p q H. apply (argsort_insertion_before ks Hks p q H).
Qed.

Lemma argsort_insertion_stable : argsort_stable argsort_insertion.
Proof.
  intros ks Hks p q H. apply (argsort_insertion_before ks Hks p q H).
Qed.

(** * The analyzer, column by column *)

Lemma combine_map {A B C : Type} (f : A -> B) (g : A -> C) (l : list A) :
  combine (map f l) (map g l) = map (fun x => (f x, g x)) l.
Proof. induction l; simpl; congruence. Qed.

Lemma series_mul_map {A : Type} (f g : A -> f64) (l : list A) :
  series_mul (map f l) (map g l) = map (fun x => F64.mul (f x) (g x)) l.
Proof. unfold series_mul. now rewrite combine_map, map_map. Qed.

Lemma series_div_map {A : Type} (f g : A -> f64) (l : list A) :
  series_div (map f l) (map g l) = map (fun x => F64.div (f x) (g x)) l.
Proof. unfold series_div. now rewrite combine_map, map_map. Qed.

Section Unfold.

Variable log_pos : f64 -> f64.
Variable argsort : Series -> list nat.
Variable loans : list Loan.t.

Let df := frame_of log_pos loans.

Lemma analyze_no_principal :
  has Loan.principal loans = false ->
  analyze_loan_payoff_strategy log_pos argsort loans = Raise (KeyError "principal").
Proof.
  intros H. unfold analyze_loan_payoff_strategy, pd_DataFrame, column.
  unfold has in H. cbn [principal]. rewrite H. reflexivity.
Qed.

Lemma analyze_no_rate :
  has Loan.principal loans = true ->
  has Loan.rate loans = false ->
  analyze_loan_payoff_strategy log_pos argsort loans = Raise (KeyError "rate").
Proof.
  intros Hp H. unfold analyze_loan_payoff_strategy, pd_DataFrame, column.
  unfold has in *. cbn [principal rate]. rewrite H, Hp. reflexivity.
Qed.

Lemma analyze_unfold :
  has Loan.principal loans = true ->
  has Loan.rate loans = true ->
  analyze_loan_payoff_strategy log_pos argsort loans =
  (i <- idxmax "rate" (map rate_of loans);;
   highest <- loc_name df i;;
   i <- idxmin "principal" (map principal_of loans);;
   smallest <- loc_name df i;;
   i <- idxmax "monthly_interest" (map monthly_interest_of loans);;
   most_expensive <- loc_name df i;;
   Ok {| strategies := {|
           avalanche_method :=
             df_take (nargsort argsort (map avalanche_score_of loans) false) df;
           snowball_method :=
             df_take (nargsort argsort (map snowball_score_of loans) false) df;
           balanced_method :=
             df_take (nargsort argsort (map (balanced_score_of log_pos) loans) false) df |};
         summary := {|
           total_debt := series_sum (map principal_of loans);
           total_monthly_interest := series_sum (map monthly_interest_of loans);
           highest_interest_loan := highest;
           smallest_balance_loan := smallest;
           most_expensive_loan := most_expensive |} |}).
Proof.
  intros Hp Hr.
  assert (column Loan.principal num_cell loans = Some (map principal_of loans)) as Ep
    by (unfold column; fold (has Loan.principal loans); now rewrite Hp).
  assert (column Loan.rate num_cell loans = Some (map rate_of loans)) as Er
    by (unfold column; fold (has Loan.rate loans); now rewrite Hr).
  subst df.
  unfold analyze_loan_payoff_strategy, sort_values, pd_DataFrame, frame_of.
  cbn [principal rate]. rewrite ?Ep, ?Er.
  cbn [getitem bind principal rate monthly_interest avalanche_score snowball_score
       balanced_score set_monthly_interest set_interest_principal_ratio
       set_avalanche_score set_snowball_score set_balanced_score
       index name min_payment interest_principal_ratio].
  rewrite ?Ep, ?Er.
  cbn [getitem bind].
  unfold series_round2, series_div_scalar, series_neg, np_log.
  rewrite !map_map.
  rewrite (series_mul_map principal_of).
  rewrite (series_div_map _ principal_of).
  rewrite (series_mul_map rate_of).
  rewrite !map_map.
  reflexivity.
Qed.

End Unfold.

(** * [idxmax] and [idxmin] *)

Lemma argmax_loop_spec (a pre : Series) (best : nat) :
  no_nan (pre ++ a) ->
  best < List.length pre ->
  (forall j, j < List.length pre ->
     F64.leb (nth j (pre ++ a) F64.nan) (nth best (pre ++ a) F64.nan) = true) ->
  (forall j, j < best ->
     F64.ltb (nth j (pre ++ a) F64.nan) (nth best (pre ++ a) F64.nan) = true) ->
  let r := argmax_loop (nth best (pre ++ a) F64.nan) best (List.length pre) a in
  r < List.length (pre ++ a) /\
  (forall j, j < List.length (pre ++ a) ->
     F64.leb (nth j (pre ++ a) F64.nan) (nth r (pre ++ a) F64.nan) = true) /\
  (forall j, j < r ->
     F64.ltb (nth j (pre ++ a) F64.nan) (nth r (pre ++ a) F64.nan) = true).
Proof.
  revert pre best. induction a as [|x a IH]; intros pre best Hn Hb Hle Hlt.
  - assert (F64.isnan (nth best (pre ++ []) F64.nan) = false) as Hmp.
    { unfold no_nan in Hn. rewrite Forall_forall in Hn. apply Hn, nth_In.
      rewrite length_app. simpl. lia. }
    cbv zeta. unfold argmax_loop. rewrite Hmp.
    rewrite length_app. simpl. rewrite Nat.add_0_r. repeat split; auto.
  - assert (F64.isnan (nth best (pre ++ x :: a) F64.nan) = false) as Hmp.
    { unfold no_nan in Hn. rewrite Forall_forall in Hn. apply Hn, nth_In.
      rewrite length_app. simpl. lia. }
    assert (F64.isnan x = false) as Hx.
    { unfold no_nan in Hn. rewrite Forall_forall in Hn. apply Hn.
      apply in_or_app. right. now left. }
    assert (pre ++ x :: a = (pre ++ [x]) ++ a) as E by (now rewrite <- app_assoc).
    assert (nth (List.length pre) (pre ++ x :: a) F64.nan = x) as Ex
      by (now rewrite app_nth2, Nat.sub_diag by lia).
    cbv zeta. cbn [argmax_loop]. rewrite Hmp.
    destruct (F64.leb x (nth best (pre ++ x :: a) F64.nan)) eqn:C; cbn [negb].
    + pose proof (IH (pre ++ [x]) best) as IH'. rewrite <- E in IH'.
      replace (List.length (pre ++ [x])) with (Datatypes.S (List.length pre)) in IH'
        by (rewrite length_app; simpl; lia).
      apply IH'; auto.
      intros j Hj.
      destruct (Nat.eq_dec j (List.length pre)) as [->|]; [now rewrite Ex|].
      apply Hle. lia.
    + apply not_leb_ltb in C; auto.
      pose proof (IH (pre ++ [x]) (List.length pre)) as IH'. rewrite <- E in IH'.
      replace (List.length (pre ++ [x])) with (Datatypes.S (List.length pre)) in IH'
        by (rewrite length_app; simpl; lia).
      rewrite Ex in IH'. apply IH'; auto.
      * intros j Hj.
        destruct (Nat.eq_dec j (List.length pre)) as [->|].
        -- rewrite Ex. now apply leb_refl.
        -- apply ltb_leb, (leb_ltb_trans _ _ _ (Hle j ltac:(lia)) C).
      * intros j Hj. apply (leb_ltb_trans _ _ _ (Hle j Hj) C).
Qed.

Lemma np_argmax_spec (a : Series) :
  a <> [] -> no_nan a ->
  np_argmax a < List.length a /\
  (forall j, j < List.length a ->
     F64.leb (nth j a F64.nan) (nth (np_argmax a) a F64.nan) = true) /\
  (forall j, j < np_argmax a ->
     F64.ltb (nth j a F64.nan) (nth (np_argmax a) a F64.nan) = true).
Proof.
  destruct a as [|x a]; [congruence|]. intros _ Hn.
  apply (argmax_loop_spec a [x] 0 Hn).
  - simpl. lia.
  - intros j Hj. simpl in Hj. assert (j = 0) as -> by lia. simpl.
    apply leb_refl. now inversion Hn.
  - intros j Hj. lia.
Qed.

Lemma argmin_loop_neg (a : Series) : forall mp best i,
  argmin_loop mp best i a = argmax_loop (F64.neg mp) best i (map F64.neg a).
Proof.
  induction a as [|x a IH]; intros mp best i; simpl; rewrite isnan_neg.
  - reflexivity.
  - rewrite leb_neg. destruct (F64.isnan mp); [reflexivity|].
    destruct (F64.leb mp x); simpl; apply IH.
Qed.

Lemma np_argmin_neg (a : Series) : np_argmin a = np_argmax (map F64.neg a).
Proof. destruct a as [|x a]; [reflexivity|]. apply argmin_loop_neg. Qed.

Lemma no_nan_neg (a : Series) : no_nan a -> no_nan (map F64.neg a).
Proof.
  intros H. apply Forall_map. unfold no_nan in H.
  apply (Forall_impl _ (fun x Hx => eq_trans (isnan_neg x) Hx) H).
Qed.

Lemma nth_neg (a : Series) (i : nat) :
  nth i (map F64.neg a) F64.nan = F64.neg (nth i a F64.nan).
Proof. exact (map_nth F64.neg a F64.nan i). Qed.

Lemma ltb_neg (x y : f64) : F64.ltb (F64.neg x) (F64.neg y) = F64.ltb y x.
Proof. by_cases2 x y. Qed.

Lemma np_argmin_spec (a : Series) :
  a <> [] -> no_nan a ->
  np_argmin a < List.length a /\
  (forall j, j < List.length a ->
     F64.leb (nth (np_argmin a) a F64.nan) (nth j a F64.nan) = true) /\
  (forall j, j < np_argmin a ->
     F64.ltb (nth (np_argmin a) a F64.nan) (nth j a F64.nan) = true).
Proof.
  intros Ha Hn. rewrite np_argmin_neg.
  destruct (np_argmax_spec (map F64.neg a)) as (H1 & H2 & H3).
  - destruct a; [congruence|discriminate].
  - now apply no_nan_neg.
  - rewrite length_map in *. repeat split; auto.
    + intros j Hj. specialize (H2 j Hj). now rewrite !nth_neg, leb_neg in H2.
    + intros j Hj. specialize (H3 j Hj). now rewrite !nth_neg, ltb_neg in H3.
Qed.

Lemma fill_no_nan (v : f64) (a : Series) :
  no_nan a -> map (fun x => if F64.isnan x then v else x) a = a.
Proof.
  intros H. rewrite <- (map_id a) at 2. apply map_ext_in.
  intros x Hx. unfold no_nan in H. rewrite Forall_forall in H.
  now rewrite (H x Hx).
Qed.

Lemma forallb_isnan_no_nan (a : Series) :
  a <> [] -> no_nan a -> forallb F64.isnan a = false.
Proof.
  destruct a as [|x a]; [congruence|]. intros _ H. inversion H as [|? ? Hx _].
  simpl. now rewrite Hx.
Qed.

Lemma idxmax_no_nan (key : string) (a : Series) :
  a <> [] -> no_nan a -> idxmax key a = Ok (np_argmax a).
Proof.
  intros Ha Hn. unfold idxmax.
  now rewrite forallb_isnan_no_nan, fill_no_nan.
Qed.

Lemma idxmin_no_nan (key : string) (a : Series) :
  a <> [] -> no_nan a -> idxmin key a = Ok (np_argmin a).
Proof.
  intros Ha Hn. unfold idxmin.
  now rewrite forallb_isnan_no_nan, fill_no_nan.
Qed.

(** * Well-formed loans *)

Lemma well_formed_inv (l : Loan.t) :
  well_formed l = true ->
  is_some (Loan.name l) = true /\
  is_some (Loan.principal l) = true /\
  is_some (Loan.rate l) = true /\
  number (principal_of l) = true /\
  number (rate_of l) = true.
Proof.
  unfold well_formed, principal_of, rate_of, is_number.
  destruct (Loan.name l), (Loan.principal l), (Loan.rate l); simpl;
    rewrite ?andb_true_iff; intuition congruence.
Qed.

Lemma number_finite (x : f64) : number x = true -> F64.isfinite x = true.
Proof. unfold number. now rewrite andb_true_iff. Qed.

Lemma number_not_nan (x : f64) : number x = true -> F64.isnan x = false.
Proof. intros H. now apply finite_not_nan, number_finite. Qed.

Lemma monthly_interest_not_nan (l : Loan.t) :
  well_formed l = true -> F64.isnan (monthly_interest_of l) = false.
Proof.
  intros H. apply well_formed_inv in H. destruct H as (_ & _ & _ & Hp & Hr).
  unfold monthly_interest_of, accrual_of. apply round2_not_nan.
  rewrite twelve. apply div_finite_not_nan, mul_finite_not_nan.
  - now apply number_finite.
  - now apply div_100_finite.
Qed.

Lemma well_formed_has {A : Type} (get : Loan.t -> option A) (loans : list Loan.t) :
  loans <> [] -> forallb well_formed loans = true ->
  (forall l, well_formed l = true -> is_some (get l) = true) ->
  has get loans = true.
Proof.
  destruct loans as [|l ls]; [congruence|]. intros _ Hwf H.
  simpl in Hwf. apply andb_true_iff in Hwf. destruct Hwf as [Hl _].
  unfold has. simpl. now rewrite (H l Hl).
Qed.

Lemma map_not_nil {A B : Type} (f : A -> B) (l : list A) : l <> [] -> map f l <> [].
Proof. destruct l; [congruence|discriminate]. Qed.

Lemma loc_name_frame (log_pos : f64 -> f64) (loans : list Loan.t) (i : nat) :
  has Loan.name loans = true ->
  loc_name (frame_of log_pos loans) i = Ok (nth i (map Loan.name loans) None).
Proof.
  intros H. unfold loc_name, frame_of. cbn [name]. unfold column.
  fold (has Loan.name loans). now rewrite H.
Qed.

Section WellFormed.

Variable loans : list Loan.t.
Hypothesis Hwf : forallb well_formed loans = true.

Lemma wf_in (l : Loan.t) : In l loans -> well_formed l = true.
Proof. rewrite forallb_forall in Hwf. apply Hwf. Qed.

Lemma wf_no_nan (f : Loan.t -> f64) :
  (forall l, well_formed l = true -> F64.isnan (f l) = false) ->
  no_nan (map f loans).
Proof.
  intros H. apply Forall_map, Forall_forall. intros l Hl. now apply H, wf_in.
Qed.

Lemma wf_rate_no_nan : no_nan (map rate_of loans).
Proof.
  apply wf_no_nan. intros l H. apply well_formed_inv in H.
  now apply number_not_nan.
Qed.

Lemma wf_principal_no_nan : no_nan (map principal_of loans).
Proof.
  apply wf_no_nan. intros l H. apply well_formed_inv in H.
  now apply number_not_nan.
Qed.

Lemma wf_monthly_interest_no_nan : no_nan (map monthly_interest_of loans).
Proof. apply wf_no_nan, monthly_interest_not_nan. Qed.

Hypothesis Hne : loans <> [].

Lemma wf_has {A : Type} (get : Loan.t -> option A) :
  (forall l, well_formed l = true -> is_some (get l) = true) ->
  has get loans = true.
Proof. now apply well_formed_has. Qed.

Lemma wf_has_name : has Loan.name loans = true.
Proof. apply wf_has. intros l H. now apply well_formed_inv in H. Qed.

Lemma wf_has_principal : has Loan.principal loans = true.
Proof. apply wf_has. intros l H. now apply well_formed_inv in H. Qed.

Lemma wf_has_rate : has Loan.rate loans = true.
Proof. apply wf_has. intros l H. now apply well_formed_inv in H. Qed.

Variable log_pos : f64 -> f64.
Variable argsort : Series -> list nat.

Let df := frame_of log_pos loans.
Let names := map Loan.name loans.

(** On well-formed loans the analysis returns, and this is its report. *)
Lemma analyze_well_formed :
  analyze_loan_payoff_strategy log_pos argsort loans =
  Ok {| strategies := {|
          avalanche_method :=
            df_take (nargsort argsort (map avalanche_score_of loans) false) df;
          snowball_method :=
            df_take (nargsort argsort (map snowball_score_of loans) false) df;
          balanced_method :=
            df_take (nargsort argsort (map (balanced_score_of log_pos) loans) false) df |};
        summary := {|
          total_debt := series_sum (map principal_of loans);
          total_monthly_interest := series_sum (map monthly_interest_of loans);
          highest_interest_loan := nth (np_argmax (map rate_of loans)) names None;
          smallest_balance_loan := nth (np_argmin (map principal_of loans)) names None;
          most_expensive_loan :=
            nth (np_argmax (map monthly_interest_of loans)) names None |} |}.
Proof.
  rewrite (analyze_unfold _ _ _ wf_has_principal wf_has_rate).
  rewrite (idxmax_no_nan _ _ (map_not_nil _ _ Hne) wf_rate_no_nan).
  rewrite (idxmin_no_nan _ _ (map_not_nil _ _ Hne) wf_principal_no_nan).
  rewrite (idxmax_no_nan _ _ (map_not_nil _ _ Hne) wf_monthly_interest_no_nan).
  cbn [bind]. rewrite !(loc_name_frame _ _ _ wf_has_name). reflexivity.
Qed.

End WellFormed.

(** * Rankings as reordered frames *)

Section Rankings.

Variable log_pos : f64 -> f64.
Variable argsort : Series -> list nat.
Variable loans : list Loan.t.

Let df := frame_of log_pos loans.

Lemma analyze_Ok_inv (a : Analysis) :
  analyze_loan_payoff_strategy log_pos argsort loans = Ok a ->
  has Loan.name loans = true /\
  strategies a = {|
    avalanche_method :=
      df_take (nargsort argsort (map avalanche_score_of loans) false) df;
    snowball_method :=
      df_take (nargsort argsort (map snowball_score_of loans) false) df;
    balanced_method :=
      df_take (nargsort argsort (map (balanced_score_of log_pos) loans) false) df |} /\
  total_debt (summary a) = series_sum (map principal_of loans) /\
  total_monthly_interest (summary a) = series_sum (map monthly_interest_of loans).
Proof.
  intros H.
  destruct (has Loan.principal loans) eqn:Hp;
    [|rewrite analyze_no_principal in H by assumption; discriminate].
  destruct (has Loan.rate loans) eqn:Hr;
    [|rewrite analyze_no_rate in H by assumption; discriminate].
  rewrite analyze_unfold in H by assumption. fold df in H.
  destruct (idxmax "rate" _) as [i1|]; [|discriminate]. cbn [bind] in H.
  assert (has Loan.name loans = true) as Hn.
  { destruct (has Loan.name loans) eqn:Hn; [reflexivity|exfalso].
    unfold loc_name, df, frame_of in H. cbn [name] in H. unfold column in H.
    fold (has Loan.name loans) in H. rewrite Hn in H. discriminate. }
  destruct (loc_name df i1); [|discriminate]. cbn [bind] in H.
  destruct (idxmin "principal" _); [|discriminate]. cbn [bind] in H.
  destruct (loc_name df _); [|discriminate]. cbn [bind] in H.
  destruct (idxmax "monthly_interest" _); [|discriminate]. cbn [bind] in H.
  destruct (loc_name df _); [|discriminate]. cbn [bind] in H.
  injection H as <-. auto.
Qed.

Hypothesis Hsorts : argsort_sorts argsort.

Variable score : Loan.t -> f64.

Let items := map score loans.
Let idx := nargsort argsort items false.
Let s := df_take idx df.

Lemma ranking_bound : Forall (fun i => i < List.length loans) idx.
Proof.
  apply Permutation_seq_bound.
  rewrite <- (length_map score loans).
  apply ranked_labels_Permutation, Hsorts.
Qed.

Lemma ranking_length : List.length idx = List.length loans.
Proof.
  unfold idx.
  rewrite (Permutation_length (ranked_labels_Permutation _ Hsorts items)).
  unfold items. now rewrite length_seq, length_map.
Qed.

Lemma ranking_index : index s = idx.
Proof. apply take_index, ranking_bound. Qed.

Lemma ranking_index_Permutation : Permutation (index s) (seq 0 (List.length loans)).
Proof.
  rewrite ranking_index, <- (length_map score loans).
  apply ranked_labels_Permutation, Hsorts.
Qed.

Lemma ranking_is_take : s = df_take (index s) df.
Proof. now rewrite ranking_index. Qed.

(** A cell of row [j] is computed from the loan of that row. *)
Lemma ranking_cell (f : Loan.t -> f64) (j : nat) :
  f no_loan = F64.nan ->
  j < List.length loans ->
  nth j (take F64.nan idx (map f loans)) F64.nan = f (row_loan loans idx j).
Proof.
  intros Hf Hj. rewrite nth_take by (now rewrite ranking_length).
  rewrite <- Hf. apply map_nth.
Qed.

Lemma row_loan_in (j : nat) :
  j < List.length loans -> In (row_loan loans idx j) loans.
Proof.
  intros Hj. apply nth_In.
  pose proof ranking_bound as B. rewrite Forall_forall in B.
  apply B, nth_In. now rewrite ranking_length.
Qed.

Lemma ranking_names :
  has Loan.name loans = true ->
  Permutation (cells (name s)) (map Loan.name loans).
Proof.
  intros Hn. unfold s, df_take, df, frame_of. cbn [name]. unfold column.
  fold (has Loan.name loans). rewrite Hn. cbn [option_map cells].
  apply take_Permutation. rewrite length_map, <- (length_map score loans).
  apply ranked_labels_Permutation, Hsorts.
Qed.

End Rankings.

Section Permuted.

Variable log_pos : f64 -> f64.
Variable argsort : Series -> list nat.
Hypothesis Hsorts : argsort_sorts argsort.
Variable loans : list Loan.t.

(** The rankings of a report hold the rows of the frame, each once. *)
Lemma analyze_Ok_permuted (a : Analysis) :
  analyze_loan_payoff_strategy log_pos argsort loans = Ok a ->
  permuted_rankings log_pos loans a.
Proof.
  intros H. apply analyze_Ok_inv in H. destruct H as (Hn & E & _).
  unfold permuted_rankings, rankings. rewrite E.
  cbn [avalanche_method snowball_method balanced_method].
  repeat constructor;
    auto using ranking_index_Permutation, ranking_is_take, ranking_names.
Qed.

End Permuted.

Lemma log_positive (log_pos : f64 -> f64) (p : f64) :
  F64.ltb F64.zero p = true -> F64.isfinite p = true -> F64.log log_pos p = log_pos p.
Proof. destruct p as [[]|[]| |[] m e]; try discriminate; reflexivity. Qed.

Lemma non_increasing_neg (s : Series) :
  non_increasing (map F64.neg s) -> non_decreasing s.
Proof.
  intros H i j Hij. specialize (H i j). rewrite length_map in H.
  specialize (H Hij). now rewrite !nth_neg, leb_neg in H.
Qed.

Section Sorted.

Variable log_pos : f64 -> f64.
Variable argsort : Series -> list nat.
Hypothesis Hsorts : argsort_sorts argsort.
Variable loans : list Loan.t.

Lemma ranked_scores_no_nan (items : Series) :
  no_nan items -> no_nan (map snd (ranked argsort items)).
Proof.
  intros H. unfold no_nan.
  rewrite (Permutation_map snd (ranked_Permutation argsort Hsorts items)).
  now rewrite map_snd_keyed.
Qed.

Lemma ranking_order (score : Loan.t -> f64) (i j : nat) :
  let S := take F64.nan (nargsort argsort (map score loans) false) (map score loans) in
  i < j < List.length loans ->
  F64.isnan (nth j S F64.nan) = false ->
  F64.leb (nth j S F64.nan) (nth i S F64.nan) = true.
Proof.
  intros S Hij Hj. unfold S in *. rewrite (ranked_scores _ Hsorts) in *.
  apply ranked_order; auto. now rewrite length_map.
Qed.

Lemma ranking_non_increasing (score : Loan.t -> f64) :
  no_nan (map score loans) ->
  non_increasing
    (take F64.nan (nargsort argsort (map score loans) false) (map score loans)).
Proof.
  intros Hn i j Hij.
  rewrite take_length, (ranking_length argsort loans Hsorts score) in Hij.
  apply ranking_order; [exact Hij|].
  rewrite (ranked_scores _ Hsorts).
  pose proof (ranked_scores_no_nan _ Hn) as N. unfold no_nan in N.
  rewrite Forall_forall in N. apply N, nth_In.
  rewrite length_map, (ranked_length _ Hsorts), length_map. lia.
Qed.

Hypothesis Hlog : log_finite log_pos.
Hypothesis Hwf : forallb well_formed loans = true.

Lemma balanced_score_not_nan (l : Loan.t) :
  well_formed l = true ->
  F64.ltb F64.zero (principal_of l) = true ->
  F64.isnan (balanced_score_of log_pos l) = false.
Proof.
  intros H Hpos. apply well_formed_inv in H. destruct H as (_ & _ & _ & Hp & Hr).
  unfold balanced_score_of. apply mul_finite_not_nan.
  - now apply number_finite.
  - rewrite log_positive by auto using number_finite. now apply Hlog.
Qed.

End Sorted.

Section RankingStable.

Variable argsort : Series -> list nat.
Hypothesis Hsorts : argsort_sorts argsort.

Lemma ranking_stable (loans : list Loan.t) (score : Loan.t -> f64) :
  argsort_stable argsort ->
  let idx := nargsort argsort (map score loans) false in
  stable_ranking idx (take F64.nan idx (map score loans)).
Proof.
  intros Hst idx. unfold idx.
  rewrite (ranked_scores _ Hsorts), nargsort_ranked.
  now apply ranked_stable.
Qed.

End RankingStable.

Lemma of_Z_small_finite (z : Z) :
  (-1100 <= z <= 1100)%Z -> F64.isfinite (F64.of_Z z) = true.
Proof.
  intros H.
  assert (forallb (fun n => F64.isfinite (F64.of_Z (Z.of_nat n - 1100))) (seq 0 2201) = true)
    as A by (vm_compute; reflexivity).
  rewrite forallb_forall in A.
  specialize (A (Z.to_nat (z + 1100))).
  rewrite Z2Nat.id in A by lia.
  replace (z + 1100 - 1100)%Z with z in A by lia.
  apply A, in_seq. lia.
Qed.

Lemma floor_log2_finite : log_finite F64.floor_log2.
Proof.
  intros x Hx Hpos.
  destruct x as [[]|[]| |[] m e]; try discriminate.
  pose proof (number_bounds _ _ _ Hx) as [Hd He].
  unfold number, valid_binary, bounded, canonical_mantissa, fexp, emin,
    F64.prec, F64.emax in Hx.
  rewrite !andb_true_iff, Z.eqb_eq in Hx.
  unfold F64.floor_log2. apply of_Z_small_finite.
  assert (0 < Zpos (digits2_pos m))%Z by lia. lia.
Qed.

Lemma nth_map_loan (f : Loan.t -> f64) (loans : list Loan.t) (j : nat) :
  f no_loan = F64.nan -> nth j (map f loans) F64.nan = f (nth j loans no_loan).
Proof. intros H. rewrite <- H. apply map_nth. Qed.

Lemma np_argmax_first_max (f : Loan.t -> f64) (loans : list Loan.t) :
  f no_loan = F64.nan -> loans <> [] -> no_nan (map f loans) ->
  first_max f loans (np_argmax (map f loans)).
Proof.
  intros Hf Hne Hn.
  destruct (np_argmax_spec (map f loans) (map_not_nil f loans Hne) Hn) as (H1 & H2 & H3).
  rewrite length_map in *. repeat split; auto.
  - intros j Hj. specialize (H2 j Hj). now rewrite !nth_map_loan in H2.
  - intros j Hj. specialize (H3 j Hj). now rewrite !nth_map_loan in H3.
Qed.

Lemma np_argmin_first_min (f : Loan.t -> f64) (loans : list Loan.t) :
  f no_loan = F64.nan -> loans <> [] -> no_nan (map f loans) ->
  first_min f loans (np_argmin (map f loans)).
Proof.
  intros Hf Hne Hn.
  destruct (np_argmin_spec (map f loans) (map_not_nil f loans Hne) Hn) as (H1 & H2 & H3).
  rewrite length_map in *. repeat split; auto.
  - intros j Hj. specialize (H2 j Hj). now rewrite !nth_map_loan in H2.
  - intros j Hj. specialize (H3 j Hj). now rewrite !nth_map_loan in H3.
Qed.

Lemma round_half_even_nearest (m k : Z) :
  (0 < k)%Z -> nearest_even (F64.round_half_even m k) m k.
Proof.
  intros Hk. unfold nearest_even, F64.round_half_even.
  rewrite Z.shiftr_div_pow2, !Z.shiftl_mul_pow2 by lia.
  rewrite Z.mul_1_l.
  assert (2 ^ k = 2 * 2 ^ (k - 1))%Z as E.
  { rewrite <- Z.pow_succ_r by lia. f_equal. lia. }
  assert (0 < 2 ^ (k - 1))%Z as Hpos by (apply Z.pow_pos_nonneg; lia).
  set (h := (2 ^ (k - 1))%Z) in *. rewrite E.
  pose proof (Z.div_mod m (2 * h) ltac:(lia)) as D.
  pose proof (Z.mod_pos_bound m (2 * h) ltac:(lia)) as B.
  set (q := (m / (2 * h))%Z) in *. set (r := (m mod (2 * h))%Z) in *.
  replace (m - q * (2 * h))%Z with r by lia.
  destruct (Z.compare_spec r h) as [Hr|Hr|Hr].
  - destruct (Z.even q) eqn:Ev.
    + split; [lia|auto].
    + split; [lia|]. intros _. rewrite Z.even_add, Ev. reflexivity.
  - split; lia.
  - split; lia.
Qed.

Lemma div_zero_not_finite (x : f64) (s : bool) :
  F64.isfinite (F64.div x (S754_zero s)) = false.
Proof. now destruct x. Qed.

Lemma mul_neg_inf_not_finite (x : f64) :
  F64.isfinite (F64.mul x F64.neg_inf) = false.
Proof. now destruct x. Qed.

Lemma nth_error_nth_loan (loans : list Loan.t) (j : nat) (x : Loan.t) :
  nth_error loans j = Some x -> nth j loans no_loan = x.
Proof. intros H. now apply nth_error_nth. Qed.

Section FrameRow.

Variable log_pos : f64 -> f64.

Lemma frame_row (loans : list Loan.t) (j : nat) (x : Loan.t) :
  nth_error loans j = Some x ->
  derived_row (frame_of log_pos loans) j = derived_of log_pos x.
Proof.
  intros H. apply nth_error_nth_loan in H. subst x.
  unfold derived_row, derived_of, frame_of.
  cbn [monthly_interest interest_principal_ratio avalanche_score snowball_score
       balanced_score cells].
  now rewrite !nth_map_loan by reflexivity.
Qed.

End FrameRow.

Lemma leb_neg_inf (x : f64) :
  F64.leb x F64.neg_inf = true -> F64.isfinite x = false.
Proof. destruct x as [[]|[]| |[] m e]; try discriminate; reflexivity. Qed.

Lemma zero_not_positive (x : f64) :
  F64.is_zero x = true -> F64.ltb F64.zero x = false.
Proof. destruct x as [[]|[]| |[] m e]; try discriminate; reflexivity. Qed.

Section ZeroScore.

Variable log_pos : f64 -> f64.

Lemma zero_principal_score (l : Loan.t) :
  well_formed l = true ->
  F64.is_zero (principal_of l) = true ->
  F64.leb F64.zero (rate_of l) = true ->
  (F64.ltb F64.zero (rate_of l) = true -> balanced_score_of log_pos l = F64.neg_inf) /\
  (F64.is_zero (rate_of l) = true -> F64.isnan (balanced_score_of log_pos l) = true).
Proof.
  intros H Hz Hr. apply well_formed_inv in H. destruct H as (_ & _ & _ & _ & Hn).
  unfold balanced_score_of.
  destruct (principal_of l); try discriminate.
  destruct (rate_of l) as [[]|[]| |[] m e]; try discriminate; split;
    intros; try discriminate; reflexivity.
Qed.

End ZeroScore.

(** * The claims of the specification *)

Section SummaryClaims.

Variable log_pos : f64 -> f64.
Variable argsort : Series -> list nat.

(** C4, as the code has it: the analysis of an empty list of loans does
    not return.  The frame built from no dict has no column, so the first
    lookup, [df['principal']], raises [KeyError('principal')]; no check of
    the input precedes it and the error does not say that there are no
    loans. *)
Theorem empty_input_raises_KeyError :
  analyze_loan_payoff_strategy log_pos argsort [] = Raise (KeyError "principal").
Proof. apply analyze_no_principal. reflexivity. Qed.

Variable loans : list Loan.t.
Hypothesis Hwf : forallb well_formed loans = true.
Hypothesis Hne : loans <> [].


(** C7: on a non-empty list of well-formed loans the analysis returns and
    [highest_interest_loan] is the name of the loan of greatest rate,
    [smallest_balance_loan] that of the loan of smallest principal and
    [most_expensive_loan] that of the loan of greatest monthly interest,
    each time the first such loan in input order. *)
Theorem extremal_loans_first_on_ties :
  exists a,
    analyze_loan_payoff_strategy log_pos argsort loans = Ok a /\
    extremal_names loans a.
Proof.
  eexists. split; [apply (analyze_well_formed loans Hwf Hne)|].
  exists (np_argmax (map rate_of loans)), (np_argmin (map principal_of loans)),
    (np_argmax (map monthly_interest_of loans)).
  cbn [summary highest_interest_loan smallest_balance_loan most_expensive_loan].
  repeat split;
    try (apply np_argmax_first_max || apply np_argmin_first_min);
    try reflexivity; try assumption;
    auto using wf_rate_no_nan, wf_principal_no_nan, wf_monthly_interest_no_nan;
    try (change None with (Loan.name no_loan); apply map_nth).
Qed.

End SummaryClaims.

Section RankingClaims.

Variable log_pos : f64 -> f64.
Variable argsort : Series -> list nat.
Hypothesis Hsorts : argsort_sorts argsort.
Variable loans : list Loan.t.


(** C3: every ranking that the analysis returns is a permutation of the
    input: its labels are the input positions, each once, its rows are the
    rows of the frame at those labels, and its names are the names of the
    input, as a multiset; so the three rankings hold the same loans. *)
Theorem rankings_are_permutations (a : Analysis) :
  analyze_loan_payoff_strategy log_pos argsort loans = Ok a ->
  permuted_rankings log_pos loans a.
Proof.
  intros H. unfold permuted_rankings.
  apply (analyze_Ok_permuted log_pos argsort Hsorts loans a), H.
Qed.

Lemma ranking_missing_cells (score : Loan.t -> f64) (j : nat) :
  has Loan.name loans = true ->
  j < List.length loans ->
  let s := df_take (nargsort argsort (map score loans) false)
                   (frame_of log_pos loans) in
  let l := row_loan loans (index s) j in
  nth j (cells (name s)) None = Loan.name l /\
  (Loan.principal l = None ->
   F64.isnan (nth j (cells (principal s)) F64.nan) = true) /\
  (Loan.rate l = None ->
   F64.isnan (nth j (cells (rate s)) F64.nan) = true) /\
  (Loan.min_payment l = None ->
   F64.isnan (nth j (cells (min_payment s)) F64.nan) = true).
Proof.
  intros Hn Hj s l. unfold l, s. clear l s.
  rewrite ranking_index by assumption.
  set (idx := nargsort argsort (map score loans) false).
  cbn [df_take frame_of name principal rate min_payment take_num].
  unfold column. fold (has Loan.name loans) (has Loan.min_payment loans).
  rewrite Hn. cbn [take_num option_map cells].
  split; [|split; [|split]].
  - unfold row_loan.
    rewrite nth_take by (unfold idx; now rewrite ranking_length).
    change None with (Loan.name no_loan). apply map_nth.
  - intros Hk. subst idx. rewrite ranking_cell by (reflexivity || assumption).
    unfold principal_of. now rewrite Hk.
  - intros Hk. subst idx. rewrite ranking_cell by (reflexivity || assumption).
    unfold rate_of. now rewrite Hk.
  - intros Hk. destruct (has Loan.min_payment loans); cbn [take_num option_map cells].
    + subst idx.
      rewrite (ranking_cell argsort loans Hsorts score
                 (fun l => num_cell (Loan.min_payment l)))
        by (reflexivity || assumption).
      now rewrite Hk.
    + now destruct j.
Qed.


Hypothesis Hwf : forallb well_formed loans = true.

(** C2: for well-formed loans, with a logarithm that is finite on positive
    numbers, the avalanche ranking does not increase in rate, the snowball
    ranking does not decrease in principal, that is does not increase in
    [-principal], and the balanced ranking does not increase in
    [rate * log(principal)] over the rows of positive principal. *)
Theorem rankings_sorted_by_score (a : Analysis) :
  log_finite log_pos ->
  analyze_loan_payoff_strategy log_pos argsort loans = Ok a ->
  sorted_rankings log_pos a.
Proof.
  intros Hlog H. apply analyze_Ok_inv in H. destruct H as (_ & E & _).
  unfold sorted_rankings. rewrite E.
  cbn [avalanche_method snowball_method balanced_method].
  cbn [df_take frame_of rate principal take_num option_map cells].
  assert (non_increasing
            (map F64.neg
               (take F64.nan (nargsort argsort (map snowball_score_of loans) false)
                  (map principal_of loans)))) as Hsn.
  { change F64.nan with (F64.neg F64.nan) at 1.
    rewrite <- (take_map F64.neg), map_map.
    apply (ranking_non_increasing argsort Hsorts loans snowball_score_of).
    rewrite <- (map_map principal_of F64.neg).
    now apply no_nan_neg, wf_principal_no_nan. }
  split; [|split; [|split]].
  - apply (ranking_non_increasing argsort Hsorts loans avalanche_score_of),
      wf_rate_no_nan, Hwf.
  - apply non_increasing_neg, Hsn.
  - exact Hsn.
  - cbv zeta. intros i j Hij Hi Hj.
    rewrite take_length, (ranking_length argsort loans Hsorts) in Hij.
    rewrite !(ranking_cell argsort loans Hsorts (balanced_score_of log_pos) principal_of)
      in * by (reflexivity || lia).
    rewrite !(ranking_cell argsort loans Hsorts (balanced_score_of log_pos) rate_of)
      by (reflexivity || lia).
    set (idx := nargsort argsort (map (balanced_score_of log_pos) loans) false) in *.
    fold (balanced_score_of log_pos (row_loan loans idx j)).
    fold (balanced_score_of log_pos (row_loan loans idx i)).
    rewrite <- !(ranking_cell argsort loans Hsorts (balanced_score_of log_pos)
                   (balanced_score_of log_pos)) by (reflexivity || lia).
    apply (ranking_order argsort Hsorts loans); [exact Hij|].
    rewrite (ranking_cell argsort loans Hsorts) by (reflexivity || lia).
    apply (balanced_score_not_nan log_pos Hlog); [|exact Hj].
    apply (wf_in loans Hwf), row_loan_in; [exact Hsorts|lia].
Qed.

Hypothesis Hne : loans <> [].



End RankingClaims.

Section ZeroPrincipalClaim.

Variable log_pos : f64 -> f64.
Variable argsort : Series -> list nat.
Hypothesis Hsorts : argsort_sorts argsort.

(** C5: a loan [z] of principal zero among well-formed loans does not make
    the analysis raise.  Its [interest_principal_ratio] is not finite and,
    when its rate is not zero, neither is its [balanced_score]; the loan
    is in all three rankings; and the derived fields of every row are
    computed from the loan of that row alone, so those of the other loans
    are what they are without [z]. *)
Theorem zero_principal_is_tolerated (before after : list Loan.t) (z : Loan.t) :
  forallb well_formed (before ++ z :: after) = true ->
  F64.is_zero (principal_of z) = true ->
  exists a,
    analyze_loan_payoff_strategy log_pos argsort (before ++ z :: after) = Ok a /\
    zero_principal_row log_pos (before ++ z :: after) (List.length before) z a.
Proof.
  intros Hwf Hz. set (loans := before ++ z :: after) in *.
  assert (loans <> []) as Hne by (unfold loans; now destruct before).
  pose proof (analyze_well_formed loans Hwf Hne log_pos argsort) as HA.
  eexists. split; [exact HA|].
  pose proof (analyze_Ok_permuted log_pos argsort Hsorts loans _ HA) as HP.
  split; [|split; [|split]].
  - unfold interest_principal_ratio_of.
    destruct (principal_of z); try discriminate. apply div_zero_not_finite.
  - intros _. unfold balanced_score_of.
    destruct (principal_of z); try discriminate. apply mul_neg_inf_not_finite.
  - refine (Forall_impl _ _ HP).
    intros s (Hperm & Htake & _). split; [|exact Htake].
    apply (Permutation_in _ (Permutation_sym Hperm)), in_seq.
    unfold loans. rewrite length_app. simpl. lia.
  - apply frame_row.
Qed.

End ZeroPrincipalClaim.

(** * The claims on the loans of the script *)



Lemma rankings_sorted_by_score_witness :
  forallb well_formed current_loans = true /\
  exists a,
    analyze_loan_payoff_strategy F64.floor_log2 argsort_insertion current_loans = Ok a /\
    sorted_rankings F64.floor_log2 a.
Proof.
  split; [vm_compute; reflexivity|].
  eexists. split.
  - vm_compute. reflexivity.
  - apply (rankings_sorted_by_score F64.floor_log2 argsort_insertion
             argsort_insertion_sorts current_loans).
    + vm_compute. reflexivity.
    + exact floor_log2_finite.
    + vm_compute. reflexivity.
Defined.

Lemma rankings_are_permutations_witness :
  exists a,
    analyze_loan_payoff_strategy F64.floor_log2 argsort_insertion current_loans = Ok a /\
    permuted_rankings F64.floor_log2 current_loans a.
Proof.
  eexists. split.
  - vm_compute. reflexivity.
  - apply (rankings_are_permutations F64.floor_log2 argsort_insertion
             argsort_insertion_sorts current_loans).
    vm_compute. reflexivity.
Defined.

(** C4, as stated, fails: the error raised on the empty list is the failure
    of a lookup. *)
Lemma empty_input_error_is_a_lookup_failure :
  ~ (exists e,
       analyze_loan_payoff_strategy F64.floor_log2 Npysort.aquicksort [] = Raise e /\
       lookup_failure e = false).
Proof. intros (e & H & He). injection H as <-. discriminate. Qed.

(** The first loan of the script, [AE], has principal zero. *)
Lemma zero_principal_is_tolerated_witness :
  forallb well_formed current_loans = true /\
  exists a,
    analyze_loan_payoff_strategy F64.floor_log2 argsort_insertion current_loans = Ok a /\
    zero_principal_row F64.floor_log2 current_loans 0 (hd no_loan current_loans) a.
Proof.
  split; [vm_compute; reflexivity|].
  apply (zero_principal_is_tolerated F64.floor_log2 argsort_insertion
           argsort_insertion_sorts [] (tl current_loans) (hd no_loan current_loans)).
  - vm_compute. reflexivity.
  - vm_compute. reflexivity.
Defined.


Lemma extremal_loans_first_on_ties_witness :
  forallb well_formed current_loans = true /\
  exists a,
    analyze_loan_payoff_strategy F64.floor_log2 argsort_insertion current_loans = Ok a /\
    extremal_names current_loans a.
Proof.
  split; [vm_compute; reflexivity|].
  apply (extremal_loans_first_on_ties F64.floor_log2 argsort_insertion current_loans).
  - vm_compute. reflexivity.
  - discriminate.
Defined.





(** * The reports of the script and of the scenario *)

(** What the script prints for its fifteen loans: the three names of the
    summary and the two totals (57701.24 and 222.70 to the cent). *)
Example current_loans_summary :
  exists a,
    analyze_loan_payoff_strategy F64.floor_log2 Npysort.aquicksort current_loans = Ok a /\
    highest_interest_loan (summary a) = Some "State-1"%string /\
    smallest_balance_loan (summary a) = Some "AE"%string /\
    most_expensive_loan (summary a) = Some "State-1"%string /\
    round2 (total_debt (summary a)) = F64.dec 5770124 100 /\
    round2 (total_monthly_interest (summary a)) = F64.dec 22270 100.
Proof.
  eexists. split; [vm_compute; reflexivity|]. repeat split; vm_compute; reflexivity.
Qed.

(** The scenario of the specification: three loans are sorted by insertion,
    so [A] stays before [C], which has the same rate. *)
Example scenario_report :
  exists a,
    analyze_loan_payoff_strategy F64.floor_log2 Npysort.aquicksort scenario = Ok a /\
    cells (name (avalanche_method (strategies a))) = [Some "A"; Some "C"; Some "B"]%string /\
    cells (name (snowball_method (strategies a))) = [Some "B"; Some "A"; Some "C"]%string /\
    total_debt (summary a) = F64.of_Z 3500 /\
    cells (monthly_interest (snowball_method (strategies a)))
      = [F64.dec 208 100; F64.dec 833 100; F64.dec 1667 100].
Proof.
  eexists. split; [vm_compute; reflexivity|]. repeat split; vm_compute; reflexivity.
Qed.

(** * Further properties of the analyzer and of the script *)

(** ** The outcome of the analysis, and what the summary depends on *)

Lemma has_map {A : Type} (get : Loan.t -> option A) (loans : list Loan.t) :
  has get loans = existsb is_some (map get loans).
Proof. unfold has. induction loans; simpl; congruence. Qed.

Lemma column_map {A B : Type} (get : Loan.t -> option A) (cell : option A -> B)
    (loans : list Loan.t) :
  column get cell loans =
  if existsb is_some (map get loans) then Some (map cell (map get loans)) else None.
Proof. unfold column. fold (has get loans). now rewrite has_map, map_map. Qed.

Section Outcome.

Variable log_pos : f64 -> f64.
Variable argsort : Series -> list nat.
Variable loans : list Loan.t.

Lemma idxmax_Ok (key : string) (a : Series) :
  forallb F64.isnan a = false -> exists i, idxmax key a = Ok i.
Proof. intros H. unfold idxmax. rewrite H. eauto. Qed.

Lemma idxmin_Ok (key : string) (a : Series) :
  forallb F64.isnan a = false -> exists i, idxmin key a = Ok i.
Proof. intros H. unfold idxmin. rewrite H. eauto. Qed.

Lemma idxmax_Raise (key : string) (a : Series) :
  forallb F64.isnan a = true -> idxmax key a = Raise (NoValidIndex key).
Proof. intros H. unfold idxmax. now rewrite H. Qed.

Lemma idxmin_Raise (key : string) (a : Series) :
  forallb F64.isnan a = true -> idxmin key a = Raise (NoValidIndex key).
Proof. intros H. unfold idxmin. now rewrite H. Qed.

Lemma loc_name_missing (i : nat) :
  has Loan.name loans = false ->
  loc_name (frame_of log_pos loans) i = Raise (KeyError "name").
Proof.
  intros H. unfold loc_name, frame_of. cbn [name]. unfold column.
  fold (has Loan.name loans). now rewrite H.
Qed.

(** The exception of the analysis, lookup after lookup. *)
Lemma analyze_failures :
  has Loan.principal loans = true ->
  has Loan.rate loans = true ->
  (forallb F64.isnan (map rate_of loans) = true ->
   analyze_loan_payoff_strategy log_pos argsort loans = Raise (NoValidIndex "rate")) /\
  (forallb F64.isnan (map rate_of loans) = false ->
   has Loan.name loans = false ->
   analyze_loan_payoff_strategy log_pos argsort loans = Raise (KeyError "name")) /\
  (forallb F64.isnan (map rate_of loans) = false ->
   has Loan.name loans = true ->
   forallb F64.isnan (map principal_of loans) = true ->
   analyze_loan_payoff_strategy log_pos argsort loans
     = Raise (NoValidIndex "principal")) /\
  (forallb F64.isnan (map rate_of loans) = false ->
   has Loan.name loans = true ->
   forallb F64.isnan (map principal_of loans) = false ->
   forallb F64.isnan (map monthly_interest_of loans) = true ->
   analyze_loan_payoff_strategy log_pos argsort loans
     = Raise (NoValidIndex "monthly_interest")) /\
  (forallb F64.isnan (map rate_of loans) = false ->
   has Loan.name loans = true ->
   forallb F64.isnan (map principal_of loans) = false ->
   forallb F64.isnan (map monthly_interest_of loans) = false ->
   exists a, analyze_loan_payoff_strategy log_pos argsort loans = Ok a).
Proof.
  intros Hp Hr. rewrite (analyze_unfold log_pos argsort loans Hp Hr).
  split; [|split; [|split; [|split]]].
  - intros H. now rewrite (idxmax_Raise _ _ H).
  - intros H Hn. destruct (idxmax_Ok "rate" _ H) as [i ->]. cbn [bind].
    now rewrite (loc_name_missing _ Hn).
  - intros H Hn H2. destruct (idxmax_Ok "rate" _ H) as [i ->]. cbn [bind].
    rewrite (loc_name_frame _ _ _ Hn). cbn [bind].
    now rewrite (idxmin_Raise _ _ H2).
  - intros H Hn H2 H3. destruct (idxmax_Ok "rate" _ H) as [i ->]. cbn [bind].
    rewrite (loc_name_frame _ _ _ Hn). cbn [bind].
    destruct (idxmin_Ok "principal" _ H2) as [i2 ->]. cbn [bind].
    rewrite (loc_name_frame _ _ _ Hn). cbn [bind].
    now rewrite (idxmax_Raise _ _ H3).
  - intros H Hn H2 H3. destruct (idxmax_Ok "rate" _ H) as [i ->]. cbn [bind].
    rewrite (loc_name_frame _ _ _ Hn). cbn [bind].
    destruct (idxmin_Ok "principal" _ H2) as [i2 ->]. cbn [bind].
    rewrite (loc_name_frame _ _ _ Hn). cbn [bind].
    destruct (idxmax_Ok "monthly_interest" _ H3) as [i3 ->]. cbn [bind].
    rewrite (loc_name_frame _ _ _ Hn). cbn [bind]. eauto.
Qed.

End Outcome.

Section OutcomeTheorems.

Variable log_pos : f64 -> f64.
Variable argsort : Series -> list nat.
Variable loans : list Loan.t.

(** X1: the analysis returns a report exactly when some dict has each of
    the keys [principal], [rate] and [name], and the columns [rate],
    [principal] and [monthly_interest] each have a cell that is not NaN;
    nothing else of the input is checked. *)
Theorem analysis_returns_iff :
  (exists a, analyze_loan_payoff_strategy log_pos argsort loans = Ok a) <->
  analyzable loans = true.
Proof.
  unfold analyzable.
  destruct (has Loan.principal loans) eqn:Hp.
  2:{ rewrite (analyze_no_principal log_pos argsort loans Hp). simpl.
      split; [intros [a H]|]; discriminate. }
  destruct (has Loan.rate loans) eqn:Hr.
  2:{ rewrite (analyze_no_rate log_pos argsort loans Hp Hr). simpl.
      split; [intros [a H]|]; discriminate. }
  destruct (analyze_failures log_pos argsort loans Hp Hr) as (F1 & F2 & F3 & F4 & F5).
  destruct (forallb F64.isnan (map rate_of loans)) eqn:H1.
  { rewrite (F1 eq_refl). simpl. rewrite andb_false_r.
    split; [intros [a H]|]; discriminate. }
  destruct (has Loan.name loans) eqn:Hn.
  2:{ rewrite (F2 eq_refl eq_refl). simpl. split; [intros [a H]|]; discriminate. }
  destruct (forallb F64.isnan (map principal_of loans)) eqn:H2.
  { rewrite (F3 eq_refl eq_refl eq_refl). simpl.
    split; [intros [a H]|]; discriminate. }
  destruct (forallb F64.isnan (map monthly_interest_of loans)) eqn:H3.
  { rewrite (F4 eq_refl eq_refl eq_refl eq_refl). simpl.
    split; [intros [a H]|]; discriminate. }
  simpl. split; [reflexivity|]. intros _. now apply F5.
Qed.

(** X2: when the columns [principal] and [rate] are there, the exception
    of the analysis is that of the first lookup of the summary that fails,
    in the order of the source: [idxmax] of an all-NaN [rate] column,
    then [KeyError('name')] when no dict has a name, then [idxmin] of an
    all-NaN [principal] column, then [idxmax] of an all-NaN
    [monthly_interest] column. *)
Theorem summary_lookups_fail_in_source_order :
  has Loan.principal loans = true ->
  has Loan.rate loans = true ->
  (forallb F64.isnan (map rate_of loans) = true ->
   analyze_loan_payoff_strategy log_pos argsort loans = Raise (NoValidIndex "rate")) /\
  (forallb F64.isnan (map rate_of loans) = false ->
   has Loan.name loans = false ->
   analyze_loan_payoff_strategy log_pos argsort loans = Raise (KeyError "name")) /\
  (forallb F64.isnan (map rate_of loans) = false ->
   has Loan.name loans = true ->
   forallb F64.isnan (map principal_of loans) = true ->
   analyze_loan_payoff_strategy log_pos argsort loans
     = Raise (NoValidIndex "principal")) /\
  (forallb F64.isnan (map rate_of loans) = false ->
   has Loan.name loans = true ->
   forallb F64.isnan (map principal_of loans) = false ->
   forallb F64.isnan (map monthly_interest_of loans) = true ->
   analyze_loan_payoff_strategy log_pos argsort loans
     = Raise (NoValidIndex "monthly_interest")).
Proof.
  intros Hp Hr.
  destruct (analyze_failures log_pos argsort loans Hp Hr) as (F1 & F2 & F3 & F4 & _).
  auto.
Qed.

End OutcomeTheorems.

Lemma summary_lookups_fail_in_source_order_witness :
  analyze_loan_payoff_strategy F64.floor_log2 Npysort.aquicksort nameless_loans
    = Raise (KeyError "name").
Proof.
  apply (summary_lookups_fail_in_source_order F64.floor_log2 Npysort.aquicksort
           nameless_loans); reflexivity.
Defined.

Section Independence.

Variables log_pos log_pos' : f64 -> f64.
Variables argsort argsort' : Series -> list nat.
Variables loans loans' : list Loan.t.

Hypothesis Hname : map Loan.name loans = map Loan.name loans'.
Hypothesis Hprincipal : map Loan.principal loans = map Loan.principal loans'.
Hypothesis Hrate : map Loan.rate loans = map Loan.rate loans'.

Lemma same_principal_of : map principal_of loans = map principal_of loans'.
Proof.
  unfold principal_of. rewrite <- !(map_map Loan.principal num_cell). now rewrite Hprincipal.
Qed.

Lemma same_rate_of : map rate_of loans = map rate_of loans'.
Proof.
  unfold rate_of. rewrite <- !(map_map Loan.rate num_cell). now rewrite Hrate.
Qed.

Lemma same_monthly_interest_of :
  map monthly_interest_of loans = map monthly_interest_of loans'.
Proof.
  pose proof same_principal_of as P. pose proof same_rate_of as R.
  clear Hname Hprincipal Hrate. revert loans' P R.
  induction loans as [|l ls IH]; intros [|l' ls'] P R; try discriminate; [reflexivity|].
  simpl in *. injection P as P0 P. injection R as R0 R.
  f_equal; [|now apply IH].
  unfold monthly_interest_of, accrual_of. now rewrite P0, R0.
Qed.

Lemma same_loc_name (i : nat) :
  loc_name (frame_of log_pos loans) i = loc_name (frame_of log_pos' loans') i.
Proof.
  unfold loc_name, frame_of. cbn [name]. rewrite !column_map. now rewrite Hname.
Qed.

(** X3: the summary, or the exception raised, is the same for two lists of
    loans that differ only in [min_payment], whatever the sorting routine
    and the logarithm: the totals and the three names are computed from
    the unsorted frame and never read [min_payment]. *)
Theorem summary_ignores_min_payment_and_sort :
  summary_of (analyze_loan_payoff_strategy log_pos argsort loans) =
  summary_of (analyze_loan_payoff_strategy log_pos' argsort' loans').
Proof.
  assert (has Loan.principal loans = has Loan.principal loans') as Ep
    by (now rewrite !has_map, Hprincipal).
  assert (has Loan.rate loans = has Loan.rate loans') as Er
    by (now rewrite !has_map, Hrate).
  destruct (has Loan.principal loans) eqn:Hp.
  2:{ now rewrite !analyze_no_principal by congruence. }
  destruct (has Loan.rate loans) eqn:Hr.
  2:{ now rewrite !analyze_no_rate by congruence. }
  rewrite !analyze_unfold by congruence.
  rewrite same_principal_of, same_rate_of, same_monthly_interest_of.
  destruct (idxmax "rate" _) as [i1|]; [|reflexivity]. cbn [bind].
  rewrite (same_loc_name i1).
  destruct (loc_name _ i1) as [n1|]; [|reflexivity]. cbn [bind].
  destruct (idxmin "principal" _) as [i2|]; [|reflexivity]. cbn [bind].
  rewrite (same_loc_name i2).
  destruct (loc_name _ i2) as [n2|]; [|reflexivity]. cbn [bind].
  destruct (idxmax "monthly_interest" _) as [i3|]; [|reflexivity]. cbn [bind].
  rewrite (same_loc_name i3).
  destruct (loc_name _ i3) as [n3|]; reflexivity.
Qed.

End Independence.

Lemma summary_ignores_min_payment_and_sort_witness :
  summary_of (analyze_loan_payoff_strategy F64.floor_log2 argsort_insertion current_loans) =
  summary_of (analyze_loan_payoff_strategy (fun _ => F64.zero) Npysort.aquicksort
                (map without_min_payment current_loans)).
Proof.
  apply (summary_ignores_min_payment_and_sort F64.floor_log2 (fun _ => F64.zero)
           argsort_insertion Npysort.aquicksort current_loans
           (map without_min_payment current_loans)); reflexivity.
Defined.

(** ** NaN scores, negative and zero balances, first rows *)

Section NanOrder.

Variable argsort : Series -> list nat.
Hypothesis Hsorts : argsort_sorts argsort.
Variable items : Series.

Lemma ranked_nan_in_order (i j : nat) :
  i < j < List.length items ->
  F64.isnan (nth i (map snd (ranked argsort items)) F64.nan) = true ->
  nth i (map fst (ranked argsort items)) 0 < nth j (map fst (ranked argsort items)) 0.
Proof.
  set (F := filter (fun p => negb (F64.isnan (snd p))) (keyed items)).
  set (nans := filter (fun p => F64.isnan (snd p)) (keyed items)).
  set (non_nan := rev F).
  set (a := argsort (map snd non_nan)).
  set (T := take (0, F64.nan) a non_nan).
  assert (ranked argsort items = rev T ++ nans) as ER by reflexivity.
  pose proof (a_Permutation argsort Hsorts items) as Pa. fold F non_nan a in Pa.
  pose proof (Permutation_length Pa) as La. rewrite length_seq in La.
  pose proof (Permutation_seq_bound _ _ Pa) as Ba. rewrite Forall_forall in Ba.
  assert (List.length T = List.length non_nan) as LT
    by (unfold T; now rewrite take_length).
  pose proof (non_nan_keys items) as NN. fold F non_nan in NN.
  assert (forall k, k < List.length T ->
            F64.isnan (snd (nth k (rev T) (0, F64.nan))) = false) as NT.
  { intros k Hk. rewrite rev_nth by lia. rewrite LT. unfold T.
    rewrite nth_take by lia.
    unfold no_nan in NN. rewrite Forall_forall in NN.
    apply NN, in_map, nth_In, Ba, nth_In. lia. }
  intros Hij Hi.
  rewrite <- (ranked_length argsort Hsorts items), ER, length_app, length_rev in Hij.
  set (d := (0, F64.nan)) in *.
  change 0 with (fst d). change F64.nan with (snd d) in Hi.
  rewrite !map_nth in *. rewrite ER in *.
  destruct (Nat.lt_ge_cases i (List.length T)) as [Hlt|Hge].
  - exfalso. rewrite app_nth1 in Hi by (rewrite length_rev; lia).
    rewrite (NT i Hlt) in Hi. discriminate.
  - rewrite !app_nth2 by (rewrite length_rev; lia). rewrite length_rev.
    apply filter_keyed_increasing. fold nans. lia.
Qed.

Lemma nargsort_nan_last :
  let idx := nargsort argsort items false in
  nan_last_in_input_order idx (take F64.nan idx items).
Proof.
  intros idx i j Hij Hi. unfold idx in *.
  rewrite (ranked_scores argsort Hsorts) in *.
  rewrite (Permutation_length (ranked_labels_Permutation argsort Hsorts items)),
    length_seq in Hij.
  split.
  - now apply (ranked_nan_last argsort Hsorts items i j).
  - rewrite nargsort_ranked. now apply ranked_nan_in_order.
Qed.

End NanOrder.

Section FirstRow.

Variable argsort : Series -> list nat.
Hypothesis Hsorts : argsort_sorts argsort.
Hypothesis Hstable : argsort_stable argsort.

(** With a stable sort, the first row of a descending ranking is the first
    row of greatest score. *)
Lemma nargsort_first_is_argmax (items : Series) :
  items <> [] -> no_nan items ->
  nth 0 (nargsort argsort items false) 0 = np_argmax items.
Proof.
  intros Hne Hn.
  set (idx := nargsort argsort items false).
  pose proof (ranked_labels_Permutation argsort Hsorts items) as P. fold idx in P.
  pose proof (Permutation_length P) as L. rewrite length_seq in L.
  destruct (np_argmax_spec items Hne Hn) as (Hm & Hmax & Hfirst).
  set (m := np_argmax items) in *.
  assert (In m idx) as Im
    by (apply (Permutation_in _ (Permutation_sym P)), in_seq; lia).
  destruct (In_nth _ _ 0 Im) as (p & Hp & Ep).
  destruct p as [|p]; [exact Ep|exfalso].
  assert (nth 0 idx 0 < List.length items) as H0.
  { pose proof (Permutation_seq_bound _ _ P) as B. rewrite Forall_forall in B.
    apply B, nth_In. lia. }
  pose proof (ranked_order argsort Hsorts items 0 (S p)) as Ord. cbv zeta in Ord.
  pose proof (ranked_stable argsort Hsorts Hstable items 0 (S p)) as St.
  rewrite <- nargsort_ranked in St. fold idx in St.
  rewrite <- (ranked_scores argsort Hsorts) in Ord, St. fold idx in Ord, St.
  rewrite !nth_take in Ord, St by lia. rewrite Ep in Ord, St.
  assert (F64.isnan (nth m items F64.nan) = false) as Nm.
  { unfold no_nan in Hn. rewrite Forall_forall in Hn. apply Hn, nth_In, Hm. }
  specialize (Ord ltac:(lia) Nm).
  pose proof (Hmax _ H0) as Le.
  pose proof (leb_antisym _ _ Le Ord) as Eq.
  assert (nth 0 idx 0 < m) as Lt.
  { apply St; [lia|]. unfold F64.same. now rewrite Eq. }
  specialize (Hfirst _ Lt). rewrite (eqb_not_ltb _ _ Eq) in Hfirst. discriminate.
Qed.

End FirstRow.

Lemma zero_principal_interest (l : Loan.t) :
  F64.is_zero (principal_of l) = true ->
  number (rate_of l) = true ->
  F64.is_zero (monthly_interest_of l) = true.
Proof.
  intros Hz Hr. pose proof (F64Range.div_100_finite _ Hr) as Hf.
  unfold monthly_interest_of, accrual_of, round2.
  destruct (principal_of l) as [sp| | |]; try discriminate.
  destruct (F64.div (rate_of l) (F64.of_Z 100)) as [sr| | |sr mr er];
    try discriminate; reflexivity.
Qed.

Lemma negative_principal_score (log_pos : f64 -> f64) (l : Loan.t) :
  F64.ltb (principal_of l) F64.zero = true ->
  F64.isnan (balanced_score_of log_pos l) = true.
Proof.
  unfold balanced_score_of.
  destruct (principal_of l) as [[]|[]| |[] m e]; try discriminate; intros _;
    now destruct (rate_of l).
Qed.

Section OrderTheorems.

Variables log_pos log_pos' : f64 -> f64.
Variable argsort : Series -> list nat.
Variables loans loans' : list Loan.t.

(** X4: the order of the avalanche ranking is a function of the [rate]
    column alone and that of the snowball ranking of the [principal]
    column alone: two lists of loans with the same rates get the same
    avalanche order, whatever their names, balances and payments, and two
    lists with the same balances the same snowball order. *)
Theorem ranking_order_depends_on_its_score_only (a a' : Analysis) :
  analyze_loan_payoff_strategy log_pos argsort loans = Ok a ->
  analyze_loan_payoff_strategy log_pos' argsort loans' = Ok a' ->
  (map Loan.rate loans = map Loan.rate loans' ->
   index (avalanche_method (strategies a)) = index (avalanche_method (strategies a'))) /\
  (map Loan.principal loans = map Loan.principal loans' ->
   index (snowball_method (strategies a)) = index (snowball_method (strategies a'))).
Proof.
  intros H H'. apply analyze_Ok_inv in H, H'.
  destruct H as (_ & E & _), H' as (_ & E' & _). rewrite E, E'.
  cbn [avalanche_method snowball_method df_take frame_of index].
  split; intros Hc.
  - assert (map avalanche_score_of loans = map avalanche_score_of loans') as ->.
    { unfold avalanche_score_of, rate_of.
      rewrite <- !(map_map Loan.rate num_cell). now rewrite Hc. }
    now rewrite <- (length_map Loan.rate loans), Hc, length_map.
  - assert (map snowball_score_of loans = map snowball_score_of loans') as ->.
    { unfold snowball_score_of, principal_of.
      rewrite <- !(map_map Loan.principal (fun o => F64.neg (num_cell o))).
      now rewrite Hc. }
    now rewrite <- (length_map Loan.principal loans), Hc, length_map.
Qed.

End OrderTheorems.

Section NanTheorems.

Variable log_pos : f64 -> f64.
Variable argsort : Series -> list nat.
Hypothesis Hsorts : argsort_sorts argsort.
Variable loans : list Loan.t.

(** X8: in each of the three rankings the rows whose score is NaN (a
    missing rate or principal, a negative principal, [0 * inf]) are the
    last ones and keep their input order, whether the sorting routine is
    stable or not: [sort_values] puts them aside before it sorts. *)
Theorem nan_scores_last_in_input_order (a : Analysis) :
  analyze_loan_payoff_strategy log_pos argsort loans = Ok a ->
  nan_rows_last a.
Proof.
  intros H. apply analyze_Ok_inv in H. destruct H as (_ & E & _).
  unfold nan_rows_last. rewrite E.
  cbn [avalanche_method snowball_method balanced_method].
  rewrite !ranking_index by assumption.
  cbn [df_take frame_of avalanche_score snowball_score balanced_score take_num
       option_map cells].
  split; [|split]; apply (nargsort_nan_last argsort Hsorts).
Qed.

(** X7: a negative principal is not rejected.  In the balanced ranking
    the score of such a loan, [rate * log(principal)], is NaN whatever its
    rate, and the loan comes after every loan whose score is not NaN. *)
Theorem negative_principal_ranked_last (a : Analysis) :
  analyze_loan_payoff_strategy log_pos argsort loans = Ok a ->
  negative_principal_last a.
Proof.
  intros H. apply analyze_Ok_inv in H. destruct H as (_ & E & _).
  unfold negative_principal_last. rewrite E.
  cbn [balanced_method df_take frame_of principal balanced_score take_num
       option_map cells].
  cbv zeta. intros z Hz HPz.
  set (bal := balanced_score_of log_pos) in *.
  set (idx := nargsort argsort (map bal loans) false) in *.
  assert (List.length idx = List.length loans) as Len
    by (apply (ranking_length argsort loans Hsorts bal)).
  rewrite take_length, Len in *.
  assert (forall f k, f no_loan = F64.nan -> k < List.length loans ->
            nth k (take F64.nan idx (map f loans)) F64.nan = f (row_loan loans idx k))
    as cell by (intros f k Hf Hk; now apply (ranking_cell argsort loans Hsorts bal)).
  rewrite !cell in * by (reflexivity || assumption).
  pose proof (negative_principal_score log_pos _ HPz) as Nz. fold bal in Nz.
  split; [exact Nz|].
  intros j Hj Nj.
  destruct (Nat.lt_trichotomy j z) as [Hlt|[Heq|Hgt]]; [exact Hlt|exfalso..].
  - subst j. rewrite cell in Nj by (reflexivity || assumption). congruence.
  - destruct (nargsort_nan_last argsort Hsorts (map bal loans) z j) as [C _].
    + fold idx. lia.
    + fold idx. now rewrite cell by (reflexivity || assumption).
    + fold idx in C. congruence.
Qed.

(** X6: a loan of principal zero accrues nothing: in every ranking, the
    monthly interest of a row whose principal is zero and whose rate is a
    number is zero. *)
Theorem zero_principal_accrues_no_interest (a : Analysis) :
  analyze_loan_payoff_strategy log_pos argsort loans = Ok a ->
  zero_principal_no_interest a.
Proof.
  intros H. apply analyze_Ok_inv in H. destruct H as (_ & E & _).
  unfold zero_principal_no_interest, rankings. rewrite E.
  cbn [avalanche_method snowball_method balanced_method].
  repeat constructor; intros j Hj;
    rewrite ranking_index, ranking_length in Hj by assumption;
    cbn [df_take frame_of monthly_interest principal rate take_num option_map cells];
    rewrite !(ranking_cell argsort loans Hsorts) by (reflexivity || assumption);
    apply zero_principal_interest.
Qed.

End NanTheorems.

Section FirstRowTheorem.

Variable log_pos : f64 -> f64.
Variable argsort : Series -> list nat.
Hypothesis Hsorts : argsort_sorts argsort.
Hypothesis Hstable : argsort_stable argsort.
Variable loans : list Loan.t.
Hypothesis Hwf : forallb well_formed loans = true.
Hypothesis Hne : loans <> [].


End FirstRowTheorem.

Lemma ranking_order_depends_on_its_score_only_witness :
  exists a a',
    analyze_loan_payoff_strategy F64.floor_log2 argsort_insertion current_loans = Ok a /\
    analyze_loan_payoff_strategy F64.floor_log2 argsort_insertion
      (map without_min_payment current_loans) = Ok a' /\
    index (avalanche_method (strategies a)) = index (avalanche_method (strategies a')) /\
    index (snowball_method (strategies a)) = index (snowball_method (strategies a')).
Proof.
  eexists. eexists. split; [vm_compute; reflexivity|]. split; [vm_compute; reflexivity|].
  destruct (ranking_order_depends_on_its_score_only F64.floor_log2 F64.floor_log2
              argsort_insertion current_loans (map without_min_payment current_loans)
              _ _ ltac:(vm_compute; reflexivity) ltac:(vm_compute; reflexivity))
    as [H1 H2].
  split; [apply H1|apply H2]; reflexivity.
Defined.

Lemma nan_scores_last_in_input_order_witness :
  exists a,
    analyze_loan_payoff_strategy F64.floor_log2 argsort_insertion partial_loans = Ok a /\
    nan_rows_last a.
Proof.
  eexists. split.
  - vm_compute. reflexivity.
  - apply (nan_scores_last_in_input_order F64.floor_log2 argsort_insertion
             argsort_insertion_sorts partial_loans).
    vm_compute. reflexivity.
Defined.

Lemma negative_principal_ranked_last_witness :
  exists a,
    analyze_loan_payoff_strategy F64.floor_log2 argsort_insertion overpaid_loans = Ok a /\
    negative_principal_last a.
Proof.
  eexists. split.
  - vm_compute. reflexivity.
  - apply (negative_principal_ranked_last F64.floor_log2 argsort_insertion
             argsort_insertion_sorts overpaid_loans).
    vm_compute. reflexivity.
Defined.

Lemma zero_principal_accrues_no_interest_witness :
  exists a,
    analyze_loan_payoff_strategy F64.floor_log2 argsort_insertion current_loans = Ok a /\
    zero_principal_no_interest a.
Proof.
  eexists. split.
  - vm_compute. reflexivity.
  - apply (zero_principal_accrues_no_interest F64.floor_log2 argsort_insertion
             argsort_insertion_sorts current_loans).
    vm_compute. reflexivity.
Defined.


(** ** Extremal lookups over columns with missing cells *)

Lemma forallb_map_comp {A B : Type} (f : B -> bool) (g : A -> B) (l : list A) :
  forallb f (map g l) = forallb (fun x => f (g x)) l.
Proof. induction l; simpl; congruence. Qed.

Lemma forallb_same {A : Type} (f g : A -> bool) (l : list A) :
  (forall x, f x = g x) -> forallb f l = forallb g l.
Proof. intros H. induction l; simpl; congruence. Qed.

Lemma forallb_isnan_false (a : Series) :
  forallb F64.isnan a = false ->
  exists k, k < List.length a /\ F64.isnan (nth k a F64.nan) = false.
Proof.
  induction a as [|x a IH]; simpl; [discriminate|].
  destruct (F64.isnan x) eqn:E; simpl.
  - intros H. destruct (IH H) as (k & Hk & Nk). exists (S k). split; [lia|exact Nk].
  - intros _. exists 0. split; [lia|exact E].
Qed.

Lemma nth_fill (v : f64) (a : Series) (j : nat) :
  j < List.length a ->
  nth j (map (fun x => if F64.isnan x then v else x) a) F64.nan
  = if F64.isnan (nth j a F64.nan) then v else nth j a F64.nan.
Proof.
  intros H.
  rewrite (nth_indep _ F64.nan ((fun x => if F64.isnan x then v else x) F64.nan))
    by (now rewrite length_map).
  apply (map_nth (fun x => if F64.isnan x then v else x)).
Qed.

Lemma fill_is_not_nan (v : f64) (a : Series) :
  F64.isnan v = false -> no_nan (map (fun x => if F64.isnan x then v else x) a).
Proof.
  intros Hv. apply Forall_map, Forall_forall. intros x _.
  destruct (F64.isnan x) eqn:E; assumption.
Qed.

Lemma leb_neg_inf_finite (x : f64) :
  finite_or_missing x = true -> F64.isnan x = false ->
  F64.leb x F64.neg_inf = false.
Proof. destruct x as [[]|[]| |[] m e]; try discriminate; reflexivity. Qed.

(** [idxmax] skips the NaN cells of a column without infinities. *)
Lemma idxmax_present (key : string) (a : Series) (i : nat) :
  forallb finite_or_missing a = true ->
  idxmax key a = Ok i ->
  i < List.length a /\
  F64.isnan (nth i a F64.nan) = false /\
  (forall j, j < List.length a -> F64.isnan (nth j a F64.nan) = false ->
     F64.leb (nth j a F64.nan) (nth i a F64.nan) = true) /\
  (forall j, j < i ->
     F64.isnan (nth j a F64.nan) = true \/
     F64.ltb (nth j a F64.nan) (nth i a F64.nan) = true).
Proof.
  intros Hfin H. unfold idxmax in H.
  destruct (forallb F64.isnan a) eqn:Hall; [discriminate|]. injection H as <-.
  set (fill := fun x => if F64.isnan x then F64.neg_inf else x) in *.
  destruct (forallb_isnan_false a Hall) as (k & Hk & Nk).
  assert (map fill a <> []) as Hne by (destruct a; [simpl in Hk; lia|discriminate]).
  destruct (np_argmax_spec (map fill a) Hne (fill_is_not_nan F64.neg_inf a eq_refl))
    as (Hr & Hmax & Hfirst).
  set (r := np_argmax (map fill a)) in *. rewrite length_map in *.
  rewrite forallb_forall in Hfin.
  assert (F64.isnan (nth r a F64.nan) = false) as Nr.
  { destruct (F64.isnan (nth r a F64.nan)) eqn:E; [exfalso|reflexivity].
    specialize (Hmax k Hk). unfold fill in Hmax.
    rewrite !nth_fill in Hmax by assumption. rewrite Nk, E in Hmax.
    rewrite leb_neg_inf_finite in Hmax; [discriminate| |exact Nk].
    apply Hfin, nth_In, Hk. }
  split; [exact Hr|]. split; [exact Nr|]. split.
  - intros j Hj Nj. specialize (Hmax j Hj). unfold fill in Hmax.
    rewrite !nth_fill in Hmax by assumption. now rewrite Nj, Nr in Hmax.
  - intros j Hj. specialize (Hfirst j Hj). unfold fill in Hfirst.
    rewrite !nth_fill in Hfirst by lia. rewrite Nr in Hfirst.
    destruct (F64.isnan (nth j a F64.nan)); [now left|now right].
Qed.

Lemma idxmin_idxmax (key : string) (a : Series) :
  idxmin key a = idxmax key (map F64.neg a).
Proof.
  unfold idxmin, idxmax. rewrite forallb_map_comp.
  rewrite (forallb_same (fun x => F64.isnan (F64.neg x)) F64.isnan a isnan_neg).
  destruct (forallb F64.isnan a); [reflexivity|].
  rewrite np_argmin_neg, !map_map. do 2 f_equal. apply map_ext.
  intros x. rewrite isnan_neg. now destruct (F64.isnan x).
Qed.

Lemma finite_or_missing_neg (x : f64) :
  finite_or_missing (F64.neg x) = finite_or_missing x.
Proof. now destruct x. Qed.

Lemma idxmin_present (key : string) (a : Series) (i : nat) :
  forallb finite_or_missing a = true ->
  idxmin key a = Ok i ->
  i < List.length a /\
  F64.isnan (nth i a F64.nan) = false /\
  (forall j, j < List.length a -> F64.isnan (nth j a F64.nan) = false ->
     F64.leb (nth i a F64.nan) (nth j a F64.nan) = true) /\
  (forall j, j < i ->
     F64.isnan (nth j a F64.nan) = true \/
     F64.ltb (nth i a F64.nan) (nth j a F64.nan) = true).
Proof.
  intros Hfin H. rewrite idxmin_idxmax in H.
  apply idxmax_present in H.
  2:{ rewrite forallb_map_comp.
      now rewrite (forallb_same _ finite_or_missing a finite_or_missing_neg). }
  rewrite length_map in H. destruct H as (H1 & H2 & H3 & H4).
  rewrite nth_neg, isnan_neg in H2.
  split; [exact H1|]. split; [exact H2|]. split.
  - intros j Hj Nj. specialize (H3 j Hj). rewrite !nth_neg, isnan_neg, leb_neg in H3. auto.
  - intros j Hj. specialize (H4 j Hj). now rewrite !nth_neg, isnan_neg, ltb_neg in H4.
Qed.

Section SummaryInversion.

Variable log_pos : f64 -> f64.
Variable argsort : Series -> list nat.
Variable loans : list Loan.t.

(** The lookups behind the three names of a report. *)
Lemma analyze_Ok_names (a : Analysis) :
  analyze_loan_payoff_strategy log_pos argsort loans = Ok a ->
  exists i1 i2 i3,
    idxmax "rate" (map rate_of loans) = Ok i1 /\
    idxmin "principal" (map principal_of loans) = Ok i2 /\
    idxmax "monthly_interest" (map monthly_interest_of loans) = Ok i3 /\
    highest_interest_loan (summary a) = nth i1 (map Loan.name loans) None /\
    smallest_balance_loan (summary a) = nth i2 (map Loan.name loans) None /\
    most_expensive_loan (summary a) = nth i3 (map Loan.name loans) None.
Proof.
  intros H. pose proof (analyze_Ok_inv log_pos argsort loans a H) as (Hn & _).
  destruct (has Loan.principal loans) eqn:Hp;
    [|rewrite analyze_no_principal in H by assumption; discriminate].
  destruct (has Loan.rate loans) eqn:Hr;
    [|rewrite analyze_no_rate in H by assumption; discriminate].
  rewrite analyze_unfold in H by assumption.
  destruct (idxmax "rate" _) as [i1|]; [|discriminate]. cbn [bind] in H.
  rewrite (loc_name_frame _ _ _ Hn) in H. cbn [bind] in H.
  destruct (idxmin "principal" _) as [i2|]; [|discriminate]. cbn [bind] in H.
  rewrite (loc_name_frame _ _ _ Hn) in H. cbn [bind] in H.
  destruct (idxmax "monthly_interest" _) as [i3|]; [|discriminate]. cbn [bind] in H.
  rewrite (loc_name_frame _ _ _ Hn) in H. cbn [bind] in H.
  injection H as <-. exists i1, i2, i3. cbn. repeat split; reflexivity.
Qed.

End SummaryInversion.

Lemma forallb_map_loan (f : Loan.t -> f64) (loans : list Loan.t) :
  forallb no_infinite_cell loans = true ->
  (forall l, no_infinite_cell l = true -> finite_or_missing (f l) = true) ->
  forallb finite_or_missing (map f loans) = true.
Proof.
  intros H Hf. rewrite forallb_map_comp. rewrite forallb_forall in *. auto.
Qed.

Section PresentTheorem.

Variable log_pos : f64 -> f64.
Variable argsort : Series -> list nat.
Variable loans : list Loan.t.

(** X9: the extremal lookups of the summary skip the missing cells.  When
    the analysis returns and no cell of the columns [rate], [principal]
    and [monthly_interest] is an infinity, [highest_interest_loan] is the
    name of the first loan of greatest rate among the loans that have a
    rate, and likewise [smallest_balance_loan] and [most_expensive_loan]
    among the loans that have a principal and a monthly interest. *)
Theorem extremal_lookups_skip_missing_cells (a : Analysis) :
  forallb no_infinite_cell loans = true ->
  analyze_loan_payoff_strategy log_pos argsort loans = Ok a ->
  extremal_names_among_present loans a.
Proof.
  intros Hfin H.
  destruct (analyze_Ok_names log_pos argsort loans a H)
    as (i1 & i2 & i3 & E1 & E2 & E3 & N1 & N2 & N3).
  assert (forall (f : Loan.t -> f64) j, f no_loan = F64.nan ->
            nth j (map f loans) F64.nan = f (nth j loans no_loan)) as cell
    by (intros f j Hf; now apply nth_map_loan).
  apply idxmax_present in E1, E3; apply idxmin_present in E2;
    try (apply forallb_map_loan; [exact Hfin|];
         intros l Hl; unfold no_infinite_cell in Hl;
         rewrite !andb_true_iff in Hl; tauto).
  rewrite length_map in E1, E2, E3.
  exists i1, i2, i3.
  change None with (Loan.name no_loan) in N1, N2, N3. rewrite map_nth in N1, N2, N3.
  unfold first_max_present, first_min_present.
  destruct E1 as (A1 & B1 & C1 & D1), E2 as (A2 & B2 & C2 & D2),
    E3 as (A3 & B3 & C3 & D3).
  rewrite cell in B1, B2, B3 by reflexivity.
  repeat split; try assumption.
  - intros j Hj Nj. specialize (C1 j Hj). rewrite !cell in C1 by reflexivity. auto.
  - intros j Hj. specialize (D1 j Hj). now rewrite !cell in D1 by reflexivity.
  - intros j Hj Nj. specialize (C2 j Hj). rewrite !cell in C2 by reflexivity. auto.
  - intros j Hj. specialize (D2 j Hj). now rewrite !cell in D2 by reflexivity.
  - intros j Hj Nj. specialize (C3 j Hj). rewrite !cell in C3 by reflexivity. auto.
  - intros j Hj. specialize (D3 j Hj). now rewrite !cell in D3 by reflexivity.
Qed.

End PresentTheorem.

Lemma extremal_lookups_skip_missing_cells_witness :
  exists a,
    analyze_loan_payoff_strategy F64.floor_log2 Npysort.aquicksort gappy_loans = Ok a /\
    extremal_names_among_present gappy_loans a.
Proof.
  eexists. split.
  - vm_compute. reflexivity.
  - apply (extremal_lookups_skip_missing_cells F64.floor_log2 Npysort.aquicksort
             gappy_loans).
    + vm_compute. reflexivity.
    + vm_compute. reflexivity.
Defined.

Example gappy_loans_summary :
  exists a,
    analyze_loan_payoff_strategy F64.floor_log2 Npysort.aquicksort gappy_loans = Ok a /\
    highest_interest_loan (summary a) = Some "A"%string /\
    smallest_balance_loan (summary a) = Some "D"%string /\
    most_expensive_loan (summary a) = Some "C"%string.
Proof. eexists. split; [vm_compute; reflexivity|]. repeat split. Qed.

(** ** numpy's quicksort on short columns *)

Lemma get_middle (p : list nat) (y : nat) (s : list nat) :
  Npysort.get (p ++ y :: s) (List.length p) = y.
Proof. unfold Npysort.get. now rewrite app_nth2, Nat.sub_diag by lia. Qed.

Lemma get_last (p : list nat) (x y : nat) (s : list nat) :
  Npysort.get ((p ++ [x]) ++ y :: s) (List.length (p ++ [x]) - 1) = x.
Proof.
  unfold Npysort.get. rewrite length_app. simpl.
  replace (List.length p + 1 - 1) with (List.length p) by lia.
  rewrite <- app_assoc. simpl. now rewrite app_nth2, Nat.sub_diag by lia.
Qed.

Lemma set_middle (p : list nat) (y z : nat) (s : list nat) :
  Npysort.set (p ++ y :: s) (List.length p) z = p ++ z :: s.
Proof. induction p as [|x p IH]; simpl; [reflexivity|]. now rewrite IH. Qed.

Section ShortRanges.

Variable v : Series.
Hypothesis Hv : no_nan v.

Let key (i : nat) : f64 := nth i v F64.nan.

Let le_key (i j : nat) : Prop := F64.leb (key i) (key j) = true.

Lemma LT_ltb (i j : nat) :
  j < List.length v ->
  Npysort.LT (Npysort.key v i) (Npysort.key v j) = F64.ltb (key i) (key j).
Proof.
  intros Hj. unfold Npysort.LT, Npysort.key. fold (key i) (key j).
  assert (F64.isnan (key j) = false) as N.
  { unfold no_nan in Hv. rewrite Forall_forall in Hv. apply Hv, nth_In, Hj. }
  now rewrite N, orb_false_r.
Qed.

Lemma insert_index_before_last (i x : nat) (p : list nat) :
  F64.ltb (key i) (key x) = true ->
  insert_index v i (p ++ [x]) = insert_index v i p ++ [x].
Proof.
  intros H. induction p as [|j p IH]; simpl.
  - fold (key i) (key x). now rewrite H.
  - destruct (F64.ltb (nth i v F64.nan) (nth j v F64.nan)); [reflexivity|].
    now rewrite IH.
Qed.

Lemma insert_index_at_end (i : nat) (l : list nat) :
  Forall (fun j => F64.ltb (key i) (key j) = false) l ->
  insert_index v i l = l ++ [i].
Proof.
  induction 1 as [|j l Hj _ IH]; simpl; [reflexivity|].
  fold (key i) (key j). now rewrite Hj, IH.
Qed.

Lemma sorted_last (p : list nat) (x : nat) :
  StronglySorted le_key (p ++ [x]) -> Forall (fun j => le_key j x) p.
Proof.
  induction p as [|j p IH]; simpl; intros H; [constructor|].
  inversion H as [|? ? Hs Hf]; subst. constructor.
  - rewrite Forall_forall in Hf. apply Hf, in_or_app. right. now left.
  - now apply IH.
Qed.

Lemma sorted_front (p : list nat) (x : nat) :
  StronglySorted le_key (p ++ [x]) -> StronglySorted le_key p.
Proof.
  induction p as [|j p IH]; simpl; intros H; [constructor|].
  inversion H as [|? ? Hs Hf]; subst. constructor; [now apply IH|].
  apply Forall_app in Hf. tauto.
Qed.

(** The inner loop of the insertion sort puts an index where
    [insert_index] puts it, when the indices before it are sorted. *)
Lemma shift_insert_index (p : list nat) : forall (y : nat) (s : list nat) (vi fuel : nat),
  List.length p <= fuel ->
  Forall (fun j => j < List.length v) p ->
  StronglySorted le_key p ->
  Npysort.shift v fuel (p ++ y :: s) 0 (List.length p) vi = insert_index v vi p ++ s.
Proof.
  induction p as [|x p IH] using rev_ind; intros y s vi fuel Hfuel Hb Hs.
  - simpl. destruct fuel; reflexivity.
  - apply Forall_app in Hb. destruct Hb as [Hb Hx].
    inversion Hx as [|? ? Hx' _]; subst.
    destruct fuel as [|fuel]; [rewrite length_app in Hfuel; simpl in Hfuel; lia|].
    cbn [Npysort.shift].
    rewrite get_last.
    assert ((0 <? List.length (p ++ [x])) = true) as ->
      by (apply Nat.ltb_lt; rewrite length_app; simpl; lia).
    rewrite LT_ltb by assumption. cbn [andb].
    destruct (F64.ltb (key vi) (key x)) eqn:C.
    + rewrite set_middle.
      replace (List.length (p ++ [x]) - 1) with (List.length p)
        by (rewrite length_app; simpl; lia).
      rewrite <- app_assoc. cbn [app].
      rewrite IH.
      * rewrite insert_index_before_last by exact C.
        now rewrite <- app_assoc.
      * rewrite length_app in Hfuel. simpl in Hfuel. lia.
      * exact Hb.
      * now apply sorted_front in Hs.
    + rewrite set_middle. rewrite insert_index_at_end.
      * now rewrite <- !app_assoc.
      * apply Forall_app. split; [|now repeat constructor].
        apply sorted_last in Hs. refine (Forall_impl _ _ Hs).
        intros j Hj. unfold le_key in Hj.
        destruct (F64.ltb (key vi) (key j)) eqn:D; [|reflexivity].
        now rewrite (ltb_leb_trans _ _ _ D Hj) in C.
Qed.

Let prefix (k : nat) : list nat :=
  fold_left (fun sorted i => insert_index v i sorted) (seq 0 k) [].

Lemma prefix_S (k : nat) : prefix (S k) = insert_index v k (prefix k).
Proof. unfold prefix. now rewrite seq_S, fold_left_app. Qed.

Lemma prefix_spec (k : nat) :
  k <= List.length v ->
  List.length (prefix k) = k /\
  Forall (fun j => j < List.length v) (prefix k) /\
  StronglySorted le_key (prefix k).
Proof.
  intros Hk. destruct (fold_insert v Hv k Hk) as [P Srt]. fold (prefix k) in P, Srt.
  split; [|split].
  - now rewrite (Permutation_length P), length_seq.
  - apply Forall_forall. intros j Hj.
    apply (Permutation_in _ P), in_seq in Hj. lia.
  - clear P. induction Srt as [|j l Srt IH F]; constructor; [exact IH|].
    refine (Forall_impl _ _ F). intros i Hi. apply Hi.
Qed.

Lemma insertion_loop_prefix (count : nat) : forall pi,
  pi + count <= List.length v ->
  Npysort.insertion_loop v count (prefix pi ++ seq pi count) 0 pi = prefix (pi + count).
Proof.
  induction count as [|count IH]; intros pi Hle.
  - simpl. now rewrite app_nil_r, Nat.add_0_r.
  - destruct (prefix_spec pi ltac:(lia)) as (L & B & Srt).
    cbn [Npysort.insertion_loop seq].
    pose proof (get_middle (prefix pi) pi (seq (Datatypes.S pi) count)) as G.
    rewrite L in G. rewrite G.
    pose proof (shift_insert_index (prefix pi) pi (seq (Datatypes.S pi) count) pi pi
                  ltac:(lia) B Srt) as Sh.
    rewrite L in Sh. rewrite Sh.
    rewrite <- prefix_S, IH by lia. f_equal. lia.
Qed.

(** On at most 17 keys numpy's quicksort is its insertion sort, and gives
    what the stable insertion argsort gives. *)
Lemma aquicksort_short :
  List.length v <= 17 -> Npysort.aquicksort v = argsort_insertion v.
Proof.
  intros Hn. unfold Npysort.aquicksort, argsort_insertion. fold (prefix (List.length v)).
  remember (List.length v) as n eqn:E.
  replace (2 * n + 2) with (S (S (2 * n))) by lia.
  cbn [Npysort.sort_range Npysort.partition_loop].
  assert ((2 * Z.of_nat (Nat.log2 n) <? 0)%Z = false) as -> by (apply Z.ltb_ge; lia).
  assert ((16 <? n - 1 - 0) = false) as -> by (apply Nat.ltb_ge; lia).
  unfold Npysort.insertion.
  destruct n as [|m]; [reflexivity|].
  replace (S m - 1 - 0) with m by lia.
  change (seq 0 (S m)) with (prefix 1 ++ seq 1 m).
  rewrite insertion_loop_prefix by lia. reflexivity.
Qed.

End ShortRanges.

Lemma filter_length_le {A : Type} (f : A -> bool) (l : list A) :
  List.length (filter f l) <= List.length l.
Proof. induction l as [|x l IH]; simpl; [lia|]. destruct (f x); simpl; lia. Qed.

Lemma nargsort_short (items : Series) :
  List.length items <= 17 ->
  nargsort Npysort.aquicksort items false = nargsort argsort_insertion items false.
Proof.
  intros Hn. unfold nargsort. do 3 f_equal.
  apply aquicksort_short.
  - apply Forall_map, Forall_forall. intros p Hp.
    apply in_rev, filter_In in Hp. now apply negb_true_iff.
  - rewrite length_map, length_rev.
    etransitivity; [apply filter_length_le|].
    rewrite length_combine, length_seq. lia.
Qed.

Section ShortTheorem.

Variable log_pos : f64 -> f64.
Variable loans : list Loan.t.
Hypothesis Hshort : List.length loans <= 17.

Lemma analyze_short :
  analyze_loan_payoff_strategy log_pos Npysort.aquicksort loans =
  analyze_loan_payoff_strategy log_pos argsort_insertion loans.
Proof.
  destruct (has Loan.principal loans) eqn:Hp.
  2:{ now rewrite !analyze_no_principal. }
  destruct (has Loan.rate loans) eqn:Hr.
  2:{ now rewrite !analyze_no_rate. }
  rewrite !analyze_unfold by assumption.
  now rewrite !nargsort_short by (now rewrite length_map).
Qed.


End ShortTheorem.


(** ** The printed report *)

Lemma prefix_append (s t : string) : String.prefix s (String.append s t) = true.
Proof.
  induction s as [|c s IH]; simpl; [now destruct t|].
  destruct (ascii_dec c c); [exact IH|congruence].
Qed.

Lemma nth_map_seq {A : Type} (f : nat -> A) (d : A) (n j : nat) :
  j < n -> nth j (map f (seq 0 n)) d = f j.
Proof.
  intros H. rewrite (nth_indep _ d (f 0)) by (now rewrite length_map, length_seq).
  now rewrite map_nth, seq_nth.
Qed.

Lemma run_prints_Ok (lines : list string) :
  run_prints (map Ok lines) = (lines, None).
Proof. induction lines as [|l ls IH]; simpl; [reflexivity|]. now rewrite IH. Qed.

Lemma run_prints_Raise (lines : list string) (e : exn) (rest : list (result string)) :
  run_prints (map Ok lines ++ Raise e :: rest) = (lines, Some e).
Proof. induction lines as [|l ls IH]; simpl; [reflexivity|]. now rewrite IH. Qed.

Section PrinterFacts.

Variable float_str : f64 -> string.

(** The text of the line of a row whose four columns are there. *)
Let row_text (n : list (option string)) (p r m : Series) (j : nat) : string :=
  String.concat EmptyString
    [ Format.name_str (nth j n None); ": $"%string;
      Format.f2 true (nth j p F64.nan); " at "%string;
      float_str (nth j r F64.nan); "% (Monthly Payment: $"%string;
      Format.f2 false (nth j m F64.nan); ")"%string ].

Lemma row_text_prefix (n : list (option string)) (p r m : Series) (j : nat) :
  String.prefix (String.append (Format.name_str (nth j n None)) ": $")
                (row_text n p r m j) = true.
Proof.
  unfold row_text. cbn [String.concat].
  set (rest := String.append (Format.f2 true (nth j p F64.nan)) _).
  assert (forall a b c : string,
            String.append a (String.append b c)
            = String.append (String.append a b) c) as assoc
    by (intros a b c; induction a; simpl; congruence).
  change (String.append (Format.name_str (nth j n None))
            (String.append EmptyString (String.append ": $" (String.append EmptyString rest))))
    with (String.append (Format.name_str (nth j n None)) (String.append ": $" rest)).
  rewrite assoc. apply prefix_append.
Qed.

Section Frames.

Variable log_pos : f64 -> f64.
Variable argsort : Series -> list nat.
Hypothesis Hsorts : argsort_sorts argsort.
Variable loans : list Loan.t.
Hypothesis Hname : has Loan.name loans = true.
Variable score : Loan.t -> f64.

Let s := df_take (nargsort argsort (map score loans) false) (frame_of log_pos loans).

Lemma ranking_rows : iterrows s = seq 0 (List.length loans).
Proof.
  unfold iterrows, s. rewrite (ranking_index log_pos argsort loans Hsorts score).
  now rewrite (ranking_length argsort loans Hsorts score).
Qed.

Lemma row_print_missing (j : nat) :
  has Loan.min_payment loans = false ->
  row_print float_str s j = Raise (KeyError "min_payment").
Proof.
  intros Hm. unfold row_print, s, df_take, frame_of.
  cbn [name principal rate min_payment]. unfold column.
  fold (has Loan.name loans) (has Loan.min_payment loans). now rewrite Hname, Hm.
Qed.

Lemma row_print_Ok (j : nat) :
  has Loan.min_payment loans = true ->
  row_print float_str s j =
  Ok (row_text (cells (name s)) (cells (principal s)) (cells (rate s))
               (cells (min_payment s)) j).
Proof.
  intros Hm. unfold row_print, s, df_take, frame_of.
  cbn [name principal rate min_payment]. unfold column.
  fold (has Loan.name loans) (has Loan.min_payment loans). now rewrite Hname, Hm.
Qed.

End Frames.

End PrinterFacts.

Section PrinterTheorems.

Variable log_pos : f64 -> f64.
Variable argsort : Series -> list nat.
Hypothesis Hsorts : argsort_sorts argsort.
Variable float_str : f64 -> string.
Variable loans : list Loan.t.

(** X11: the analysis does not need [min_payment], the report does.  When
    the analysis returns for loans none of which has the key
    [min_payment], the script prints the six lines of the summary and the
    header of the avalanche strategy, and the first loan line raises
    [KeyError('min_payment')]: no loan is listed. *)
Theorem report_needs_min_payment (a : Analysis) :
  analyze_loan_payoff_strategy log_pos argsort loans = Ok a ->
  has Loan.min_payment loans = false ->
  report_stops_at_first_row (print_report float_str a).
Proof.
  intros H Hm. apply analyze_Ok_inv in H. destruct H as (Hn & E & _).
  assert (exists k, List.length loans = S k) as (k & Len)
    by (destruct loans as [|l ls]; [discriminate|simpl; eauto]).
  set (head := [ String.append Format.nl "LOAN SUMMARY:";
                 String.append "Total Debt: $" (Format.f2 true (total_debt (summary a)));
                 String.append "Total Monthly Interest: $"
                   (Format.f2 true (total_monthly_interest (summary a)));
                 String.append "Highest Interest Loan: "
                   (Format.name_str (highest_interest_loan (summary a)));
                 String.append "Smallest Balance Loan: "
                   (Format.name_str (smallest_balance_loan (summary a)));
                 String.append "Most Expensive Loan: "
                   (Format.name_str (most_expensive_loan (summary a))) ]).
  assert (List.length head = 6) as L by reflexivity.
  assert (print_report float_str a
          = (head ++ [String.append Format.nl "AVALANCHE_METHOD Priority Order:"],
             Some (KeyError "min_payment"))) as ->.
  { unfold print_report, report_prints, items.
    rewrite E. cbn [avalanche_method snowball_method balanced_method flat_map].
    unfold strategy_prints at 1. cbn [fst snd].
    rewrite (ranking_rows log_pos argsort Hsorts loans avalanche_score_of).
    rewrite Len. cbn [seq map].
    rewrite (row_print_missing float_str log_pos argsort loans Hn avalanche_score_of 0 Hm).
    unfold summary_prints. cbn [app run_prints]. reflexivity. }
  unfold report_stops_at_first_row. cbn [fst snd].
  split; [reflexivity|]. split.
  - rewrite length_app, L. reflexivity.
  - now rewrite app_nth2, L by lia.
Qed.

(** X12: with a [min_payment] column the report is complete, whatever the
    cells hold (NaN and infinities are printed, not raised).  After the
    six lines of the summary come, for the avalanche, the snowball and the
    balanced strategy in this order, a header and one line per loan, and
    the lines of a strategy start with the names of its ranking, in
    ranking order. *)
Theorem report_lists_every_ranking_in_order (a : Analysis) :
  analyze_loan_payoff_strategy log_pos argsort loans = Ok a ->
  has Loan.min_payment loans = true ->
  complete_report (List.length loans) a (print_report float_str a).
Proof.
  intros H Hm. apply analyze_Ok_inv in H. destruct H as (Hn & E & _).
  set (n := List.length loans).
  set (df := frame_of log_pos loans) in *.
  assert (forall (key : string) (score : Loan.t -> f64),
            exists rows,
              strategy_prints float_str
                (key, df_take (nargsort argsort (map score loans) false) df)
              = map Ok rows /\
              List.length rows = 1 + n /\
              forall j, j < n ->
                String.prefix
                  (String.append
                     (Format.name_str
                        (nth j (cells (name (df_take
                           (nargsort argsort (map score loans) false) df))) None))
                     ": $")
                  (nth (1 + j) rows EmptyString) = true) as block.
  { intros key score.
    set (s := df_take (nargsort argsort (map score loans) false) df).
    exists (String.concat EmptyString
              [ Format.nl; Format.upper key; " Priority Order:"%string ]
            :: map (fun j =>
                      String.concat EmptyString
                        [ Format.name_str (nth j (cells (name s)) None); ": $"%string;
                          Format.f2 true (nth j (cells (principal s)) F64.nan);
                          " at "%string;
                          float_str (nth j (cells (rate s)) F64.nan);
                          "% (Monthly Payment: $"%string;
                          Format.f2 false (nth j (cells (min_payment s)) F64.nan);
                          ")"%string ])
                 (seq 0 n)).
    split; [|split].
    - unfold strategy_prints. cbn [fst snd map]. f_equal.
      unfold s, df. rewrite (ranking_rows log_pos argsort Hsorts loans score).
      rewrite map_map. apply map_ext. intros j.
      apply (row_print_Ok float_str log_pos argsort loans Hn score j Hm).
    - cbn [List.length]. now rewrite length_map, length_seq.
    - intros j Hj. cbn [nth Nat.add].
      rewrite nth_map_seq by exact Hj.
      apply row_text_prefix. }
  destruct (block "avalanche_method"%string avalanche_score_of) as (r1 & E1 & L1 & P1).
  destruct (block "snowball_method"%string snowball_score_of) as (r2 & E2 & L2 & P2).
  destruct (block "balanced_method"%string (balanced_score_of log_pos))
    as (r3 & E3 & L3 & P3).
  unfold complete_report, print_report, report_prints, items, rankings.
  rewrite E. cbn [avalanche_method snowball_method balanced_method flat_map].
  rewrite E1, E2, E3, app_nil_r.
  set (head := [ String.append Format.nl "LOAN SUMMARY:";
                 String.append "Total Debt: $" (Format.f2 true (total_debt (summary a)));
                 String.append "Total Monthly Interest: $"
                   (Format.f2 true (total_monthly_interest (summary a)));
                 String.append "Highest Interest Loan: "
                   (Format.name_str (highest_interest_loan (summary a)));
                 String.append "Smallest Balance Loan: "
                   (Format.name_str (smallest_balance_loan (summary a)));
                 String.append "Most Expensive Loan: "
                   (Format.name_str (most_expensive_loan (summary a))) ]).
  change (summary_prints (summary a)) with (map Ok head).
  rewrite <- !map_app, run_prints_Ok. cbn [fst snd].
  split; [reflexivity|]. split.
  - rewrite !length_app, L1, L2, L3. cbn [List.length head]. fold n. lia.
  - intros k s Hk j Hj. fold n in Hj |- *.
    assert (List.length head = 6) as Lh by reflexivity.
    destruct k as [|[|[|k]]]; cbn [nth_error] in Hk.
    + injection Hk as <-.
      rewrite app_nth2 by lia. rewrite app_nth1 by lia.
      replace (6 + 0 * (1 + n) + 1 + j - List.length head) with (1 + j) by lia.
      now apply P1.
    + injection Hk as <-.
      rewrite app_nth2 by lia. rewrite app_nth2 by lia. rewrite app_nth1 by lia.
      replace (6 + 1 * (1 + n) + 1 + j - List.length head - List.length r1)
        with (1 + j) by lia.
      now apply P2.
    + injection Hk as <-.
      rewrite app_nth2 by lia. rewrite app_nth2 by lia. rewrite app_nth2 by lia.
      replace (6 + 2 * (1 + n) + 1 + j - List.length head - List.length r1
               - List.length r2) with (1 + j) by lia.
      now apply P3.
    + now destruct k.
Qed.

End PrinterTheorems.

Lemma report_needs_min_payment_witness :
  exists a,
    analyze_loan_payoff_strategy F64.floor_log2 argsort_insertion unpayable_loans = Ok a /\
    report_stops_at_first_row (print_report (fun _ => EmptyString) a).
Proof.
  eexists. split.
  - vm_compute. reflexivity.
  - apply (report_needs_min_payment F64.floor_log2 argsort_insertion
             argsort_insertion_sorts (fun _ => EmptyString) unpayable_loans).
    + vm_compute. reflexivity.
    + reflexivity.
Defined.

Lemma report_lists_every_ranking_in_order_witness :
  exists a,
    analyze_loan_payoff_strategy F64.floor_log2 argsort_insertion current_loans = Ok a /\
    complete_report 15 a (print_report (fun _ => EmptyString) a).
Proof.
  eexists. split.
  - vm_compute. reflexivity.
  - apply (report_lists_every_ranking_in_order F64.floor_log2 argsort_insertion
             argsort_insertion_sorts (fun _ => EmptyString) current_loans).
    + vm_compute. reflexivity.
    + reflexivity.
Defined.

(** Amounts as Python prints them. *)
Example format_examples :
  Format.f2 true (F64.dec 5770124 100) = "57,701.24"%string /\
  Format.f2 true (F64.of_Z 0) = "0.00"%string /\
  Format.f2 true (F64.of_Z 1234567) = "1,234,567.00"%string /\
  Format.f2 true (F64.of_Z 999) = "999.00"%string /\
  Format.f2 false (F64.dec 862 100) = "8.62"%string /\
  Format.f2 false (F64.of_Z 1234567) = "1234567.00"%string /\
  Format.f2 false (F64.dec 125 1000) = "0.12"%string /\
  Format.f2 false (F64.dec 375 1000) = "0.38"%string /\
  Format.f2 false (F64.dec 1005 1000) = "1.00"%string /\
  Format.f2 true (F64.dec (-123456) 100) = "-1,234.56"%string /\
  Format.f2 true (F64.dec (-1) 1000) = "-0.00"%string /\
  Format.f2 true F64.nan = "nan"%string /\
  Format.f2 true F64.neg_inf = "-inf"%string /\
  Format.upper "avalanche_method" = "AVALANCHE_METHOD"%string.
Proof. vm_compute. repeat split. Qed.

(** The summary that the script prints, whatever the sorting routine, the
    logarithm and the printing of the rates. *)
Example script_prints_summary (log_pos : f64 -> f64) (argsort : Series -> list nat)
    (float_str : f64 -> string) :
  firstn 6 (fst (script log_pos argsort float_str)) =
  [ String.append Format.nl "LOAN SUMMARY:";
    "Total Debt: $57,701.24"; "Total Monthly Interest: $222.70";
    "Highest Interest Loan: State-1"; "Smallest Balance Loan: AE";
    "Most Expensive Loan: State-1" ]%string.
Proof.
  unfold script.
  rewrite (analyze_well_formed current_loans) by (vm_compute; reflexivity || discriminate).
  unfold print_report, report_prints. cbn [summary summary_prints app run_prints].
  destruct (run_prints _) as [out e]. cbn [fst firstn].
  repeat f_equal; vm_compute; reflexivity.
Qed.

(** ** Rankings without ties *)

Lemma leb_not_eqb_ltb (x y : f64) :
  F64.leb x y = true -> F64.eqb x y = false -> F64.ltb x y = true.
Proof. by_cases2 x y. Qed.

Lemma ltb_asym (x y : f64) : F64.ltb x y = true -> F64.ltb y x = true -> False.
Proof.
  intros H1 H2. apply ltb_not_leb in H1. apply ltb_leb in H2. congruence.
Qed.

Lemma StronglySorted_of_nth (R : nat -> nat -> Prop) (l : list nat) :
  (forall p q, p < q < List.length l -> R (nth p l 0) (nth q l 0)) ->
  StronglySorted R l.
Proof.
  induction l as [|x l IH]; intros H; constructor.
  - apply IH. intros p q Hpq. apply (H (S p) (S q)). simpl. lia.
  - apply Forall_forall. intros y Hy.
    destruct (In_nth _ _ 0 Hy) as (q & Hq & <-).
    apply (H 0 (S q)). simpl. lia.
Qed.

Lemma sorted_Permutation_unique (R : nat -> nat -> Prop) (l : list nat) :
  (forall x y, R x y -> R y x -> False) ->
  forall l', Permutation l l' -> StronglySorted R l -> StronglySorted R l' -> l = l'.
Proof.
  intros asym. induction l as [|x t IH]; intros l' P S S'.
  - apply Permutation_nil in P. now subst.
  - destruct l' as [|y t'].
    + apply Permutation_sym, Permutation_nil in P. discriminate.
    + inversion S as [|? ? St Ft]; subst. inversion S' as [|? ? St' Ft']; subst.
      assert (x = y) as ->.
      { assert (In x (y :: t')) as Ix by (apply (Permutation_in _ P); now left).
        assert (In y (x :: t)) as Iy
          by (apply (Permutation_in _ (Permutation_sym P)); now left).
        destruct Ix as [->|Ix]; [reflexivity|].
        destruct Iy as [->|Iy]; [reflexivity|].
        rewrite Forall_forall in Ft, Ft'.
        exfalso. apply (asym x y); auto. }
      f_equal. apply IH; auto. now apply Permutation_cons_inv in P.
Qed.

(** Two sorting routines agree on keys without ties. *)
Lemma argsort_unique (argsort argsort' : Series -> list nat) (ks : Series) :
  argsort_sorts argsort -> argsort_sorts argsort' ->
  no_nan ks ->
  (forall i j, i < List.length ks -> j < List.length ks -> i <> j ->
     F64.eqb (nth i ks F64.nan) (nth j ks F64.nan) = false) ->
  argsort ks = argsort' ks.
Proof.
  intros H H' Hn Hd.
  assert (forall A, argsort_sorts A ->
            Permutation (A ks) (seq 0 (List.length ks)) /\
            StronglySorted
              (fun i j => F64.ltb (nth i ks F64.nan) (nth j ks F64.nan) = true) (A ks))
    as sorted.
  { intros A HA. destruct (HA ks Hn) as [P Hs]. split; [exact P|].
    pose proof (Permutation_length P) as L. rewrite length_seq in L.
    pose proof (Permutation_seq_bound _ _ P) as B. rewrite Forall_forall in B.
    apply StronglySorted_of_nth. intros p q Hpq.
    apply leb_not_eqb_ltb; [apply Hs; lia|].
    apply Hd; try (apply B, nth_In; lia).
    assert (NoDup (A ks)) as ND
      by (apply (Permutation_NoDup (Permutation_sym P)), seq_NoDup).
    intros E. rewrite NoDup_nth in ND. specialize (ND p q ltac:(lia) ltac:(lia) E). lia. }
  destruct (sorted _ H) as [P S], (sorted _ H') as [P' S'].
  apply (sorted_Permutation_unique
           (fun i j => F64.ltb (nth i ks F64.nan) (nth j ks F64.nan) = true)); auto.
  - intros x y. apply ltb_asym.
  - now rewrite P, P'.
Qed.

Lemma nargsort_unique (argsort argsort' : Series -> list nat) (items : Series) :
  argsort_sorts argsort -> argsort_sorts argsort' ->
  no_ties items ->
  nargsort argsort items false = nargsort argsort' items false.
Proof.
  intros H H' Ht. unfold nargsort. do 3 f_equal.
  fold (keyed items).
  set (F := filter (fun p => negb (F64.isnan (snd p))) (keyed items)).
  assert (forall p, p < List.length F ->
            let x := nth p F (0, F64.nan) in
            fst x < List.length items /\ nth (fst x) items F64.nan = snd x /\
            F64.isnan (snd x) = false) as elt.
  { intros p Hp x. assert (In x F) as I by (apply nth_In, Hp).
    apply filter_In in I. destruct I as [I N]. apply negb_true_iff in N.
    destruct x as [i k]. apply keyed_in in I. simpl in *. tauto. }
  assert (forall u w, u < w < List.length F ->
            fst (nth u F (0, F64.nan)) < fst (nth w F (0, F64.nan))) as inc
    by (intros u w Huw; apply filter_keyed_increasing; exact Huw).
  apply argsort_unique; auto.
  - apply Forall_map, Forall_forall. intros p Hp.
    apply in_rev, filter_In in Hp. now apply negb_true_iff.
  - rewrite length_map, length_rev. intros p q Hp Hq Hpq.
    change F64.nan with (snd (0, F64.nan)). rewrite !map_nth.
    rewrite !rev_nth by assumption.
    set (p' := List.length F - S p). set (q' := List.length F - S q).
    destruct (elt p' ltac:(unfold p'; lia)) as (Bp & Ep & Np).
    destruct (elt q' ltac:(unfold q'; lia)) as (Bq & Eq & Nq).
    cbv zeta in *. rewrite <- Ep, <- Eq in *.
    destruct (Nat.lt_trichotomy p' q') as [Hlt|[Heq|Hgt]].
    + pose proof (inc p' q' ltac:(unfold q' in *; lia)) as I.
      apply Ht; auto; lia.
    + unfold p', q' in Heq. lia.
    + pose proof (inc q' p' ltac:(unfold p' in *; lia)) as I.
      rewrite eqb_sym. apply Ht; auto; lia.
Qed.

Lemma map_seq_reverse (n : nat) :
  map (fun i => n - 1 - i) (seq 0 n) = rev (seq 0 n).
Proof.
  apply (nth_ext _ _ 0 0).
  - now rewrite length_map, length_rev.
  - intros p Hp. rewrite length_map, length_seq in Hp.
    rewrite (nth_indep _ 0 ((fun i => n - 1 - i) 0)) by (now rewrite length_map, length_seq).
    rewrite map_nth, seq_nth by assumption.
    rewrite rev_nth by (now rewrite length_seq).
    rewrite length_seq, seq_nth by lia. lia.
Qed.

Lemma argsort_reversed_sorts : argsort_sorts argsort_reversed.
Proof.
  intros ks Hks.
  assert (no_nan (rev ks)) as Hr
    by (apply Forall_rev, Hks).
  destruct (argsort_insertion_sorts (rev ks) Hr) as [P S].
  rewrite length_rev in *.
  pose proof (Permutation_length P) as L. rewrite length_seq in L.
  pose proof (Permutation_seq_bound _ _ P) as B. rewrite Forall_forall in B.
  unfold argsort_reversed. split.
  - rewrite (Permutation_map _ P), map_seq_reverse. apply Permutation_sym, Permutation_rev.
  - intros p q Hpq. specialize (S p q Hpq).
    assert (forall k, k < List.length ks ->
              nth (nth k (map (fun i => List.length ks - 1 - i)
                            (argsort_insertion (rev ks))) 0) ks F64.nan
              = nth (nth k (argsort_insertion (rev ks)) 0) (rev ks) F64.nan) as E.
    { intros k Hk.
      rewrite (nth_indep _ 0 ((fun i => List.length ks - 1 - i) 0))
        by (rewrite length_map; lia).
      rewrite map_nth.
      assert (nth k (argsort_insertion (rev ks)) 0 < List.length ks) as Bk
        by (apply B, nth_In; lia).
      rewrite rev_nth by exact Bk. f_equal. lia. }
    now rewrite !E by lia.
Qed.

Section NoTies.

Variable log_pos : f64 -> f64.
Variables argsort argsort' : Series -> list nat.
Hypothesis Hsorts : argsort_sorts argsort.
Hypothesis Hsorts' : argsort_sorts argsort'.
Variable loans : list Loan.t.

(** X13: without ties the sorting routine does not matter.  For two
    routines that sort, a ranking whose scores are pairwise different (NaN
    scores apart) is the same frame with one as with the other; only the
    order of loans of equal score depends on the routine. *)
Theorem rankings_without_ties_do_not_depend_on_the_sort (a a' : Analysis) :
  analyze_loan_payoff_strategy log_pos argsort loans = Ok a ->
  analyze_loan_payoff_strategy log_pos argsort' loans = Ok a' ->
  same_rankings_without_ties log_pos loans a a'.
Proof.
  intros H H'. apply analyze_Ok_inv in H, H'.
  destruct H as (_ & E & _), H' as (_ & E' & _).
  unfold same_rankings_without_ties. rewrite E, E'.
  cbn [avalanche_method snowball_method balanced_method].
  repeat split; intros Ht; f_equal; now apply nargsort_unique.
Qed.

End NoTies.

Lemma rankings_without_ties_do_not_depend_on_the_sort_witness :
  exists a a',
    analyze_loan_payoff_strategy F64.floor_log2 argsort_insertion scenario = Ok a /\
    analyze_loan_payoff_strategy F64.floor_log2 argsort_reversed scenario = Ok a' /\
    same_rankings_without_ties F64.floor_log2 scenario a a'.
Proof.
  eexists. eexists. split; [vm_compute; reflexivity|]. split; [vm_compute; reflexivity|].
  apply (rankings_without_ties_do_not_depend_on_the_sort F64.floor_log2
           argsort_insertion argsort_reversed argsort_insertion_sorts
           argsort_reversed_sorts scenario).
  - vm_compute. reflexivity.
  - vm_compute. reflexivity.
Defined.

(** On the scenario of the specification the two routines differ on the
    avalanche ranking, where [A] and [C] have the same rate, and agree on
    the snowball ranking. *)
Example scenario_ties :
  exists a a',
    analyze_loan_payoff_strategy F64.floor_log2 argsort_insertion scenario = Ok a /\
    analyze_loan_payoff_strategy F64.floor_log2 argsort_reversed scenario = Ok a' /\
    cells (name (avalanche_method (strategies a))) = [Some "A"; Some "C"; Some "B"]%string /\
    cells (name (avalanche_method (strategies a'))) = [Some "C"; Some "A"; Some "B"]%string /\
    cells (name (snowball_method (strategies a))) = [Some "B"; Some "A"; Some "C"]%string /\
    cells (name (snowball_method (strategies a'))) = [Some "B"; Some "A"; Some "C"]%string.
Proof.
  eexists. eexists. split; [vm_compute; reflexivity|]. split; [vm_compute; reflexivity|].
  repeat split.
Qed.

(** ** The signs of the totals *)

Module F64Sign.

Lemma nonneg_cases (x : f64) :
  F64.leb F64.zero x = true ->
  (exists s, x = S754_zero s) \/ x = S754_infinity false \/
  (exists m e, x = S754_finite false m e).
Proof. destruct x as [s|[]| |[] m e]; try discriminate; eauto. Qed.

Lemma binary_round_aux_nonneg (m e : Z) (l : location) :
  (0 <= m)%Z ->
  F64.leb F64.zero (binary_round_aux F64.prec F64.emax false m e l) = true.
Proof.
  intros H. unfold binary_round_aux.
  pose proof (shr_fexp_nonneg m e l H) as H1.
  destruct (shr_fexp F64.prec F64.emax m e l) as [r1 e1]; simpl in H1.
  pose proof (shr_fexp_nonneg _ e1 loc_Exact
                (round_nearest_even_nonneg _ (loc_of_shr_record r1) H1)) as H2.
  destruct (shr_fexp F64.prec F64.emax _ e1 loc_Exact) as [r2 e2]; simpl in H2.
  destruct (shr_m r2); try lia; try reflexivity.
  now destruct (Z.leb e2 _).
Qed.

Lemma binary_round_nonneg (m : positive) (e : Z) :
  F64.leb F64.zero (binary_round F64.prec F64.emax false m e) = true.
Proof.
  unfold binary_round. destruct (shl_align _ _ _) as [mz ez].
  apply binary_round_aux_nonneg. lia.
Qed.

Lemma add_nonneg (x y : f64) :
  F64.leb F64.zero x = true -> F64.leb F64.zero y = true ->
  F64.leb F64.zero (F64.add x y) = true.
Proof.
  intros Hx Hy.
  destruct (nonneg_cases x Hx) as [[sx ->]|[->|(mx & ex & ->)]];
    destruct (nonneg_cases y Hy) as [[sy ->]|[->|(my & ey & ->)]];
    try reflexivity.
  - now destruct sx, sy.
  - unfold F64.add, SFadd. cbn [cond_Zopp Z.add].
    unfold binary_normalize. apply binary_round_nonneg.
Qed.

Lemma mul_nonneg_or_missing (x y : f64) :
  nonneg_or_missing x = true -> nonneg_or_missing y = true ->
  nonneg_or_missing (F64.mul x y) = true.
Proof.
  unfold nonneg_or_missing.
  destruct x as [sx|[]| |[] mx ex], y as [sy|[]| |[] my ey];
    try discriminate; intros _ _; try reflexivity.
  unfold F64.mul, SFmul. cbn [xorb].
  rewrite binary_round_aux_nonneg by lia. apply orb_true_r.
Qed.

Lemma div_nonneg_or_missing (x : f64) (m : positive) (e : Z) :
  nonneg_or_missing x = true ->
  nonneg_or_missing (F64.div x (S754_finite false m e)) = true.
Proof.
  unfold nonneg_or_missing.
  destruct x as [sx|[]| |[] mx ex]; try discriminate; intros _; try reflexivity.
  unfold F64.div, SFdiv. cbn [xorb].
  destruct (SFdiv_core_binary _ _ _ _ _ _) as [[mz ez] lz] eqn:E.
  rewrite binary_round_aux_nonneg; [apply orb_true_r|].
  unfold SFdiv_core_binary in E.
  set (m' := match _ with Z0 => _ | Zpos _ => _ | Zneg _ => _ end) in E.
  assert (0 <= m')%Z as Hm'.
  { subst m'. destruct (_ - _ - _)%Z; try lia. apply Z.shiftl_nonneg. lia. }
  pose proof (Z_div_mod m' (Zpos m) eq_refl) as Hd.
  destruct (Z.div_eucl m' (Zpos m)) as [q r]. injection E as <- _ _.
  destruct Hd as [Hd Hr]. nia.
Qed.

Lemma round_half_even_nonneg (m k : Z) :
  (0 <= m)%Z -> (0 <= F64.round_half_even m k)%Z.
Proof.
  intros H. unfold F64.round_half_even.
  assert (0 <= Z.shiftr m k)%Z by (now apply Z.shiftr_nonneg).
  destruct (_ ?= _)%Z; [destruct (Z.even _)|..]; lia.
Qed.

Lemma rint_nonneg_or_missing (x : f64) :
  nonneg_or_missing x = true -> nonneg_or_missing (F64.rint x) = true.
Proof.
  unfold nonneg_or_missing.
  destruct x as [sx|[]| |[] mx ex]; try discriminate; intros _; try reflexivity.
  unfold F64.rint. destruct (0 <=? ex)%Z; [reflexivity|].
  pose proof (round_half_even_nonneg (Zpos mx) (- ex) ltac:(lia)) as Hn.
  destruct (F64.round_half_even (Zpos mx) (- ex)) as [|n|n]; try lia; try reflexivity.
  cbn [Z.eqb]. unfold binary_normalize.
  rewrite binary_round_nonneg. apply orb_true_r.
Qed.

Lemma round2_nonneg_or_missing (x : f64) :
  nonneg_or_missing x = true -> nonneg_or_missing (round2 x) = true.
Proof.
  intros H. unfold round2. rewrite hundred.
  apply div_nonneg_or_missing, rint_nonneg_or_missing.
  apply mul_nonneg_or_missing; [exact H|reflexivity].
Qed.

Lemma fillna0_nonneg (x : f64) :
  nonneg_or_missing x = true -> F64.leb F64.zero (fillna0 x) = true.
Proof.
  unfold nonneg_or_missing, fillna0. destruct (F64.isnan x); [reflexivity|]. auto.
Qed.

End F64Sign.

Import F64Sign.

Lemma sum_from_nonneg (a : Series) : forall acc,
  F64.leb F64.zero acc = true -> all_nonneg a ->
  F64.leb F64.zero (sum_from acc a) = true.
Proof.
  unfold sum_from. induction a as [|x a IH]; intros acc Hacc Ha; simpl; [exact Hacc|].
  inversion Ha; subst. apply IH; [now apply add_nonneg|assumption].
Qed.

Lemma zip_add_nonneg (r : list f64) : forall a,
  all_nonneg r -> all_nonneg a ->
  all_nonneg (zip_add r a) /\ List.length (zip_add r a) = List.length r.
Proof.
  induction r as [|x r IH]; intros a Hr Ha; simpl; [now split|].
  destruct a as [|y a]; [now split|].
  inversion Hr as [|? ? Hx Hr']; inversion Ha as [|? ? Hy Ha']; subst.
  destruct (IH a Hr' Ha') as [I1 I2]. split.
  - constructor; [now apply add_nonneg|exact I1].
  - simpl. now rewrite I2.
Qed.

Lemma all_nonneg_split (n : nat) (a : Series) :
  all_nonneg a -> all_nonneg (firstn n a) /\ all_nonneg (skipn n a).
Proof.
  intros H. unfold all_nonneg in *. rewrite <- (firstn_skipn n a) in H.
  now apply Forall_app in H.
Qed.

Lemma all_nonneg_firstn (n : nat) (a : Series) : all_nonneg a -> all_nonneg (firstn n a).
Proof. intros H. now apply (all_nonneg_split n) in H. Qed.

Lemma all_nonneg_skipn (n : nat) (a : Series) : all_nonneg a -> all_nonneg (skipn n a).
Proof. intros H. now apply (all_nonneg_split n) in H. Qed.

Lemma add_blocks_nonneg (fuel : nat) : forall r a,
  all_nonneg r -> all_nonneg a ->
  all_nonneg (fst (add_blocks fuel r a)) /\
  all_nonneg (snd (add_blocks fuel r a)) /\
  List.length (fst (add_blocks fuel r a)) = List.length r.
Proof.
  induction fuel as [|fuel IH]; intros r a Hr Ha; cbn [add_blocks];
    [cbn [fst snd]; auto|].
  destruct (8 <=? List.length a); [|cbn [fst snd]; auto].
  destruct (zip_add_nonneg r (firstn 8 a) Hr (all_nonneg_firstn 8 a Ha)) as [H1 H2].
  destruct (IH (zip_add r (firstn 8 a)) (skipn 8 a) H1 (all_nonneg_skipn 8 a Ha))
    as (I1 & I2 & I3).
  repeat split; auto. now rewrite I3.
Qed.

Lemma sum_accumulators_nonneg (r : list f64) :
  List.length r = 8 -> all_nonneg r ->
  F64.leb F64.zero (sum_accumulators r) = true.
Proof.
  intros L H.
  do 8 (destruct r as [|? r]; [discriminate|]). destruct r; [|discriminate].
  repeat match goal with H : all_nonneg (_ :: _) |- _ => inversion H; clear H; subst end.
  repeat match goal with H : Forall _ (_ :: _) |- _ => inversion H; clear H; subst end.
  cbn [sum_accumulators]. repeat apply add_nonneg; assumption.
Qed.

Lemma pairwise_sum_nonneg (fuel : nat) : forall a,
  List.length a <= 128 + fuel -> all_nonneg a ->
  F64.leb F64.zero (pairwise_sum fuel a) = true.
Proof.
  assert (forall (f : nat) (a : Series),
            (List.length a <? 8) = false -> (List.length a <=? 128) = true ->
            all_nonneg a ->
            F64.leb F64.zero
              (let '(r, rest) := add_blocks (List.length a) (firstn 8 a) (skipn 8 a) in
               sum_from (sum_accumulators r) rest) = true) as blocks.
  { intros _ a H8 _ Ha. apply Nat.ltb_ge in H8.
    destruct (add_blocks_nonneg (List.length a) (firstn 8 a) (skipn 8 a)
                (all_nonneg_firstn 8 a Ha) (all_nonneg_skipn 8 a Ha)) as (B1 & B2 & B3).
    destruct (add_blocks _ _ _) as [r rest]. cbn [fst snd] in *.
    apply sum_from_nonneg; [|exact B2].
    apply sum_accumulators_nonneg; [|exact B1].
    rewrite B3, length_firstn. lia. }
  induction fuel as [|fuel IH]; intros a Hlen Ha.
  - cbn [pairwise_sum].
    destruct (List.length a <? 8) eqn:H8; [now apply sum_from_nonneg|].
    destruct (List.length a <=? 128) eqn:H128; [now apply (blocks 0)|].
    apply Nat.leb_gt in H128. lia.
  - cbn [pairwise_sum].
    destruct (List.length a <? 8) eqn:H8; [now apply sum_from_nonneg|].
    destruct (List.length a <=? 128) eqn:H128; [now apply (blocks 0)|].
    apply Nat.leb_gt in H128.
    set (n := List.length a) in *.
    set (n2 := n / 2 - (n / 2) mod 8).
    assert (n2 <= n / 2) as Hn2 by (unfold n2; lia).
    assert (n / 2 - 7 <= n2) as Hn2'.
    { unfold n2. pose proof (Nat.mod_upper_bound (n / 2) 8 ltac:(lia)). lia. }
    assert (2 * (n / 2) <= n /\ n <= 2 * (n / 2) + 1) as [D1 D2].
    { pose proof (Nat.div_mod_eq n 2) as D.
      pose proof (Nat.mod_upper_bound n 2 ltac:(lia)). lia. }
    apply add_nonneg; apply IH.
    + rewrite length_firstn. fold n. lia.
    + now apply all_nonneg_firstn.
    + rewrite length_skipn. fold n. lia.
    + now apply all_nonneg_skipn.
Qed.

Lemma series_sum_nonneg (a : Series) :
  forallb nonneg_or_missing a = true -> F64.leb F64.zero (series_sum a) = true.
Proof.
  intros H. unfold series_sum. apply add_nonneg; [reflexivity|].
  apply pairwise_sum_nonneg; [lia|].
  apply Forall_map, Forall_forall. intros x Hx.
  rewrite forallb_forall in H. now apply fillna0_nonneg, H.
Qed.

Lemma monthly_interest_nonneg_or_missing (l : Loan.t) :
  no_negative_cell l = true -> nonneg_or_missing (monthly_interest_of l) = true.
Proof.
  unfold no_negative_cell. rewrite andb_true_iff. intros [Hp Hr].
  unfold monthly_interest_of, accrual_of. rewrite hundred, twelve.
  apply round2_nonneg_or_missing, div_nonneg_or_missing, mul_nonneg_or_missing;
    [exact Hp|].
  now apply div_nonneg_or_missing.
Qed.

Section Totals.

Variable log_pos : f64 -> f64.
Variable argsort : Series -> list nat.
Variable loans : list Loan.t.


End Totals.


(** ** A loan that is paid off *)

Lemma between_zeros (x z : f64) :
  F64.is_zero z = true -> F64.leb F64.zero x = true -> F64.leb x z = true ->
  F64.is_zero x = true.
Proof.
  destruct z; try discriminate. destruct x as [[]|[]| |[] m e]; try discriminate; reflexivity.
Qed.

Lemma zero_ltb_not_zero (x y : f64) :
  F64.is_zero x = true -> F64.ltb x y = true -> F64.is_zero y = false.
Proof.
  destruct x; try discriminate. now destruct y as [[]|[]| |[] m e].
Qed.

Section PaidOff.

Variable log_pos : f64 -> f64.
Variable argsort : Series -> list nat.
Hypothesis Hsorts : argsort_sorts argsort.
Hypothesis Hstable : argsort_stable argsort.
Variable loans : list Loan.t.
Hypothesis Hwf : forallb well_formed loans = true.


End PaidOff.


(** ** The rankings of the script *)

(** The avalanche and the snowball order that the script prints for its
    fifteen loans, with numpy's quicksort and whatever the logarithm: the
    loans of equal rate, and [AK] and [AM] of equal balance, are in input
    order. *)
Example script_rankings (log_pos : f64 -> f64) :
  exists a,
    analyze_loan_payoff_strategy log_pos Npysort.aquicksort current_loans = Ok a /\
    map Format.name_str (cells (name (avalanche_method (strategies a)))) =
      [ "State-1"; "AE"; "State-2"; "AA"; "AB"; "AI"; "AJ"; "AK"; "AL"; "AC";
        "AF"; "AG"; "AH"; "AM"; "AN" ]%string /\
    map Format.name_str (cells (name (snowball_method (strategies a)))) =
      [ "AE"; "AB"; "AA"; "AC"; "AH"; "AF"; "State-2"; "State-1"; "AI"; "AK";
        "AM"; "AJ"; "AG"; "AN"; "AL" ]%string /\
    map (Format.f2 true) (cells (principal (snowball_method (strategies a)))) =
      [ "0.00"; "790.54"; "790.58"; "960.00"; "1,000.00"; "3,500.00"; "3,601.00";
        "4,420.00"; "4,500.00"; "5,500.00"; "5,500.00"; "6,396.97"; "6,620.73";
        "7,000.00"; "7,121.42" ]%string.
Proof.
  eexists. split.
  - apply (analyze_well_formed current_loans); [vm_compute; reflexivity|discriminate].
  - cbn [strategies avalanche_method snowball_method df_take frame_of name principal
         take_num option_map].
    repeat split; vm_compute; reflexivity.
Qed.
